(** * gmail-noiser: the scanner's domain ledger and the visitor's scheduler

    A shallow embedding of [tracker_scanner.py] (class [EmailLinkExtractor])
    and [link_clicker.py] (class [LinkInteractor]).

    - Python [str] is [string]; the methods used by the two files
      ([lower], [startswith], [endswith], [in], [find], slicing, [split],
      [strip], [join]) are in module [Py].  Characters are bytes, and
      [lower] maps the ASCII capitals only.
    - A Python [set] of [str] is a [gset string] and a [dict] a [gmap]; a
      loop over a [dict] that only adds to sets or maps folds over
      [map_to_list], and the orders in which the exporter writes out a
      [set] and a [dict] are its parameters.
    - The click-id set handed to [update_domain_tracking] is stored in the
      ledger by reference (line 137) and updated in place on a tie
      (line 146), so these sets live in an explicit heap.
    - A [datetime] is its wall-clock reading and the offset of its zone;
      aware values are compared by the instant they denote.
    - The data frame [visited_domains] is the list of its rows whose
      [domain] is a [str]; [pd.read_csv] and [to_csv] on the store file
      are modelled for the [domain] column, with the parser's tests for
      a number and a boolean as parameters.
    - [LinkInteractor.run] is a labelled transition system: the coroutines
      of one [asyncio.gather] interleave at their [await]s, and the browser
      decides how each navigation ends.
    - [urlparse] is modelled after CPython; [parse_qs], [re.findall], the
      local zone and [isoformat] are parameters. *)

From Stdlib Require Import ZArith Ascii String List Lia Bool Permutation Sorted.
From stdpp Require Import base gmap sets list strings.

Local Open Scope Z_scope.

(* ===================================================================== *)
(** ** Python string methods *)
(* ===================================================================== *)

Module Py.

(** [c.lower()] on one byte. *)
Definition ascii_lower (c : ascii) : ascii :=
  let n := N_of_ascii c in
  if ((65 <=? n)%N && (n <=? 90)%N)%bool then ascii_of_N (n + 32) else c.

(** [s.lower()] *)
Fixpoint lower (s : string) : string :=
  match s with
  | EmptyString => EmptyString
  | String c s' => String (ascii_lower c) (lower s')
  end.

(** [len(s)] *)
Definition len (s : string) : Z := Z.of_nat (String.length s).

(** [s.startswith(p)] *)
Fixpoint startswith (s p : string) : bool :=
  match p, s with
  | EmptyString, _ => true
  | String _ _, EmptyString => false
  | String a p', String b s' => Ascii.eqb a b && startswith s' p'
  end.

Fixpoint drop (n : nat) (s : string) : string :=
  match n, s with
  | O, _ => s
  | S _, EmptyString => EmptyString
  | S n', String _ s' => drop n' s'
  end.

Fixpoint take (n : nat) (s : string) : string :=
  match n, s with
  | O, _ => EmptyString
  | S _, EmptyString => EmptyString
  | S n', String c s' => String c (take n' s')
  end.

(** [s.endswith(suf)] *)
Definition endswith (s suf : string) : bool :=
  (String.length suf <=? String.length s)%nat &&
  String.eqb (drop (String.length s - String.length suf) s) suf.

(** [s.endswith((suf1, suf2, ...))] with a tuple of suffixes. *)
Definition endswith_any (s : string) (sufs : list string) : bool :=
  existsb (endswith s) sufs.

(** [sub in s] *)
Fixpoint contains (sub s : string) : bool :=
  startswith s sub ||
  match s with
  | EmptyString => false
  | String _ s' => contains sub s'
  end.

(** [s.find(sub)]: the lowest index where [sub] occurs, or [-1]. *)
Fixpoint find (s sub : string) : Z :=
  if startswith s sub then 0
  else match s with
       | EmptyString => -1
       | String _ s' =>
           let r := find s' sub in
           if r =? -1 then -1 else r + 1
       end.

(** A slice bound as Python clamps it: negative bounds count from the end. *)
Definition clamp (n i : Z) : Z :=
  if i <? 0 then Z.max (i + n) 0 else Z.min i n.

(** [s[start:end]] *)
Definition slice (s : string) (start stop : Z) : string :=
  let n := len s in
  let a := clamp n start in
  let b := clamp n stop in
  take (Z.to_nat (b - a)) (drop (Z.to_nat a) s).

(** Whitespace as [str.strip()] sees it on bytes: tab, LF, VT, FF, CR,
    FS, GS, RS, US and space. *)
Definition isspace (c : ascii) : bool :=
  let n := N_of_ascii c in
  (((9 <=? n)%N && (n <=? 13)%N) || ((28 <=? n)%N && (n <=? 32)%N))%bool.

(** [s.lstrip()] *)
Fixpoint lstrip (s : string) : string :=
  match s with
  | EmptyString => EmptyString
  | String c s' => if isspace c then lstrip s' else s
  end.

(** [s.rstrip()] *)
Fixpoint rstrip (s : string) : string :=
  match s with
  | EmptyString => EmptyString
  | String c s' =>
      match rstrip s' with
      | EmptyString => if isspace c then EmptyString else String c EmptyString
      | r => String c r
      end
  end.

(** [s.strip()] *)
Definition strip (s : string) : string := rstrip (lstrip s).

(** [s.split(sep)] for a non-empty separator.  [cur] is the piece being
    read; [fuel] bounds the characters left. *)
Fixpoint split_aux (fuel : nat) (sep : string) (cur : string) (s : string)
  : list string :=
  match fuel with
  | O => [cur]
  | S fuel' =>
      match s with
      | EmptyString => [cur]
      | String c s' =>
          if startswith s sep
          then cur :: split_aux fuel' sep EmptyString
                        (drop (String.length sep) s)
          else split_aux fuel' sep (cur +:+ String c EmptyString) s'
      end
  end.

Definition split (s sep : string) : list string :=
  split_aux (S (String.length s)) sep EmptyString s.

(** [sep.join(parts)] *)
Fixpoint join (sep : string) (parts : list string) : string :=
  match parts with
  | [] => EmptyString
  | [p] => p
  | p :: rest => p +:+ sep +:+ join sep rest
  end.

(** [sub] occurs in [s] at index [i]. *)
Definition occurs_at (sub s : string) (i : nat) : Prop :=
  exists pre post, s = pre +:+ sub +:+ post /\ String.length pre = i.

(** [i] is the lowest index at which [sub] occurs in [s]. *)
Definition first_occurrence (sub s : string) (i : nat) : Prop :=
  occurs_at sub s i /\ forall j, (j < i)%nat -> ~ occurs_at sub s j.

(** Every character of [s] satisfies [p]. *)
Fixpoint all_of (p : ascii -> bool) (s : string) : bool :=
  match s with
  | EmptyString => true
  | String c s' => p c && all_of p s'
  end.

(** No character of [s] is whitespace; none is a semicolon. *)
Definition no_space (s : string) : bool :=
  all_of (fun c => negb (isspace c)) s.

Definition no_semicolon (s : string) : bool :=
  all_of (fun c => negb (Ascii.eqb c ";")) s.

End Py.

(* ===================================================================== *)
(** ** [urllib.parse.urlparse] *)
(* ===================================================================== *)

(** Both files take the network authority and the path of a URL from the
    standard library's [urlparse].  This is CPython's algorithm
    ([urlsplit], [_splitnetloc], [_splitparams]) on byte strings.  Outside
    the model: the [ValueError] that CPython raises for a malformed
    bracketed (IPv6) host and for a host that changes under NFKC
    normalisation; the URLs below have neither. *)
Module UrlParse.

Record ParseResult := {
  scheme : string;
  netloc : string;
  path : string;
  params : string;
  query : string;
  fragment : string
}.

(** [s.find(sub, start)] for [0 <= start]. *)
Definition find_from (s sub : string) (start : nat) : Z :=
  if (String.length s <? start)%nat then -1
  else let r := Py.find (Py.drop start s) sub in
       if r =? -1 then -1 else r + Z.of_nat start.

(** [s.rfind(sub)] *)
Fixpoint rfind (s sub : string) : Z :=
  match s with
  | EmptyString => if Py.startswith s sub then 0 else -1
  | String _ s' =>
      let r := rfind s' sub in
      if r =? -1 then (if Py.startswith s sub then 0 else -1) else r + 1
  end.

(** [s.split(sep, 1)] when [sep in s]: the text before and after the first
    occurrence. *)
Definition split_once (s sep : string) : string * string :=
  let i := Py.find s sep in
  (Py.slice s 0 i, Py.drop (Z.to_nat i + String.length sep) s).

(** [s.replace(c, "")] for a one-character [c]. *)
Fixpoint remove_char (c : ascii) (s : string) : string :=
  match s with
  | EmptyString => EmptyString
  | String a s' =>
      if Ascii.eqb a c then remove_char c s' else String a (remove_char c s')
  end.

(** Leading C0 control characters and spaces are stripped. *)
Fixpoint lstrip_c0 (s : string) : string :=
  match s with
  | EmptyString => EmptyString
  | String c s' => if (N_of_ascii c <=? 32)%N then lstrip_c0 s' else s
  end.

Definition is_alpha (c : ascii) : bool :=
  let n := N_of_ascii c in
  (((65 <=? n)%N && (n <=? 90)%N) || ((97 <=? n)%N && (n <=? 122)%N))%bool.

Definition is_digit (c : ascii) : bool :=
  let n := N_of_ascii c in ((48 <=? n)%N && (n <=? 57)%N)%bool.

(** [scheme_chars]: letters, digits, [+], [-] and [.]. *)
Definition scheme_char (c : ascii) : bool :=
  let n := N_of_ascii c in
  (is_alpha c || is_digit c || (n =? 43)%N || (n =? 45)%N || (n =? 46)%N)%bool.

Fixpoint all_chars (p : ascii -> bool) (s : string) : bool :=
  match s with
  | EmptyString => true
  | String c s' => p c && all_chars p s'
  end.

Definition uses_params : list string :=
  [""; "ftp"; "hdl"; "prospero"; "http"; "imap"; "https"; "shttp"; "rtsp";
   "rtspu"; "sip"; "sips"; "mms"; "sftp"; "tel"].

(** [_splitnetloc(url, 2)]: the authority ends at the first of [/], [?],
    [#], or at the end of the string. *)
Definition splitnetloc (url : string) : string * string :=
  let step (delim : Z) (c : string) :=
    let w := find_from url c 2 in
    if 0 <=? w then Z.min delim w else delim in
  let delim := fold_left step ["/"; "?"; "#"] (Py.len url) in
  (Py.slice url 2 delim, Py.drop (Z.to_nat delim) url).

(** [_splitparams(url)], called when [";" in url]. *)
Definition splitparams (url : string) : string * string :=
  let cut (i : Z) :=
    (Py.slice url 0 i, Py.drop (Z.to_nat i + 1) url) in
  if Py.contains "/" url then
    let i := find_from url ";" (Z.to_nat (rfind url "/")) in
    if i <? 0 then (url, EmptyString) else cut i
  else cut (Py.find url ";").

Definition urlparse (url0 : string) : ParseResult :=
  let url := lstrip_c0 url0 in
  let url := remove_char "009" (remove_char "013" (remove_char "010" url)) in
  let i := Py.find url ":" in
  let '(sch, url) :=
    match url with
    | String c0 _ =>
        if ((0 <? i) && is_alpha c0
            && all_chars scheme_char (Py.slice url 0 i))%bool
        then (Py.lower (Py.slice url 0 i), Py.drop (Z.to_nat i + 1) url)
        else (EmptyString, url)
    | EmptyString => (EmptyString, url)
    end in
  let '(nl, url) :=
    if String.eqb (Py.slice url 0 2) "//" then splitnetloc url
    else (EmptyString, url) in
  let '(url, frag) :=
    if Py.contains "#" url then split_once url "#" else (url, EmptyString) in
  let '(url, qry) :=
    if Py.contains "?" url then split_once url "?" else (url, EmptyString) in
  let '(url, prm) :=
    if (existsb (String.eqb sch) uses_params && Py.contains ";" url)%bool
    then splitparams url else (url, EmptyString) in
  {| scheme := sch; netloc := nl; path := url; params := prm;
     query := qry; fragment := frag |}.

End UrlParse.

(* ===================================================================== *)
(** ** tracker_scanner.py: [EmailLinkExtractor] *)
(* ===================================================================== *)

Module Scanner.

(** A [datetime]: the wall-clock reading in microseconds, and the UTC
    offset of its [tzinfo] ([None] for a naive value). *)
Record datetime := { wall : Z; tzinfo : option Z }.

(** [d.replace(tzinfo=tz)] *)
Definition replace_tzinfo (d : datetime) (tz : Z) : datetime :=
  {| wall := wall d; tzinfo := Some tz |}.

(** The instant an aware [datetime] denotes.  Python orders and compares
    aware values by this instant. *)
Definition utc (d : datetime) : Z := wall d - default 0 (tzinfo d).

(** Set objects that are shared between caller and ledger are heap cells. *)
Abbreviation loc := nat.
Abbreviation heap_t := (gmap nat (gset string)).

Definition alloc (h : heap_t) (v : gset string) : loc * heap_t :=
  let l := fresh (dom h) in (l, <[l := v]> h).

Definition deref (h : heap_t) (l : loc) : gset string := default ∅ (h !! l).

(** One value of [self.domain_tracking]. *)
Record domain_data := {
  latest_urls : gset string;
  latest_tracking_params : gmap string (gset string);
  latest_click_ids : loc;
  latest_source_email : string;
  latest_timestamp : option datetime;
  latest_campaign_ids : gset string
}.

Record state := {
  domain_tracking : gmap string domain_data;
  heap : heap_t
}.

(** The extractor after [__init__]. *)
Definition init : state := {| domain_tracking := ∅; heap := ∅ |}.

(** The [defaultdict] factory of line 18. *)
Definition default_data (click_ids : loc) : domain_data :=
  {| latest_urls := ∅; latest_tracking_params := ∅;
     latest_click_ids := click_ids; latest_source_email := EmptyString;
     latest_timestamp := None; latest_campaign_ids := ∅ |}.

(** [self.domain_tracking[domain]]: a missing key is created. *)
Definition getitem (st : state) (domain : string) : state * domain_data :=
  match domain_tracking st !! domain with
  | Some d => (st, d)
  | None =>
      let '(l, h) := alloc (heap st) ∅ in
      ({| domain_tracking := <[domain := default_data l]> (domain_tracking st);
          heap := h |}, default_data l)
  end.

(** [for param, value in tracking_params.items():
       target[param].add(value)] on a [defaultdict(set)]. *)
Definition add_param (m : gmap string (gset string)) (kv : string * string)
  : gmap string (gset string) :=
  <[kv.1 := default ∅ (m !! kv.1) ∪ {[kv.2]}]> m.

Definition add_params (tracking_params : gmap string string)
  (m : gmap string (gset string)) : gmap string (gset string) :=
  foldl add_param m (map_to_list tracking_params).

Definition tracking_patterns : list string :=
  ["utm_"; "fbclid"; "gclid"; "mc_eid"; "ml_subscriber"; "sb_"; "ct0";
   "yclid"; "msclkid"; "_hsenc"; "wickedid"; "ref"; "source"; "medium";
   "campaign"; "term"; "content"; "affiliate"; "sid"; "uid"; "cid"; "lid";
   "pid"; "rid"; "tid"; "vid"; "mid"; "tag"; "hsCtaTracking"; "redirect"].

Definition promo_indicators : list string :=
  ["offer"; "deal"; "discount"; "save"; "sale"; "promo";
   "buy"; "shop"; "order"; "purchase"; "subscribe";
   "campaign"; "special"; "limited"; "exclusive"; "marketing";
   "newsletter"; "unsubscribe"; "click"; "track"; "analytics";
   "product"; "store"; "marketplace"; "cart"; "checkout";
   "catalog"; "collection"; "brand"; "partner"].

(** [any(indicator in text for indicator in promo_indicators)] *)
Definition any_indicator (text : string) : bool :=
  existsb (fun indicator => Py.contains indicator text) promo_indicators.

Definition window_size : Z := 100.

Definition is_promotional_link (url email_content : string) : bool :=
  let url_lower := Py.lower url in
  if any_indicator url_lower then true
  else
    let content_lower := Py.lower email_content in
    let url_index := Py.find content_lower url_lower in
    if negb (url_index =? -1) then
      let start := Z.max 0 (url_index - window_size) in
      let stop := Z.min (Py.len content_lower) (url_index + window_size) in
      let surrounding_content := Py.slice content_lower start stop in
      if any_indicator surrounding_content then true else false
    else false.

(** Some indicator occurs in [text]. *)
Definition has_keyword (text : string) : Prop :=
  exists kw i, kw ∈ promo_indicators /\ Py.occurs_at kw text i.

(** The text from 100 characters before index [i] up to 100 characters
    after it. *)
Definition window (content : string) (i : nat) : string :=
  Py.slice content (Z.max 0 (Z.of_nat i - 100))
    (Z.min (Py.len content) (Z.of_nat i + 100)).

(** The arguments of one call of [update_domain_tracking]. *)
Record observation := {
  obs_domain : string;
  obs_url : string;
  obs_tracking_params : gmap string string;
  obs_timestamp : datetime;
  obs_sender : string;
  obs_click_ids : loc
}.

(** A [datetime] with a [tzinfo]. *)
Definition aware (d : datetime) : Prop := is_Some (tzinfo d).

(** Every entry of the ledger has a timestamp, and it is aware.  This holds
    after [__init__] and is kept by [update_domain_tracking]. *)
Definition ledger_ok (st : state) : Prop :=
  forall D d, domain_tracking st !! D = Some d ->
    exists t, latest_timestamp d = Some t /\ aware t.

(** The values [l] gives for the parameter [k]. *)
Definition vals (k : string) (l : list (string * string)) : gset string :=
  list_to_set (snd <$> filter (fun kv => kv.1 = k) l).

(** The greatest element of a list, [None] for the empty list. *)
Definition maximum (l : list Z) : option Z :=
  foldr (fun x acc => Some (from_option (Z.max x) x acc)) None l.

(** The test of lines 76-78 on one parameter name. *)
Definition is_tracking_name (param : string) : bool :=
  existsb (fun pattern => Py.contains pattern (Py.lower param))
    tracking_patterns.

(** The click-id sets of the ledger are allocated, and no two entries
    hold the same set object. *)
Definition separated (st : state) : Prop :=
  (forall D d, domain_tracking st !! D = Some d ->
     latest_click_ids d ∈ dom (heap st))
  /\ (forall D1 D2 d1 d2,
        domain_tracking st !! D1 = Some d1 ->
        domain_tracking st !! D2 = Some d2 ->
        latest_click_ids d1 = latest_click_ids d2 -> D1 = D2).

(** What every entry written by the scanner looks like. *)
Definition well_formed (D : string) (d : domain_data) : Prop :=
  (exists t, latest_timestamp d = Some t /\ aware t)
  /\ latest_urls d <> ∅
  /\ (forall u, u ∈ latest_urls d ->
        UrlParse.netloc (UrlParse.urlparse u) = D)
  /\ latest_campaign_ids d = ∅
  /\ (forall k S, latest_tracking_params d !! k = Some S ->
        is_tracking_name k = true /\ S <> ∅).

(** [d'] is a later state of the entry [d]: its timestamp is not earlier,
    and if it denotes the same instant the sender is the same and no URL
    has gone. *)
Definition entry_le (d d' : domain_data) : Prop :=
  exists t t',
    latest_timestamp d = Some t /\ latest_timestamp d' = Some t'
    /\ utc t <= utc t'
    /\ (utc t' = utc t ->
        latest_source_email d' = latest_source_email d
        /\ latest_urls d ⊆ latest_urls d').

Section WithEnvironment.

(** The UTC offset of the machine's zone,
    [datetime.now().astimezone().tzinfo]. *)
Variable local_tz : Z.
(** [urllib.parse.parse_qs]: each name with its first value and the rest. *)
Variable parse_qs : string -> gmap string (string * list string).
(** [re.findall(pattern, text)] for a pattern with one group. *)
Variable re_findall : string -> string -> list string.

(** Lines 121-127: a naive value gets the local zone. *)
Definition normalize (d : datetime) : datetime :=
  match tzinfo d with
  | None => replace_tzinfo d local_tz
  | Some _ => d
  end.

Definition update_domain_tracking (st : state) (domain url : string)
  (tracking_params : gmap string string) (timestamp : datetime)
  (sender : string) (click_ids : loc) : state :=
  let '(st, current_data) := getitem st domain in
  let timestamp := normalize timestamp in
  let stored := normalize <$> latest_timestamp current_data in
  let newer :=
    match stored with
    | None => true
    | Some t => utc t <? utc timestamp
    end in
  let same :=
    match stored with
    | None => false
    | Some t => utc timestamp =? utc t
    end in
  if newer then
    {| domain_tracking :=
         <[domain :=
             {| latest_urls := {[url]};
                latest_tracking_params := add_params tracking_params ∅;
                latest_click_ids := click_ids;
                latest_source_email := sender;
                latest_timestamp := Some timestamp;
                latest_campaign_ids := latest_campaign_ids current_data |}]>
           (domain_tracking st);
       heap := heap st |}
  else if same then
    {| domain_tracking :=
         <[domain :=
             {| latest_urls := latest_urls current_data ∪ {[url]};
                latest_tracking_params :=
                  add_params tracking_params
                    (latest_tracking_params current_data);
                latest_click_ids := latest_click_ids current_data;
                latest_source_email := latest_source_email current_data;
                latest_timestamp := stored;
                latest_campaign_ids := latest_campaign_ids current_data |}]>
           (domain_tracking st);
       heap :=
         <[latest_click_ids current_data :=
             deref (heap st) (latest_click_ids current_data)
             ∪ deref (heap st) click_ids]> (heap st) |}
  else
    {| domain_tracking :=
         <[domain :=
             {| latest_urls := latest_urls current_data;
                latest_tracking_params := latest_tracking_params current_data;
                latest_click_ids := latest_click_ids current_data;
                latest_source_email := latest_source_email current_data;
                latest_timestamp := stored;
                latest_campaign_ids := latest_campaign_ids current_data |}]>
           (domain_tracking st);
       heap := heap st |}.

Definition extract_tracking_params (url : string) : gmap string string :=
  let query_params := parse_qs (UrlParse.query (UrlParse.urlparse url)) in
  foldl
    (fun acc (item : string * (string * list string)) =>
       foldl
         (fun acc pattern =>
            if Py.contains pattern (Py.lower item.1)
            then <[item.1 := item.2.1]> acc else acc)
         acc tracking_patterns)
    ∅ (map_to_list query_params).

Definition click_patterns : list string :=
  ["click[_-]?id=([^&]+)"; "cid=([^&]+)"].

(** Lines 167-181, the body of [for url in urls]. *)
Definition scan_url (content : string) (timestamp : datetime)
  (sender : string) (st : state) (url : string) : state :=
  if is_promotional_link url content then
    let domain := UrlParse.netloc (UrlParse.urlparse url) in
    let tracking_params := extract_tracking_params url in
    let found :=
      foldl (fun ids pattern => ids ∪ list_to_set (re_findall pattern url))
        (∅ : gset string) click_patterns in
    let '(click_ids, h) := alloc (heap st) found in
    update_domain_tracking
      {| domain_tracking := domain_tracking st; heap := h |}
      domain url tracking_params timestamp sender click_ids
  else st.

(** Lines 164-181 for one decoded body part whose URL tokens are [urls]. *)
Definition scan_part (content : string) (timestamp : datetime)
  (sender : string) (urls : list string) (st : state) : state :=
  foldl (scan_url content timestamp sender) st urls.

(** The text parts of the messages of a scan, one after the other, each
    with the date and the sender of its message and its URL tokens.  A
    message that raises while it is processed is left at that point, which
    shortens the list of its URLs. *)
Definition scan_parts (st : state)
  (parts : list (string * datetime * string * list string)) : state :=
  foldl (fun st part =>
           scan_part part.1.1.1 part.1.1.2 part.1.2 part.2 st)
    st parts.

Definition reconcile (st : state) (o : observation) : state :=
  update_domain_tracking st (obs_domain o) (obs_url o)
    (obs_tracking_params o) (obs_timestamp o) (obs_sender o)
    (obs_click_ids o).

(** Observations reconciled one after the other. *)
Definition reconcile_all (st : state) (os : list observation) : state :=
  foldl reconcile st os.

(** The instant of an observation, as the comparison of line 131 sees it. *)
Definition instant (o : observation) : Z := utc (normalize (obs_timestamp o)).

(** The three outcomes of [update_domain_tracking] on an entry [d]: the
    entry a strictly newer (or first) observation leaves, the entry a tied
    one leaves, and the entry a strictly older one leaves. *)
Definition replaced (campaign : gset string) (url : string)
  (tp : gmap string string) (ts : datetime) (sender : string) (cl : loc)
  : domain_data :=
  {| latest_urls := {[url]};
     latest_tracking_params := add_params tp ∅;
     latest_click_ids := cl;
     latest_source_email := sender;
     latest_timestamp := Some (normalize ts);
     latest_campaign_ids := campaign |}.

Definition merged (d : domain_data) (url : string) (tp : gmap string string)
  : domain_data :=
  {| latest_urls := latest_urls d ∪ {[url]};
     latest_tracking_params := add_params tp (latest_tracking_params d);
     latest_click_ids := latest_click_ids d;
     latest_source_email := latest_source_email d;
     latest_timestamp := normalize <$> latest_timestamp d;
     latest_campaign_ids := latest_campaign_ids d |}.

Definition settled (d : domain_data) : domain_data :=
  {| latest_urls := latest_urls d;
     latest_tracking_params := latest_tracking_params d;
     latest_click_ids := latest_click_ids d;
     latest_source_email := latest_source_email d;
     latest_timestamp := normalize <$> latest_timestamp d;
     latest_campaign_ids := latest_campaign_ids d |}.

(** The observations of [os] made for the domain [D], their greatest
    instant, and those made at that instant. *)
Definition mine (D : string) (os : list observation) : list observation :=
  filter (fun o => obs_domain o = D) os.

Definition top (D : string) (os : list observation) : option Z :=
  maximum (instant <$> mine D os).

Definition at_top (D : string) (os : list observation) : list observation :=
  filter (fun o => Some (instant o) = top D os) (mine D os).

(** What the ledger holds for [D] after the observations [os]. *)
Definition tracks (st : state) (D : string) (os : list observation) : Prop :=
  match domain_tracking st !! D with
  | None => mine D os = []
  | Some d =>
      exists t, latest_timestamp d = Some t /\ aware t
        /\ Some (utc t) = top D os
        /\ latest_urls d = list_to_set (obs_url <$> at_top D os)
  end.

End WithEnvironment.

(** *** [save_to_csv] *)

(** One data row of the interchange file. *)
Record csv_row := {
  Domain : string;
  Latest_Timestamp : string;
  Latest_Sender : string;
  Latest_URLs : string;
  Latest_Tracking_Parameters : string;
  Latest_Click_IDs : string
}.

(** [datetime.min], the sort key of an entry without a timestamp. *)
Definition datetime_min : datetime :=
  {| wall := -62135596800000000; tzinfo := None |}.

Definition sort_key (item : string * domain_data) : Z :=
  utc (default datetime_min (latest_timestamp item.2)).

(** [sorted(items, key=sort_key, reverse=True)]: stable, so items with
    equal keys keep their order. *)
Fixpoint insert_desc (x : string * domain_data)
  (l : list (string * domain_data)) : list (string * domain_data) :=
  match l with
  | [] => [x]
  | y :: l' =>
      if sort_key x <? sort_key y then y :: insert_desc x l' else x :: l
  end.

Definition sorted_desc (items : list (string * domain_data))
  : list (string * domain_data) :=
  foldr insert_desc [] items.

(** Later or equal first: the order of the rows of the interchange file. *)
Definition not_before (a b : string * domain_data) : Prop :=
  sort_key b <= sort_key a.

Section Exporter.

(** [d.isoformat()] *)
Variable isoformat : datetime -> string.
(** The order in which Python iterates over a set of strings. *)
Variable iter_set : gset string -> list string.
(** [self.domain_tracking.items()] and
    [data['latest_tracking_params'].items()]: the items of a dict, in the
    order in which its keys were inserted. *)
Variable ledger_items : gmap string domain_data -> list (string * domain_data).
Variable params_items
  : gmap string (gset string) -> list (string * gset string).

Definition export_row (h : heap_t) (item : string * domain_data)
  : option csv_row :=
  match latest_timestamp item.2 with
  | None => None
  | Some t =>
      Some
        {| Domain := item.1;
           Latest_Timestamp := isoformat t;
           Latest_Sender := latest_source_email item.2;
           Latest_URLs := Py.join "; " (iter_set (latest_urls item.2));
           Latest_Tracking_Parameters :=
             Py.join "; "
               (flat_map
                  (fun kp : string * gset string =>
                     (fun v => kp.1 +:+ "=" +:+ v) <$> iter_set kp.2)
                  (params_items (latest_tracking_params item.2)));
           Latest_Click_IDs :=
             Py.join "; " (iter_set (deref h (latest_click_ids item.2))) |}
  end.

(** The data rows [save_to_csv] writes after the header. *)
Definition save_to_csv (st : state) : list csv_row :=
  omap (export_row (heap st))
    (sorted_desc (ledger_items (domain_tracking st))).

End Exporter.

(** *** Sample data *)

Definition sample_time : datetime :=
  {| wall := 1700000000000000; tzinfo := Some 0 |}.

Definition sample_first : observation :=
  {| obs_domain := "a.com"; obs_url := "http://a.com/x?utm_source=news";
     obs_tracking_params := {["utm_source" := "news"]};
     obs_timestamp := sample_time;
     obs_sender := "news@a.com"; obs_click_ids := 0%nat |}.

(** An observation one hour older than [sample_first]; its [datetime] is
    naive and read in a zone one hour east of UTC. *)
Definition sample_older : observation :=
  {| obs_domain := "a.com"; obs_url := "http://a.com/y";
     obs_tracking_params := ∅;
     obs_timestamp := {| wall := 1700000000000000; tzinfo := None |};
     obs_sender := "deals@a.com"; obs_click_ids := 1%nat |}.

Definition sample_zone : Z := 3600000000.

Definition sample_ledger : state := reconcile sample_zone init sample_first.

(** A message body that begins with the URL [http://x.io/a]; the word
    [sale] stands 90 characters after the end of the URL. *)
Definition sample_body : string :=
  "http://x.io/a" +:+ String.concat "" (replicate 90 " ") +:+ "sale".

(** What a ledger entry holds, with the click-id set read from the heap. *)
Record record_view := {
  view_timestamp : option datetime;
  view_sender : string;
  view_urls : gset string;
  view_tracking_params : gmap string (gset string);
  view_click_ids : gset string
}.

Definition view (st : state) (domain : string) : option record_view :=
  (fun d =>
     {| view_timestamp := latest_timestamp d;
        view_sender := latest_source_email d;
        view_urls := latest_urls d;
        view_tracking_params := latest_tracking_params d;
        view_click_ids := deref (heap st) (latest_click_ids d) |})
  <$> domain_tracking st !! domain.

End Scanner.

(* ===================================================================== *)
(** ** link_clicker.py: [LinkInteractor] *)
(* ===================================================================== *)

Module Visitor.

Local Open Scope nat_scope.

Inductive status := successful | failed | skipped.

(** One row of [self.visited_domains]. *)
Record visit_row := {
  domain : string;
  timestamp : string;
  outcome : status;
  visited_at : string
}.

(** The Visit State Store in memory: the rows of the data frame, in order. *)
Abbreviation store := (list visit_row).

(** [domain in self.visited_domains['domain'].values] *)
Definition domain_visited (visited : store) (d : string) : bool :=
  existsb (fun r => String.eqb d (domain r)) visited.

Definition get_domain (url : string) : string :=
  Py.lower (UrlParse.netloc (UrlParse.urlparse url)).

Definition skip_extensions : list string :=
  [".png"; ".jpg"; ".gif"; ".ico"; ".svg"; ".css"; ".js"].

Definition skip_keywords : list string :=
  ["unsubscribe"; "track."; "email."; "click."; "links.";
   "notification."; "redirect."; "mail."; "news."; "link.";
   "analytics."; "pixel."; "beacon."; "open."; "image."].

Definition should_skip_url (url : string) : bool :=
  let parsed := UrlParse.urlparse (Py.lower url) in
  let path_lower := Py.lower (UrlParse.path parsed) in
  Py.endswith_any url skip_extensions
  || existsb (fun kw => Py.contains kw (UrlParse.netloc parsed)) skip_keywords
  || Py.contains "unsub" path_lower
  || Py.contains "track" path_lower
  || Py.contains "proc.php" path_lower
  || Py.contains "click" path_lower
  || Py.contains "open" path_lower
  || Py.contains "pixel" path_lower
  || Py.contains "beacon" path_lower
  || Py.contains "/e/" path_lower
  || Py.contains "/o/" path_lower
  || Py.contains "ls/click" path_lower.

(** *** Loading the interchange file (lines 104-118) *)

(** The two columns [run] reads; a missing cell ([NaN]) is [None]. *)
Record input_row := {
  Latest_URLs : option string;
  Latest_Timestamp : string
}.

(** The loop state: [domains_seen] and [urls_data]. *)
Definition selection : Type := gset string * list (string * string).

Definition select_url (visited : store) (ts : string) (acc : selection)
  (piece : string) : selection :=
  let url := Py.strip piece in
  if Py.startswith url "http" then
    let d := get_domain url in
    if negb (bool_decide (d ∈ acc.1)) && negb (domain_visited visited d)
    then ({[d]} ∪ acc.1, acc.2 ++ [(url, ts)])
    else acc
  else acc.

Definition load_row (visited : store) (acc : selection) (row : input_row)
  : selection :=
  match Latest_URLs row with
  | None => acc
  | Some cell =>
      foldl (select_url visited (Latest_Timestamp row)) acc
        (Py.split cell ";")
  end.

Definition load (visited : store) (df : list input_row)
  : list (string * string) :=
  (foldl (load_row visited) (∅, []) df).2.

(** *** [visit_url] as a coroutine *)

(** Where a [visit_url] coroutine stands: not yet started, suspended at one
    of its three [await]s (holding its arguments and [visited_at]; its
    [domain] is [get_domain url]), or returned. *)
Inductive task :=
| Created (url ts : string) (page : nat)
| AwaitGoto (url ts at_ : string) (page : nat)
| AwaitEvaluate (url ts at_ : string) (page : nat)
| AwaitSleep (url ts at_ : string) (page : nat)
| Returned.

Inductive event :=
| EvGather (i : nat) (tasks : list (string * string * nat))
| EvGoto (url : string) (page : nat)
| EvAppend (row : visit_row)
| EvReturn (url : string) (page : nat)
| EvDelay.

Definition row_of (dom ts : string) (s : status) (at_ : string) : visit_row :=
  {| domain := dom; timestamp := ts; outcome := s; visited_at := at_ |}.

(** Lines 67-81: from the call to the first [await].  [at_] is the clock
    reading of line 68. *)
Inductive start_step (visited : store) (url ts : string) (page : nat)
  : list event -> store -> task -> Prop :=
| start_skip at_ :
    should_skip_url url = true ->
    start_step visited url ts page
      [EvAppend (row_of (get_domain url) ts skipped at_); EvReturn url page]
      (visited ++ [row_of (get_domain url) ts skipped at_]) Returned
| start_seen :
    should_skip_url url = false ->
    domain_visited visited (get_domain url) = true ->
    start_step visited url ts page [EvReturn url page] visited Returned
| start_goto at_ :
    should_skip_url url = false ->
    domain_visited visited (get_domain url) = false ->
    start_step visited url ts page [EvGoto url page] visited
      (AwaitGoto url ts at_ page).

(** Lines 81-101: what a suspended coroutine does when it is resumed.  The
    browser decides between success and failure. *)
Inductive resume_step (visited : store)
  : task -> list event -> store -> task -> Prop :=
| goto_failed url ts at_ page :
    resume_step visited (AwaitGoto url ts at_ page)
      [EvAppend (row_of (get_domain url) ts failed at_); EvReturn url page]
      (visited ++ [row_of (get_domain url) ts failed at_]) Returned
| goto_ok url ts at_ page :
    resume_step visited (AwaitGoto url ts at_ page)
      [] visited (AwaitEvaluate url ts at_ page)
| evaluate_failed url ts at_ page :
    resume_step visited (AwaitEvaluate url ts at_ page)
      [EvAppend (row_of (get_domain url) ts failed at_); EvReturn url page]
      (visited ++ [row_of (get_domain url) ts failed at_]) Returned
| evaluate_ok url ts at_ page :
    resume_step visited (AwaitEvaluate url ts at_ page)
      [] visited (AwaitSleep url ts at_ page)
| sleep_done url ts at_ page :
    resume_step visited (AwaitSleep url ts at_ page)
      [EvAppend (row_of (get_domain url) ts successful at_); EvReturn url page]
      (visited ++ [row_of (get_domain url) ts successful at_]) Returned.

Definition started (t : task) : Prop :=
  match t with Created _ _ _ => False | _ => True end.

(** One step of the event loop under [asyncio.gather]: the tasks are
    started in the order of the list, and a suspended one is resumed only
    when all have been started. *)
Inductive pool_step (visited : store)
  : list task -> list event -> store -> list task -> Prop :=
| pool_start pre post url ts page evs visited' t' :
    Forall started pre ->
    start_step visited url ts page evs visited' t' ->
    pool_step visited (pre ++ Created url ts page :: post)
      evs visited' (pre ++ t' :: post)
| pool_resume pre post t evs visited' t' :
    Forall started (pre ++ t :: post) ->
    resume_step visited t evs visited' t' ->
    pool_step visited (pre ++ t :: post) evs visited' (pre ++ t' :: post).

(** [await asyncio.gather] on the tasks: steps until every task has returned. *)
Inductive gather : store -> list task -> list event -> store -> Prop :=
| gather_done visited pool :
    Forall (fun t => t = Returned) pool ->
    gather visited pool [] visited
| gather_step visited pool evs visited1 pool1 tr visited2 :
    pool_step visited pool evs visited1 pool1 ->
    gather visited1 pool1 tr visited2 ->
    gather visited pool (evs ++ tr) visited2.

(** Lines 135-137: the slice and its assignment to pages. *)
Definition batch_at (W : nat) (urls_data : list (string * string)) (i : nat)
  : list (string * string * nat) :=
  imap (fun j (p : string * string) => (p.1, p.2, j mod W))
    (take W (drop i urls_data)).

Definition new_task (a : string * string * nat) : task :=
  Created a.1.1 a.1.2 a.2.

(** Lines 134-143: [for i in range(0, len(urls_data), batch_size)]. *)
Inductive run_from (W : nat) (urls_data : list (string * string))
  : nat -> store -> list event -> store -> Prop :=
| run_end i visited :
    length urls_data <= i ->
    run_from W urls_data i visited [] visited
| run_batch i visited tr1 visited1 tr2 visited2 :
    i < length urls_data ->
    gather visited (new_task <$> batch_at W urls_data i) tr1 visited1 ->
    run_from W urls_data (i + W) visited1 tr2 visited2 ->
    run_from W urls_data i visited
      (EvGather i (batch_at W urls_data i) :: tr1
       ++ (if i + W <? length urls_data then [EvDelay] else []) ++ tr2)
      visited2.

(** [run(csv_path)] with [max_concurrent = W], the store loaded at start
    (its rows with a [str] domain, [load_visited_domains] below) and the
    rows of the interchange file. *)
Definition run (W : nat) (visited : store) (df : list input_row)
  (tr : list event) (visited' : store) : Prop :=
  run_from W (load visited df) 0 visited tr visited'.

(** What the loop of lines 108-118 keeps true of [domains_seen] and
    [urls_data]: one URL per domain, [domains_seen] is the set of their
    domains, and none of them is in the store. *)
Definition selection_ok (visited : store) (acc : selection) : Prop :=
  NoDup ((fun p : string * string => get_domain p.1) <$> acc.2)
  /\ (forall d, d ∈ acc.1
                <-> d ∈ (fun p : string * string => get_domain p.1) <$> acc.2)
  /\ Forall (fun p : string * string =>
               domain_visited visited (get_domain p.1) = false) acc.2.

(** *** Reading a trace *)

Definition task_url (t : task) : string :=
  match t with
  | Created url _ _ | AwaitGoto url _ _ _ | AwaitEvaluate url _ _ _
  | AwaitSleep url _ _ _ => url
  | Returned => EmptyString
  end.

Definition task_ts (t : task) : string :=
  match t with
  | Created _ ts _ | AwaitGoto _ ts _ _ | AwaitEvaluate _ ts _ _
  | AwaitSleep _ ts _ _ => ts
  | Returned => EmptyString
  end.

Definition task_page (t : task) : nat :=
  match t with
  | Created _ _ page | AwaitGoto _ _ _ page | AwaitEvaluate _ _ _ page
  | AwaitSleep _ _ _ page => page
  | Returned => 0
  end.

Definition is_gather (e : event) : bool :=
  match e with EvGather _ _ => true | _ => false end.

(** The (url, timestamp, page) triples handed to [visit_url], in order. *)
Definition dispatched (tr : list event) : list (string * string * nat) :=
  flat_map (fun e => match e with EvGather _ b => b | _ => [] end) tr.

(** The rows appended to the store, in order. *)
Definition appended (tr : list event) : list visit_row :=
  flat_map (fun e => match e with EvAppend r => [r] | _ => [] end) tr.

(** [seg] is the whole trace of one batch [b]: it starts no other batch,
    it takes the store from [visited] to [visited'], every coroutine of the
    batch returns in it, and at its end the store has a row for the domain
    of every item. *)
Definition batch_complete (visited : store) (b : list (string * string * nat))
  (seg : list event) (visited' : store) : Prop :=
  Forall (fun e => is_gather e = false) seg
  /\ visited' = visited ++ appended seg
  /\ forall u t p, (u, t, p) ∈ b ->
       EvReturn u p ∈ seg /\ domain_visited visited' (get_domain u) = true.

(** A step either lets the coroutine return, with its domain in the store,
    or leaves it suspended on the same URL, timestamp and page. *)
Definition progress (url ts : string) (page : nat) (evs : list event)
  (visited' : store) (t' : task) : Prop :=
  (t' = Returned /\ EvReturn url page ∈ evs
   /\ domain_visited visited' (get_domain url) = true)
  \/ (t' <> Returned /\ task_url t' = url /\ task_ts t' = ts
      /\ task_page t' = page).

(** The rows a step appends are rows of its coroutine. *)
Definition own_appends (url ts : string) (evs : list event) : Prop :=
  forall r, EvAppend r ∈ evs ->
    exists s at_, r = row_of (get_domain url) ts s at_.

(** A task that has been started and has not moved since: it returned at
    once or waits for [page.goto]. *)
Definition fresh_started (t : task) : Prop :=
  t = Returned \/ exists url ts at_ page, t = AwaitGoto url ts at_ page.

(** The store has a [skipped] row for the domain [d]. *)
Definition skipped_recorded (visited : store) (d : string) : bool :=
  existsb
    (fun r => String.eqb d (domain r)
              && match outcome r with skipped => true | _ => false end)
    visited.

(** Every item of the batch [b] has a row of its own appended in [seg]:
    its domain, its timestamp, and the outcome of its visit. *)
Definition own_rows (b : list (string * string * nat)) (seg : list event)
  : Prop :=
  forall u t p, (u, t, p) ∈ b ->
    exists s at_, EvAppend (row_of (get_domain u) t s at_) ∈ seg.

(** What the loader hands to the loop: one pair per domain, and no domain
    that the store already has. *)
Definition admitted (visited : store) (urls_data : list (string * string))
  : Prop :=
  NoDup ((fun p : string * string => get_domain p.1) <$> urls_data)
  /\ Forall (fun p : string * string =>
               domain_visited visited (get_domain p.1) = false) urls_data.

Definition is_skip_append (e : event) : bool :=
  match e with
  | EvAppend r => match outcome r with skipped => true | _ => false end
  | _ => false
  end.

(** Every [skipped] row is appended before the first navigation. *)
Fixpoint skips_precede_visits (tr : list event) : bool :=
  match tr with
  | [] => true
  | EvGoto _ _ :: tr' => forallb (fun e => negb (is_skip_append e)) tr'
  | _ :: tr' => skips_precede_visits tr'
  end.

(** *** Reading a run *)

Definition is_delay (e : event) : bool :=
  match e with EvDelay => true | _ => false end.

(** How many times a trace calls [asyncio.gather]. *)
Definition count_batches (tr : list event) : nat :=
  length (filter (fun e => is_gather e = true) tr).

(** How many times a trace sleeps between two batches (line 142). *)
Definition count_delays (tr : list event) : nat :=
  length (filter (fun e => is_delay e = true) tr).

Definition is_returned (t : task) : bool :=
  match t with Returned => true | _ => false end.

(** The coroutines of a pool that have not returned. *)
Definition pending (pool : list task) : list task :=
  filter (fun t => is_returned t = false) pool.

(** The domain and the timestamp a coroutine, a row of the store and a
    selected pair stand for. *)
Definition task_key (t : task) : string * string :=
  (get_domain (task_url t), task_ts t).

Definition row_key (r : visit_row) : string * string :=
  (domain r, timestamp r).

Definition pair_key (p : string * string) : string * string :=
  (get_domain p.1, p.2).

(** What one step appends: nothing, or the one row of its coroutine, which
    then has returned. *)
Definition step_rows (key : string * string) (evs : list event) (t' : task)
  : Prop :=
  (appended evs = []
   /\ (t' = Returned \/ (is_returned t' = false /\ task_key t' = key)))
  \/ (exists r, appended evs = [r] /\ row_key r = key /\ t' = Returned).

Definition is_created (t : task) : bool :=
  match t with Created _ _ _ => true | _ => false end.

(** A suspended coroutine is past the filter of line 70. *)
Definition passed (t : task) : Prop :=
  match t with
  | AwaitGoto url _ _ _ | AwaitEvaluate url _ _ _ | AwaitSleep url _ _ _ =>
      should_skip_url url = false
  | _ => True
  end.

(** What the status of the row [r] says about the coroutine [t] that
    writes it in the trace [tr]: a [skipped] row is written for a rejected
    URL by a coroutine that has not been started, the others for a URL that
    passed the filter and, if the coroutine is started in [tr], after its
    navigation. *)
Definition outcome_sound (r : visit_row) (t : task) (tr : list event) : Prop :=
  match outcome r with
  | skipped => should_skip_url (task_url t) = true /\ is_created t = true
  | _ => should_skip_url (task_url t) = false
         /\ (is_created t = true -> EvGoto (task_url t) (task_page t) ∈ tr)
  end.

(** The domain of a (url, timestamp) pair. *)
Definition url_domain (p : string * string) : string := get_domain p.1.

(** Lines 108-113: the (url, timestamp) pairs the loop of [run] looks at, in
    file order: the stripped pieces of every non-missing [Latest URLs] cell
    that start with [http]. *)
Definition row_candidates (row : input_row) : list (string * string) :=
  match Latest_URLs row with
  | None => []
  | Some cell =>
      (fun piece => (Py.strip piece, Latest_Timestamp row))
        <$> filter (fun piece => Py.startswith (Py.strip piece) "http" = true)
              (Py.split cell ";")
  end.

(** The candidates of all rows, in file order. *)
Definition candidates (df : list input_row) : list (string * string) :=
  flat_map row_candidates df.

(** The candidates the test of line 114 lets through, given the domains
    seen so far. *)
Fixpoint pick (visited : store) (seen : gset string)
  (l : list (string * string)) : list (string * string) :=
  match l with
  | [] => []
  | p :: l =>
      if negb (bool_decide (url_domain p ∈ seen))
         && negb (domain_visited visited (url_domain p))
      then p :: pick visited ({[url_domain p]} ∪ seen) l
      else pick visited seen l
  end.

(** The calls of [page.goto], in order: the URL and the page. *)
Definition gotos (tr : list event) : list (string * nat) :=
  flat_map (fun e => match e with EvGoto u p => [(u, p)] | _ => [] end) tr.

(** The coroutines of a pool that have not been started and whose URL
    passes the filter, each as its URL and its page. *)
Definition to_visit (pool : list task) : list (string * nat) :=
  flat_map
    (fun t =>
       match t with
       | Created u _ p => if should_skip_url u then [] else [(u, p)]
       | _ => []
       end)
    pool.

(** The items of a batch that pass the filter, each as its URL and its
    page. *)
Definition passing (b : list (string * string * nat)) : list (string * nat) :=
  (fun a : string * string * nat => (a.1.1, a.2))
    <$> filter (fun a : string * string * nat => should_skip_url a.1.1 = false)
          b.

(** A URL the interchange file can carry: it starts with [http] and has
    no whitespace and no semicolon. *)
Definition plain_url (u : string) : bool :=
  Py.startswith u "http"
  && Py.all_of (fun c => negb (Py.isspace c) && negb (Ascii.eqb c ";")) u.

(** *** The store on disk (lines 11-23) *)

(** The texts [pd.read_csv] takes for a missing value. *)
Definition na_values : list string :=
  [""; "#N/A"; "#N/A N/A"; "#NA"; "-1.#IND"; "-1.#QNAN"; "-NaN"; "-nan";
   "1.#IND"; "1.#QNAN"; "<NA>"; "N/A"; "NA"; "NULL"; "NaN"; "None"; "n/a";
   "nan"; "null"].

Definition is_na (text : string) : bool :=
  existsb (String.eqb text) na_values.

(** A row of the data frame in memory: whether its [domain] is a [str]
    object, and the row as [to_csv] writes it.  A [domain] that is not a
    [str] is [NaN], a number or a boolean. *)
Abbreviation frame := (list (bool * visit_row)).

Definition with_domain (r : visit_row) (d : string) : visit_row :=
  {| domain := d; timestamp := timestamp r; outcome := outcome r;
     visited_at := visited_at r |}.

(** [domain in self.visited_domains['domain'].values]: only a [str] is
    equal to a domain. *)
Definition str_rows (f : frame) : store :=
  snd <$> filter (fun x : bool * visit_row => x.1 = true) f.

(** [self.visited_domains.to_csv('visited_domains.csv', index=False)] *)
Definition to_csv (f : frame) : store := snd <$> f.

Section Persistence.

(** What the parser of [pd.read_csv] takes for a number and for a boolean,
    and the text [to_csv] writes for the value read from a text of a
    column that was not read as strings. *)
Variable is_numeric : string -> bool.
Variable is_boolean : string -> bool.
Variable written : list string -> string -> string.

(** The type of a column is inferred from all its values: it is read as
    strings unless every value that is not missing is a number, or every
    such value is a boolean. *)
Definition column_of_str (texts : list string) : bool :=
  negb (forallb (fun t => is_na t || is_numeric t) texts)
  && negb (forallb (fun t => is_na t || is_boolean t) texts).

Definition read_cell (texts : list string) (r : visit_row)
  : bool * visit_row :=
  if is_na (domain r) then (false, with_domain r EmptyString)
  else if column_of_str texts then (true, r)
  else (false, with_domain r (written texts (domain r))).

(** [pd.read_csv('visited_domains.csv')] on the rows of the file; the
    other columns are taken as they stand.  A file that does not exist
    leaves the empty frame of line 13, as a file without rows does. *)
Definition read_csv (file : store) : frame :=
  read_cell (domain <$> file) <$> file.

(** [_load_visited_domains], as the tests of lines 75 and 117 see the
    frame: its rows with a [str] domain. *)
Definition load_visited_domains (file : store) : store :=
  str_rows (read_csv file).

(** One execution of the program: [LinkInteractor(W)] reads the store
    file, [run(csv_path)] works on the frame, and every append writes the
    whole frame back (lines 73, 95 and 101), so the file ends as the frame
    with the appended rows. *)
Definition session (W : nat) (file : store) (df : list input_row)
  (tr : list event) (file' : store) : Prop :=
  exists visited',
    run W (load_visited_domains file) df tr visited'
    /\ file' = to_csv (read_csv file
                        ++ ((fun r => (true, r)) <$> appended tr)).

(** Every row of the file is read back with the domain it was written
    with. *)
Definition reads_back (file : store) : bool :=
  forallb
    (fun r => column_of_str (domain <$> file) && negb (is_na (domain r)))
    file.

End Persistence.

(** *** Sample data *)

(** An interchange file with one row and three URLs of two domains; the
    second and the third URL are static assets. *)
Definition sample_file : list input_row :=
  [{| Latest_URLs :=
        Some "http://a.com/; http://a.com/y.png; http://b.com/x.png";
      Latest_Timestamp := "2023-11-14T22:13:20+00:00" |}].

Definition sample_clock : string := "2023-11-15 09:00:00".

(** A run over [sample_file] on one page, with an empty store, in which the
    navigation to the first URL fails. *)
Definition sample_trace : list event :=
  [EvGather 0 [("http://a.com/", "2023-11-14T22:13:20+00:00", 0)];
   EvGoto "http://a.com/" 0;
   EvAppend (row_of "a.com" "2023-11-14T22:13:20+00:00" failed sample_clock);
   EvReturn "http://a.com/" 0;
   EvDelay;
   EvGather 1 [("http://b.com/x.png", "2023-11-14T22:13:20+00:00", 0)];
   EvAppend (row_of "b.com" "2023-11-14T22:13:20+00:00" skipped sample_clock);
   EvReturn "http://b.com/x.png" 0].

Definition sample_store : store :=
  [row_of "a.com" "2023-11-14T22:13:20+00:00" failed sample_clock;
   row_of "b.com" "2023-11-14T22:13:20+00:00" skipped sample_clock].

(** An instance of the parser's tests that is enough for the samples:
    digits are numbers, and numbers are written as they stood. *)
Definition sample_is_numeric (text : string) : bool :=
  negb (String.eqb text EmptyString) && Py.all_of UrlParse.is_digit text.

Definition sample_is_boolean (text : string) : bool :=
  existsb (String.eqb text)
    ["True"; "TRUE"; "true"; "False"; "FALSE"; "false"].

Definition sample_written (texts : list string) (text : string) : string :=
  text.

(** A store file whose only row was left by a failed visit of
    [http://null/x], and an interchange file with that URL. *)
Definition sample_null_store : store :=
  [row_of "null" "2023-11-14T22:13:20+00:00" failed sample_clock].

Definition sample_null_file : list input_row :=
  [{| Latest_URLs := Some "http://null/x";
      Latest_Timestamp := "2023-11-14T22:13:20+00:00" |}].

Definition sample_null_trace : list event :=
  [EvGather 0 [("http://null/x", "2023-11-14T22:13:20+00:00", 0)];
   EvGoto "http://null/x" 0;
   EvAppend (row_of "null" "2023-11-14T22:13:20+00:00" failed sample_clock);
   EvReturn "http://null/x" 0].

End Visitor.

(* ===================================================================== *)
(** * Properties *)
(* ===================================================================== *)

(** ** Python string methods *)

Module PyFacts.

Lemma startswith_nil s : Py.startswith s EmptyString = true.
Proof. by destruct s. Qed.

Lemma startswith_spec s p :
  Py.startswith s p = true <-> exists post, s = p +:+ post.
Proof.
  revert s. induction p as [|a p IH]; intros s.
  - rewrite startswith_nil. split; [intros _; by exists s | done].
  - destruct s as [|b s]; simpl.
    + split; [done | intros [post H]; discriminate].
    + rewrite andb_true_iff, Ascii.eqb_eq, IH. split.
      * intros [-> [post ->]]. by exists post.
      * intros [post H]. injection H as -> ->. eauto.
Qed.

Lemma occurs_at_0 sub s : Py.occurs_at sub s 0 <-> Py.startswith s sub = true.
Proof.
  rewrite startswith_spec. split.
  - intros (pre & post & -> & Hlen). destruct pre; [|done]. by exists post.
  - intros [post ->]. by exists EmptyString, post.
Qed.

Lemma occurs_at_S sub c s i :
  Py.occurs_at sub (String c s) (S i) <-> Py.occurs_at sub s i.
Proof.
  split.
  - intros (pre & post & Heq & Hlen). destruct pre as [|a pre]; [done|].
    simpl in *. injection Heq as -> ->. exists pre, post. split; [done|lia].
  - intros (pre & post & -> & Hlen). exists (String c pre), post.
    split; [done | simpl; lia].
Qed.

Lemma occurs_at_empty sub i : ~ Py.occurs_at sub EmptyString (S i).
Proof. intros (pre & post & Heq & Hlen). destruct pre; discriminate. Qed.

Lemma contains_spec sub s :
  Py.contains sub s = true <-> exists i, Py.occurs_at sub s i.
Proof.
  induction s as [|c s IH]; cbn [Py.contains].
  - rewrite orb_false_r, <- occurs_at_0. split; [eauto|].
    intros [[|i] H]; [done | by apply occurs_at_empty in H].
  - rewrite orb_true_iff, <- occurs_at_0, IH. split.
    + intros [H | [i H]]; [eauto | exists (S i); by apply occurs_at_S].
    + intros [[|i] H]; [by left | right; exists i; by apply occurs_at_S in H].
Qed.

Lemma find_lower_bound s sub : -1 <= Py.find s sub.
Proof.
  induction s as [|c s IH]; cbn [Py.find]; destruct (Py.startswith _ sub);
    try lia.
  destruct (Z.eqb_spec (Py.find s sub) (-1)); lia.
Qed.

Lemma find_none s sub :
  Py.find s sub = -1 <-> Py.contains sub s = false.
Proof.
  induction s as [|c s IH]; cbn [Py.find Py.contains].
  - destruct (Py.startswith EmptyString sub); simpl; split; done.
  - destruct (Py.startswith (String c s) sub); simpl; [split; done|].
    pose proof (find_lower_bound s sub).
    destruct (Z.eqb_spec (Py.find s sub) (-1)) as [E|E].
    + by rewrite <- IH.
    + rewrite <- IH. split; lia.
Qed.

Lemma find_occurrence s sub i :
  Py.find s sub = Z.of_nat i -> Py.first_occurrence sub s i.
Proof.
  revert i. induction s as [|c s IH]; intros i; cbn [Py.find].
  - destruct (Py.startswith EmptyString sub) eqn:E; [|lia].
    intros H. assert (i = 0%nat) as -> by lia.
    split; [by apply occurs_at_0 | lia].
  - destruct (Py.startswith (String c s) sub) eqn:E.
    + intros H. assert (i = 0%nat) as -> by lia.
      split; [by apply occurs_at_0 | lia].
    + pose proof (find_lower_bound s sub).
      destruct (Z.eqb_spec (Py.find s sub) (-1)) as [E1|E1]; [lia|].
      intros H1. destruct i as [|i]; [lia|].
      destruct (IH i) as [Hocc Hmin]; [lia|]. split.
      * by apply occurs_at_S.
      * intros [|j] Hj Hc.
        -- apply occurs_at_0 in Hc. congruence.
        -- apply occurs_at_S in Hc. apply (Hmin j); [lia | done].
Qed.

Lemma first_occurrence_unique sub s i j :
  Py.first_occurrence sub s i -> Py.first_occurrence sub s j -> i = j.
Proof.
  intros [Hi Hmi] [Hj Hmj].
  destruct (Nat.lt_trichotomy i j) as [H | [H | H]]; [|done|].
  - by destruct (Hmj i H).
  - by destruct (Hmi j H).
Qed.

Lemma find_first s sub i :
  Py.find s sub = Z.of_nat i <-> Py.first_occurrence sub s i.
Proof.
  split; [apply find_occurrence|]. intros Hf.
  pose proof (find_lower_bound s sub) as Hlb.
  destruct (Z.eq_dec (Py.find s sub) (-1)) as [E|E].
  - apply find_none in E.
    assert (Py.contains sub s = true) as E'; [|congruence].
    apply contains_spec. exists i. apply Hf.
  - assert (Py.find s sub = Z.of_nat (Z.to_nat (Py.find s sub))) as Hk by lia.
    apply find_occurrence in Hk.
    rewrite <- (first_occurrence_unique _ _ _ _ Hk Hf). lia.
Qed.

(** *** The model on concrete strings *)

Example split_example : Py.split "u1; u2;" ";" = ["u1"; " u2"; ""].
Proof. reflexivity. Qed.

Example strip_example : Py.strip "  http://a.com/ " = "http://a.com/".
Proof. reflexivity. Qed.

Example find_example : Py.find "see http://x.io now" "http" = 4.
Proof. reflexivity. Qed.

Example slice_example : Py.slice "0123456789" (Z.max 0 (2 - 100)) (Z.min 10 (2 + 5)) = "0123456".
Proof. reflexivity. Qed.

Example endswith_example :
  Py.endswith "http://cdn.example.com/a.png" ".png" = true
  /\ Py.endswith "http://cdn.example.com/a.png?x=1" ".png" = false.
Proof. split; reflexivity. Qed.

Example urlparse_example1 :
  UrlParse.urlparse "HTTP://CDN.Example.com:80/a/b.png;v=1?x=1&y=2#top"
  = {| UrlParse.scheme := "http"; UrlParse.netloc := "CDN.Example.com:80";
       UrlParse.path := "/a/b.png"; UrlParse.params := "v=1";
       UrlParse.query := "x=1&y=2"; UrlParse.fragment := "top" |}.
Proof. vm_compute. reflexivity. Qed.

Example urlparse_example2 :
  UrlParse.urlparse "mailto:someone@example.com"
  = {| UrlParse.scheme := "mailto"; UrlParse.netloc := "";
       UrlParse.path := "someone@example.com"; UrlParse.params := "";
       UrlParse.query := ""; UrlParse.fragment := "" |}.
Proof. vm_compute. reflexivity. Qed.

Example urlparse_example3 :
  UrlParse.urlparse "https://a.com?q=1/2"
  = {| UrlParse.scheme := "https"; UrlParse.netloc := "a.com";
       UrlParse.path := ""; UrlParse.params := "";
       UrlParse.query := "q=1/2"; UrlParse.fragment := "" |}.
Proof. vm_compute. reflexivity. Qed.

End PyFacts.

(** ** The scanner *)

Module ScannerFacts.

Import Scanner PyFacts.

Lemma any_indicator_spec text :
  any_indicator text = true <-> has_keyword text.
Proof.
  unfold any_indicator, has_keyword. rewrite existsb_exists. split.
  - intros (kw & Hin & Hc). apply contains_spec in Hc as [i Hi].
    exists kw, i. split; [by apply list_elem_of_In | done].
  - intros (kw & i & Hin & Hocc). exists kw.
    split; [by apply list_elem_of_In | apply contains_spec; eauto].
Qed.



Section LedgerFacts.
Variable local_tz : Z.

Abbreviation update := (update_domain_tracking local_tz).
Abbreviation norm := (normalize local_tz).
Abbreviation replaced := (Scanner.replaced local_tz).
Abbreviation merged := (Scanner.merged local_tz).
Abbreviation settled := (Scanner.settled local_tz).
Abbreviation mine := Scanner.mine.
Abbreviation top := (Scanner.top local_tz).
Abbreviation at_top := (Scanner.at_top local_tz).
Abbreviation tracks := (Scanner.tracks local_tz).

Lemma normalize_aware d : aware (norm d).
Proof. unfold aware, normalize. destruct (tzinfo d) eqn:E; simpl; rewrite ?E; eauto. Qed.

Lemma normalize_id d : aware d -> norm d = d.
Proof. intros [z Hz]. unfold normalize. by rewrite Hz. Qed.

Lemma normalize_idem d : norm (norm d) = norm d.
Proof. apply normalize_id, normalize_aware. Qed.

Lemma update_fresh st domain url tp ts sender cl :
  domain_tracking st !! domain = None ->
  update st domain url tp ts sender cl
  = {| domain_tracking :=
         <[domain := replaced ∅ url tp ts sender cl]> (domain_tracking st);
       heap := <[fresh (dom (heap st)) := ∅]> (heap st) |}.
Proof.
  intros H. unfold update_domain_tracking, getitem, alloc. rewrite H. simpl.
  by rewrite insert_insert_eq.
Qed.

Lemma update_newer st domain url tp ts sender cl d t :
  domain_tracking st !! domain = Some d ->
  latest_timestamp d = Some t ->
  utc (norm t) < utc (norm ts) ->
  update st domain url tp ts sender cl
  = {| domain_tracking :=
         <[domain := replaced (latest_campaign_ids d) url tp ts sender cl]>
           (domain_tracking st);
       heap := heap st |}.
Proof.
  intros H Ht Hlt. unfold update_domain_tracking, getitem. rewrite H, Ht. simpl.
  destruct (Z.ltb_spec (utc (norm t)) (utc (norm ts))); [done | lia].
Qed.

Lemma update_tie st domain url tp ts sender cl d t :
  domain_tracking st !! domain = Some d ->
  latest_timestamp d = Some t ->
  utc (norm ts) = utc (norm t) ->
  update st domain url tp ts sender cl
  = {| domain_tracking := <[domain := merged d url tp]> (domain_tracking st);
       heap :=
         <[latest_click_ids d :=
             deref (heap st) (latest_click_ids d) ∪ deref (heap st) cl]>
           (heap st) |}.
Proof.
  intros H Ht Heq. unfold update_domain_tracking, getitem, merged.
  rewrite H, Ht. simpl.
  destruct (Z.ltb_spec (utc (norm t)) (utc (norm ts))); [lia|].
  destruct (Z.eqb_spec (utc (norm ts)) (utc (norm t))); [done | lia].
Qed.

Lemma update_older st domain url tp ts sender cl d t :
  domain_tracking st !! domain = Some d ->
  latest_timestamp d = Some t ->
  aware t ->
  utc (norm ts) < utc t ->
  update st domain url tp ts sender cl = st.
Proof.
  intros H Ht Ha Hlt. unfold update_domain_tracking, getitem.
  rewrite H, Ht. simpl. rewrite (normalize_id t Ha).
  destruct (Z.ltb_spec (utc t) (utc (norm ts))); [lia|].
  destruct (Z.eqb_spec (utc (norm ts)) (utc t)); [lia|].
  destruct st as [m h]. simpl in *. f_equal.
  apply insert_id. rewrite H. f_equal. destruct d; simpl in *. by rewrite Ht.
Qed.

Lemma update_stale st domain url tp ts sender cl d t :
  domain_tracking st !! domain = Some d ->
  latest_timestamp d = Some t ->
  utc (norm ts) < utc (norm t) ->
  update st domain url tp ts sender cl
  = {| domain_tracking := <[domain := settled d]> (domain_tracking st);
       heap := heap st |}.
Proof.
  intros H Ht Hlt. unfold update_domain_tracking, getitem, settled.
  rewrite H, Ht. simpl.
  destruct (Z.ltb_spec (utc (norm t)) (utc (norm ts))); [lia|].
  destruct (Z.eqb_spec (utc (norm ts)) (utc (norm t))); [lia | done].
Qed.

Lemma update_unset st domain url tp ts sender cl d :
  domain_tracking st !! domain = Some d ->
  latest_timestamp d = None ->
  update st domain url tp ts sender cl
  = {| domain_tracking :=
         <[domain := replaced (latest_campaign_ids d) url tp ts sender cl]>
           (domain_tracking st);
       heap := heap st |}.
Proof.
  intros H Ht. unfold update_domain_tracking, getitem. by rewrite H, Ht.
Qed.

Lemma update_other st domain url tp ts sender cl D :
  domain <> D ->
  domain_tracking (update st domain url tp ts sender cl) !! D
  = domain_tracking st !! D.
Proof.
  intros Hne. unfold update_domain_tracking, getitem, alloc.
  destruct (domain_tracking st !! domain) as [d|] eqn:E; simpl.
  - repeat case_match; simpl; by rewrite lookup_insert_ne.
  - by rewrite !lookup_insert_ne.
Qed.

Lemma init_ok : ledger_ok init.
Proof. intros D d H. simpl in H. by rewrite lookup_empty in H. Qed.

Lemma update_ok st domain url tp ts sender cl :
  ledger_ok st -> ledger_ok (update st domain url tp ts sender cl).
Proof.
  intros Hok D d'. destruct (decide (domain = D)) as [<-|Hne];
    [|rewrite update_other by done; apply Hok].
  destruct (domain_tracking st !! domain) as [d|] eqn:E.
  - destruct (Hok _ _ E) as (t & Ht & Ha).
    destruct (Z.lt_trichotomy (utc (norm ts)) (utc (norm t))) as [H | [H | H]].
    + rewrite (normalize_id t Ha) in H.
      rewrite (update_older _ _ _ _ _ _ _ _ _ E Ht Ha H). rewrite E.
      intros [= <-]. eauto.
    + rewrite (update_tie _ _ _ _ _ _ _ _ _ E Ht H). simpl.
      rewrite lookup_insert_eq. intros [= <-]. simpl. rewrite Ht. simpl.
      eexists; split; [done | apply normalize_aware].
    + rewrite (update_newer _ _ _ _ _ _ _ _ _ E Ht H). simpl.
      rewrite lookup_insert_eq. intros [= <-]. simpl.
      eexists; split; [done | apply normalize_aware].
  - rewrite (update_fresh _ _ _ _ _ _ _ E). simpl.
    rewrite lookup_insert_eq. intros [= <-]. simpl.
    eexists; split; [done | apply normalize_aware].
Qed.

Lemma reconcile_all_snoc st os o :
  reconcile_all local_tz st (os ++ [o])
  = reconcile local_tz (reconcile_all local_tz st os) o.
Proof. unfold reconcile_all. by rewrite foldl_snoc. Qed.

Lemma reconcile_all_ok st os :
  ledger_ok st -> ledger_ok (reconcile_all local_tz st os).
Proof.
  intros Hok. induction os as [|o os IH] using rev_ind; [done|].
  rewrite reconcile_all_snoc. by apply update_ok.
Qed.

Lemma maximum_snoc l x :
  maximum (l ++ [x]) = Some (from_option (fun m => Z.max m x) x (maximum l)).
Proof.
  unfold maximum. rewrite foldr_app. simpl.
  induction l as [|a l IH]; simpl; [done|].
  rewrite IH. simpl. f_equal.
  destruct (foldr _ None l); simpl; lia.
Qed.

Lemma maximum_ub l m x : maximum l = Some m -> x ∈ l -> x <= m.
Proof.
  revert m. induction l as [|a l IH]; intros m Hm Hx; [by inversion Hx|].
  simpl in Hm. injection Hm as <-.
  destruct (maximum l) as [m'|] eqn:E; simpl.
  - apply elem_of_cons in Hx as [-> | Hx]; [lia|].
    specialize (IH m' eq_refl Hx). lia.
  - apply elem_of_cons in Hx as [-> | Hx]; [lia|].
    destruct l; [by inversion Hx | discriminate].
Qed.

Lemma filter_none {A} (P : A -> Prop) `{!forall x, Decision (P x)} (l : list A) :
  (forall x, x ∈ l -> ~ P x) -> filter P l = [].
Proof.
  induction l as [|a l IH]; intros Hall; [done|].
  rewrite filter_cons_False by (apply Hall; left).
  apply IH. intros x Hx. apply Hall. by right.
Qed.

Lemma mine_snoc_other D os o :
  obs_domain o <> D -> mine D (os ++ [o]) = mine D os.
Proof.
  intros H. unfold mine. rewrite filter_app, (filter_cons_False _ o) by done.
  by rewrite filter_nil, app_nil_r.
Qed.

Lemma mine_snoc_same os o :
  mine (obs_domain o) (os ++ [o]) = mine (obs_domain o) os ++ [o].
Proof.
  unfold mine. rewrite filter_app, (filter_cons_True _ o) by done.
  by rewrite filter_nil.
Qed.

Lemma top_snoc_same os o :
  top (obs_domain o) (os ++ [o])
  = Some (from_option (fun m => Z.max m (instant local_tz o))
            (instant local_tz o) (top (obs_domain o) os)).
Proof. unfold top. rewrite mine_snoc_same, fmap_app. apply maximum_snoc. Qed.

Lemma at_top_snoc os o m :
  top (obs_domain o) os = Some m ->
  at_top (obs_domain o) (os ++ [o])
  = if decide (m < instant local_tz o) then [o]
    else if decide (m = instant local_tz o)
         then at_top (obs_domain o) os ++ [o]
         else at_top (obs_domain o) os.
Proof.
  intros Hm. unfold at_top. rewrite top_snoc_same, mine_snoc_same, Hm. simpl.
  rewrite filter_app.
  assert (forall o', o' ∈ mine (obs_domain o) os -> instant local_tz o' <= m)
    as Hub.
  { intros o' Ho'. apply (maximum_ub (instant local_tz <$> mine (obs_domain o) os));
      [done | by apply list_elem_of_fmap_2]. }
  destruct (decide (m < instant local_tz o)) as [H|H].
  - replace (Z.max m (instant local_tz o)) with (instant local_tz o) by lia.
    rewrite (filter_cons_True _ o), filter_nil by done.
    rewrite filter_none; [done|].
    intros o' Ho' [= Hc]. specialize (Hub _ Ho'). lia.
  - replace (Z.max m (instant local_tz o)) with m by lia.
    destruct (decide (m = instant local_tz o)) as [H'|H'].
    + rewrite (filter_cons_True _ o), filter_nil by (f_equal; lia). done.
    + rewrite (filter_cons_False _ o), filter_nil, app_nil_r; [done|].
      intros [= Hc]. lia.
Qed.

Lemma reconcile_tracks st D os o :
  tracks st D os -> tracks (reconcile local_tz st o) D (os ++ [o]).
Proof.
  unfold tracks, reconcile.
  destruct (decide (obs_domain o = D)) as [HD | HD].
  2: { rewrite update_other by done. unfold at_top, top.
       by rewrite !mine_snoc_other. }
  subst D.
  destruct (domain_tracking st !! obs_domain o) as [d|] eqn:E.
  - intros (t & Ht & Ha & Htop & Hurls). symmetry in Htop.
    rewrite (at_top_snoc _ _ _ Htop), top_snoc_same, Htop. simpl.
    destruct (Z.lt_trichotomy (instant local_tz o) (utc t)) as [H | [H | H]].
    + rewrite (update_older _ _ _ _ _ _ _ _ _ E Ht Ha H), E.
      exists t. repeat split; [done | done | f_equal; lia |].
      rewrite decide_False, decide_False by lia. done.
    + rewrite (update_tie _ _ _ _ _ _ _ _ _ E Ht)
        by (by rewrite (normalize_id t Ha)).
      simpl. rewrite lookup_insert_eq. exists t. simpl.
      rewrite Ht. simpl. rewrite (normalize_id t Ha).
      repeat split; [done | f_equal; lia |].
      rewrite decide_False, decide_True by lia.
      rewrite fmap_app, list_to_set_app_L, Hurls. simpl. by rewrite union_empty_r_L.
    + rewrite (update_newer _ _ _ _ _ _ _ _ _ E Ht)
        by (by rewrite (normalize_id t Ha)).
      simpl. rewrite lookup_insert_eq. eexists. simpl.
      repeat split; [apply normalize_aware | f_equal; unfold instant in *; lia |].
      rewrite decide_True by lia. simpl. by rewrite union_empty_r_L.
  - intros Hnil. rewrite (update_fresh _ _ _ _ _ _ _ E). simpl.
    rewrite lookup_insert_eq. eexists. simpl.
    rewrite top_snoc_same. unfold at_top. rewrite top_snoc_same, mine_snoc_same.
    unfold top. rewrite Hnil. simpl.
    split; [done|]. split; [apply normalize_aware|]. split; [done|].
    rewrite (filter_cons_True _ o) by done. simpl. by rewrite union_empty_r_L.
Qed.

Lemma reconcile_all_tracks D os :
  tracks (reconcile_all local_tz init os) D os.
Proof.
  induction os as [|o os IH] using rev_ind.
  - unfold tracks. simpl. by rewrite lookup_empty.
  - rewrite reconcile_all_snoc. by apply reconcile_tracks.
Qed.

(** *** Tracking parameters *)

Lemma add_param_list_default l m k :
  default ∅ (foldl add_param m l !! k) = default ∅ (m !! k) ∪ vals k l.
Proof.
  revert m. induction l as [|kv l IH]; intros m; simpl.
  - unfold vals. simpl. by rewrite union_empty_r_L.
  - rewrite IH. unfold vals, add_param.
    destruct (decide (kv.1 = k)) as [<-|Hne].
    + rewrite lookup_insert_eq, (filter_cons_True _ kv) by done. simpl.
      by rewrite (assoc_L (∪)).
    + by rewrite lookup_insert_ne, (filter_cons_False _ kv) by done.
Qed.

Lemma add_param_list_is_Some l m k :
  is_Some (foldl add_param m l !! k) <-> is_Some (m !! k) \/ k ∈ l.*1.
Proof.
  revert m. induction l as [|kv l IH]; intros m; simpl.
  - split; [by left | intros [H|H]; [done | by inversion H]].
  - rewrite IH. unfold add_param. rewrite elem_of_cons.
    destruct (decide (kv.1 = k)) as [<-|Hne].
    + rewrite lookup_insert_eq. split; [intros _; right; by left | eauto].
    + rewrite lookup_insert_ne by done. split.
      * intros [H|H]; [by left | right; by right].
      * intros [H|[H|H]]; [by left | congruence | by right].
Qed.

Lemma vals_empty l k : k ∉ l.*1 -> vals k l = ∅.
Proof.
  intros Hk. unfold vals. rewrite filter_none; [done|].
  intros kv Hkv Heq. apply Hk. subst k. by apply list_elem_of_fmap_2.
Qed.

Lemma option_eq_default (a b : option (gset string)) :
  (is_Some a <-> is_Some b) -> default ∅ a = default ∅ b -> a = b.
Proof.
  intros Hs Hd. destruct a as [x|], b as [y|]; simpl in *; try congruence.
  - destruct Hs as [Hs _]. destruct Hs as [? ?]; [eauto | done].
  - destruct Hs as [_ Hs]. destruct Hs as [? ?]; [eauto | done].
Qed.

Lemma add_params_idem tp m :
  add_params tp (add_params tp m) = add_params tp m.
Proof.
  unfold add_params. apply map_eq. intros k. apply option_eq_default.
  - rewrite add_param_list_is_Some. split; [|by left].
    intros [H|H]; [done|]. apply add_param_list_is_Some. by right.
  - rewrite !add_param_list_default. by rewrite <- (assoc_L (∪)), union_idemp_L.
Qed.

Lemma add_params_grows tp m k :
  default ∅ (m !! k) ⊆ default ∅ (add_params tp m !! k).
Proof.
  unfold add_params. rewrite add_param_list_default. apply union_subseteq_l.
Qed.

(** *** The heap of click-id sets *)

Lemma deref_insert h l v l' :
  deref (<[l := v]> h) l' = if decide (l = l') then v else deref h l'.
Proof.
  unfold deref. destruct (decide (l = l')) as [<-|Hne].
  - by rewrite lookup_insert_eq.
  - by rewrite lookup_insert_ne.
Qed.

Lemma deref_insert_same h l l' : deref (<[l := deref h l]> h) l' = deref h l'.
Proof. rewrite deref_insert. by destruct (decide (l = l')) as [<-|]. Qed.

(** After an observation has been reconciled, its domain's entry is at
    least as recent as the observation, and if it is exactly as recent it
    already holds everything the observation carries. *)
Lemma update_absorbs st domain url tp ts sender cl :
  let st1 := update st domain url tp ts sender cl in
  exists d1 t1,
    domain_tracking st1 !! domain = Some d1
    /\ latest_timestamp d1 = Some t1 /\ aware t1
    /\ utc (norm ts) <= utc t1
    /\ (utc (norm ts) = utc t1 ->
        url ∈ latest_urls d1
        /\ add_params tp (latest_tracking_params d1) = latest_tracking_params d1
        /\ deref (heap st1) cl ⊆ deref (heap st1) (latest_click_ids d1)).
Proof.
  intros st1. subst st1.
  destruct (domain_tracking st !! domain) as [d|] eqn:E.
  2: { rewrite (update_fresh _ _ _ _ _ _ _ E). simpl. rewrite lookup_insert_eq.
       eexists _, _. split; [done|]. simpl. split; [done|].
       split; [apply normalize_aware|]. split; [lia|]. intros _.
       split; [by apply elem_of_singleton|].
       split; [apply add_params_idem | done]. }
  destruct (latest_timestamp d) as [t|] eqn:Ht.
  2: { rewrite (update_unset _ _ _ _ _ _ _ _ E Ht). simpl.
       rewrite lookup_insert_eq.
       eexists _, _. split; [done|]. simpl. split; [done|].
       split; [apply normalize_aware|]. split; [lia|]. intros _.
       split; [by apply elem_of_singleton|].
       split; [apply add_params_idem | done]. }
  destruct (Z.lt_trichotomy (utc (norm ts)) (utc (norm t))) as [H | [H | H]].
  - rewrite (update_stale _ _ _ _ _ _ _ _ _ E Ht H). simpl.
    rewrite lookup_insert_eq.
    eexists _, _. split; [done|]. simpl. rewrite Ht. simpl. split; [done|].
    split; [apply normalize_aware|]. split; [lia|]. lia.
  - rewrite (update_tie _ _ _ _ _ _ _ _ _ E Ht H). simpl.
    rewrite lookup_insert_eq.
    eexists _, _. split; [done|]. simpl. rewrite Ht. simpl. split; [done|].
    split; [apply normalize_aware|]. split; [lia|]. intros _.
    split; [apply elem_of_union_r; by apply elem_of_singleton|].
    split; [apply add_params_idem|].
    rewrite !deref_insert.
    destruct (decide (latest_click_ids d = cl)) as [Hcl|Hcl].
    + rewrite Hcl. by rewrite decide_True by done.
    + rewrite decide_True by done. apply union_subseteq_r.
  - rewrite (update_newer _ _ _ _ _ _ _ _ _ E Ht H). simpl.
    rewrite lookup_insert_eq.
    eexists _, _. split; [done|]. simpl. split; [done|].
    split; [apply normalize_aware|]. split; [lia|]. intros _.
    split; [by apply elem_of_singleton|].
    split; [apply add_params_idem | done].
Qed.

Lemma settled_id d t : latest_timestamp d = Some t -> aware t -> settled d = d.
Proof.
  intros Ht Ha. unfold settled. destruct d; simpl in *. rewrite Ht. simpl.
  by rewrite (normalize_id t Ha).
Qed.

Lemma update_twice st domain url tp ts sender cl D :
  view (update (update st domain url tp ts sender cl)
          domain url tp ts sender cl) D
  = view (update st domain url tp ts sender cl) D.
Proof.
  destruct (update_absorbs st domain url tp ts sender cl)
    as (d1 & t1 & E1 & Ht1 & Ha1 & Hle & Hsame).
  set (st1 := update st domain url tp ts sender cl) in *.
  destruct (decide (utc (norm ts) = utc t1)) as [Heq | Hne].
  - destruct (Hsame Heq) as (Hurl & Hparams & Hids).
    rewrite (update_tie st1 _ _ _ _ _ _ _ _ E1 Ht1)
      by (by rewrite (normalize_id t1 Ha1)).
    assert (merged d1 url tp = d1) as ->.
    { unfold merged. destruct d1; simpl in *. rewrite Ht1, Hparams. simpl.
      rewrite (normalize_id t1 Ha1). f_equal.
      rewrite (comm_L (∪)). apply subseteq_union_1_L.
      by apply singleton_subseteq_l. }
    rewrite (comm_L (∪) (deref _ _)), (subseteq_union_1_L _ _ Hids).
    unfold view. simpl. rewrite (insert_id _ _ _ E1).
    destruct (domain_tracking st1 !! D); simpl; [|done].
    by rewrite deref_insert_same.
  - rewrite (update_older st1 _ _ _ _ _ _ _ _ E1 Ht1 Ha1); [done | lia].
Qed.

End LedgerFacts.

(** C1: after any sequence of observations has been reconciled into a new
    ledger, in the order given, the entry for a domain [D] holds as
    timestamp the greatest instant among the observations made for [D], and
    as URLs exactly those of the observations made for [D] at that instant.
    There is an entry for [D] exactly when some observation was made for
    it. *)
Theorem ledger_holds_latest (local_tz : Z) (os : list observation) (D : string) :
  let st := reconcile_all local_tz init os in
  let mine := filter (fun o => obs_domain o = D) os in
  let top := maximum (instant local_tz <$> mine) in
  (utc <$> (domain_tracking st !! D ≫= latest_timestamp)) = top
  /\ default ∅ (latest_urls <$> domain_tracking st !! D)
     = list_to_set
         (obs_url <$> filter (fun o => Some (instant local_tz o) = top) mine)
  /\ (is_Some (domain_tracking st !! D) <-> mine <> []).
Proof.
  intros st mine0 top0. pose proof (reconcile_all_tracks local_tz D os) as H.
  unfold tracks in H. fold st in H.
  destruct (domain_tracking st !! D) as [d|] eqn:E; simpl.
  - destruct H as (t & Ht & Ha & Htop & Hurls). rewrite Ht. simpl.
    split; [done|]. split; [done|]. split; [|eauto].
    intros _ Hnil. unfold top, mine in Htop. fold mine0 in Htop.
    rewrite Hnil in Htop. done.
  - subst mine0 top0. unfold mine in H. rewrite H. simpl.
    split; [done|]. split; [done|]. split; [by intros [? ?] | done].
Qed.

(** C2: reconciling the same observation a second time changes no field
    of any entry: timestamp, sender, URLs, tracking parameters and click
    ids are those left by the first time.  The same set object is handed
    over both times, as for one observation. *)
Theorem reconcile_idempotent (local_tz : Z) (st : state) (o : observation)
  (D : string) :
  view (reconcile local_tz (reconcile local_tz st o) o) D
  = view (reconcile local_tz st o) D.
Proof. apply update_twice. Qed.

(** C8: on a ledger whose entries have aware timestamps, an observation
    strictly older than the entry of its domain leaves the whole state as
    it was; an observation at the instant of the entry leaves sender and
    timestamp as they were, adds its URL, and only adds to the tracking
    parameters and click ids. *)
Theorem older_is_noop_and_tie_keeps_sender (local_tz : Z) (st : state)
  (o : observation) (d : domain_data) :
  ledger_ok st ->
  domain_tracking st !! obs_domain o = Some d ->
  exists t,
    latest_timestamp d = Some t
    /\ (instant local_tz o < utc t -> reconcile local_tz st o = st)
    /\ (instant local_tz o = utc t ->
        exists v v',
          view st (obs_domain o) = Some v
          /\ view (reconcile local_tz st o) (obs_domain o) = Some v'
          /\ view_sender v' = view_sender v
          /\ view_timestamp v' = view_timestamp v
          /\ view_urls v' = view_urls v ∪ {[obs_url o]}
          /\ (forall k, default ∅ (view_tracking_params v !! k)
                        ⊆ default ∅ (view_tracking_params v' !! k))
          /\ view_click_ids v'
             = view_click_ids v ∪ deref (heap st) (obs_click_ids o)).
Proof.
  intros Hok E. destruct (Hok _ _ E) as (t & Ht & Ha).
  exists t. split; [done|]. split.
  - intros Hlt. by apply (update_older local_tz _ _ _ _ _ _ _ d t).
  - intros Heq. unfold reconcile.
    rewrite (update_tie local_tz _ _ _ _ _ _ _ d t E Ht)
      by (by rewrite (normalize_id local_tz t Ha)).
    unfold view. simpl. rewrite E, lookup_insert_eq. simpl.
    eexists _, _. split; [done|]. split; [done|]. simpl.
    split; [done|]. split.
    { rewrite Ht. simpl. by rewrite (normalize_id local_tz t Ha). }
    split; [done|]. split; [intros k; apply add_params_grows|].
    rewrite deref_insert. by rewrite decide_True by done.
Qed.

(** *** The key of a scanned URL *)

Section ScanFacts.

Variable local_tz : Z.
Variable parse_qs : string -> gmap string (string * list string).
Variable re_findall : string -> string -> list string.

Abbreviation scan_url := (Scanner.scan_url local_tz parse_qs re_findall).
Abbreviation scan_part := (Scanner.scan_part local_tz parse_qs re_findall).

(** A promotional URL is filed under the authority [urlparse] gives,
    letter case untouched; every other entry stays as it was. *)
Lemma scan_url_entry content ts sender st url :
  is_promotional_link url content = true ->
  is_Some (domain_tracking (scan_url content ts sender st url)
             !! UrlParse.netloc (UrlParse.urlparse url))
  /\ forall D, D <> UrlParse.netloc (UrlParse.urlparse url) ->
       domain_tracking (scan_url content ts sender st url) !! D
       = domain_tracking st !! D.
Proof.
  intros Hp. unfold Scanner.scan_url, alloc. rewrite Hp. split.
  - match goal with
    | |- is_Some (domain_tracking (update_domain_tracking _ ?s ?d ?u ?tp ?t ?se ?c) !! _) =>
        destruct (update_absorbs local_tz s d u tp t se c) as (d1 & t1 & E & _)
    end.
    rewrite E. eauto.
  - intros D HD. by rewrite update_other.
Qed.

Lemma scan_url_dom content ts sender st url :
  is_promotional_link url content = true ->
  dom (domain_tracking (scan_url content ts sender st url))
  = {[UrlParse.netloc (UrlParse.urlparse url)]} ∪ dom (domain_tracking st).
Proof.
  intros Hp. destruct (scan_url_entry content ts sender st url Hp) as [Hin Hout].
  apply set_eq. intros D. rewrite elem_of_union, elem_of_singleton, !elem_of_dom.
  destruct (decide (D = UrlParse.netloc (UrlParse.urlparse url))) as [->|Hne].
  - split; [by left | done].
  - rewrite (Hout D Hne). split; [by right | by intros [?|?]].
Qed.

End ScanFacts.

(** C10: [get_domain] is the lowercased authority of the URL, whereas the
    scanner files an observation under the authority as written.  Two
    promotional URLs whose authorities differ in letter case only are thus
    one domain for the visitor and two entries of the ledger. *)
Theorem visitor_key_is_lowercase_scanner_key_is_verbatim (local_tz : Z)
  (parse_qs : string -> gmap string (string * list string))
  (re_findall : string -> string -> list string)
  (content : string) (ts : datetime) (sender : string) (u1 u2 : string) :
  is_promotional_link u1 content = true ->
  is_promotional_link u2 content = true ->
  UrlParse.netloc (UrlParse.urlparse u1) <> UrlParse.netloc (UrlParse.urlparse u2) ->
  Py.lower (UrlParse.netloc (UrlParse.urlparse u1))
  = Py.lower (UrlParse.netloc (UrlParse.urlparse u2)) ->
  (forall url,
     Visitor.get_domain url = Py.lower (UrlParse.netloc (UrlParse.urlparse url)))
  /\ Visitor.get_domain u1 = Visitor.get_domain u2
  /\ dom (domain_tracking
            (Scanner.scan_part local_tz parse_qs re_findall content ts sender
               [u1; u2] init))
     = {[UrlParse.netloc (UrlParse.urlparse u1);
         UrlParse.netloc (UrlParse.urlparse u2)]}
  /\ size (domain_tracking
             (Scanner.scan_part local_tz parse_qs re_findall content ts sender
                [u1; u2] init)) = 2%nat.
Proof.
  intros Hp1 Hp2 Hne Hlow. split; [done|]. split; [done|].
  assert (dom (domain_tracking
                 (Scanner.scan_part local_tz parse_qs re_findall content ts
                    sender [u1; u2] init))
          = {[UrlParse.netloc (UrlParse.urlparse u1);
              UrlParse.netloc (UrlParse.urlparse u2)]}) as Hdom.
  { unfold Scanner.scan_part. simpl.
    rewrite !scan_url_dom by done. simpl. rewrite dom_empty_L.
    rewrite union_empty_r_L. apply (comm_L (∪)). }
  split; [done|].
  rewrite <- size_dom, Hdom, size_union by set_solver.
  by rewrite !size_singleton.
Qed.

(** *** Instances *)

Lemma older_is_noop_witness :
  reconcile sample_zone sample_ledger sample_older = sample_ledger.
Proof.
  destruct (older_is_noop_and_tie_keeps_sender sample_zone sample_ledger
              sample_older
              (replaced sample_zone ∅ (obs_url sample_first)
                 (obs_tracking_params sample_first)
                 (obs_timestamp sample_first) (obs_sender sample_first)
                 (obs_click_ids sample_first)))
    as (t & Ht & Hold & _).
  - apply update_ok, init_ok.
  - unfold sample_ledger, reconcile.
    rewrite update_fresh by apply lookup_empty. apply lookup_insert_eq.
  - apply Hold. injection Ht as <-. vm_compute. reflexivity.
Defined.

Lemma same_host_two_cases_witness :
  Visitor.get_domain "http://Shop.Example.com/a"
  = Visitor.get_domain "http://shop.example.com/b"
  /\ size (domain_tracking
             (Scanner.scan_part 0 (fun _ => ∅) (fun _ _ => []) "" sample_time
                "news@example.com"
                ["http://Shop.Example.com/a"; "http://shop.example.com/b"]
                init)) = 2%nat.
Proof.
  destruct (visitor_key_is_lowercase_scanner_key_is_verbatim 0
              (fun _ => ∅) (fun _ _ => []) "" sample_time "news@example.com"
              "http://Shop.Example.com/a" "http://shop.example.com/b")
    as (_ & Hv & _ & Hs).
  - vm_compute. reflexivity.
  - vm_compute. reflexivity.
  - intros H. vm_compute in H. discriminate H.
  - vm_compute. reflexivity.
  - split; [exact Hv | exact Hs].
Defined.
(** *** Tracking parameters *)

Lemma elem_of_vals k l x : x ∈ vals k l <-> (k, x) ∈ l.
Proof.
  unfold vals. rewrite elem_of_list_to_set, list_elem_of_fmap. split.
  - intros ([k' x'] & -> & Hin). apply list_elem_of_filter in Hin as [Hk Hin].
    simpl in *. by subst k'.
  - intros Hin. exists (k, x). split; [done|].
    apply list_elem_of_filter. by split.
Qed.

Lemma add_params_lookup_Some tp m k v :
  tp !! k = Some v ->
  add_params tp m !! k = Some (default ∅ (m !! k) ∪ {[v]}).
Proof.
  intros Hk. unfold add_params.
  assert (is_Some (foldl add_param m (map_to_list tp) !! k)) as [X HX].
  { apply add_param_list_is_Some. right.
    apply list_elem_of_fmap. exists (k, v). split; [done|].
    by apply elem_of_map_to_list. }
  pose proof (add_param_list_default (map_to_list tp) m k) as Hd.
  rewrite HX in Hd. simpl in Hd. rewrite HX, Hd. do 2 f_equal.
  apply set_eq. intros x. rewrite elem_of_vals, elem_of_map_to_list.
  rewrite elem_of_singleton. split; [congruence | by intros ->].
Qed.

Lemma add_params_lookup_None tp m k :
  tp !! k = None -> add_params tp m !! k = m !! k.
Proof.
  intros Hk. unfold add_params.
  assert (k ∉ (map_to_list tp).*1) as Hnot.
  { intros Hin. apply list_elem_of_fmap in Hin as ([k' v] & -> & Hin).
    apply elem_of_map_to_list in Hin. simpl in Hk. congruence. }
  apply option_eq_default.
  - rewrite add_param_list_is_Some. split; [|by left].
    intros [H|H]; done.
  - rewrite add_param_list_default, vals_empty by done.
    by rewrite union_empty_r_L.
Qed.

(** X1: the loops of lines 135-136 and 144-145 add, for every tracking
    parameter of the observation, its value to the set stored under the
    parameter's name, and touch no other name; after the reset of line 134
    every parameter of the observation stands with the singleton of its
    value. *)
Theorem add_params_pointwise (tp : gmap string string)
  (m : gmap string (gset string)) :
  (forall k,
     add_params tp m !! k
     = match tp !! k with
       | Some v => Some (default ∅ (m !! k) ∪ {[v]})
       | None => m !! k
       end)
  /\ add_params tp ∅ = (fun v => ({[v]} : gset string)) <$> tp.
Proof.
  assert (forall m k,
            add_params tp m !! k
            = match tp !! k with
              | Some v => Some (default ∅ (m !! k) ∪ {[v]})
              | None => m !! k
              end) as H.
  { intros m' k. destruct (tp !! k) as [v|] eqn:E.
    - by apply add_params_lookup_Some.
    - by apply add_params_lookup_None. }
  split; [apply H|]. apply map_eq. intros k.
  rewrite H, lookup_fmap, lookup_empty.
  destruct (tp !! k); simpl; [|done]. by rewrite union_empty_l_L.
Qed.

Section ExtractFacts.
Variable parse_qs : string -> gmap string (string * list string).

Abbreviation keep_tracking :=
  (fun (acc : gmap string string) (item : string * (string * list string)) =>
     foldl
       (fun acc pattern =>
          if Py.contains pattern (Py.lower item.1)
          then <[item.1 := item.2.1]> acc else acc)
       acc tracking_patterns).

Lemma keep_tracking_item (acc : gmap string string)
  (item : string * (string * list string)) :
  keep_tracking acc item
  = if is_tracking_name item.1 then <[item.1 := item.2.1]> acc else acc.
Proof.
  unfold is_tracking_name. generalize tracking_patterns. intros ps.
  revert acc. induction ps as [|p ps IH]; intros acc; [done|].
  cbn [foldl existsb]. rewrite IH.
  destruct (Py.contains p (Py.lower item.1)); cbn [orb]; [|done].
  destruct (existsb _ ps); [|done]. by rewrite insert_insert_eq.
Qed.

Lemma keep_tracking_list (l : list (string * (string * list string)))
  (acc : gmap string string) (k : string) :
  NoDup l.*1 ->
  (forall v rest, (k, (v, rest)) ∈ l -> is_tracking_name k = true ->
     foldl keep_tracking acc l !! k = Some v)
  /\ (k ∉ l.*1 \/ is_tracking_name k = false ->
      foldl keep_tracking acc l !! k = acc !! k).
Proof.
  revert acc. induction l as [|[k0 [v0 r0]] l IH]; intros acc Hnd.
  - split; [intros v rest Hin; by inversion Hin | done].
  - rewrite fmap_cons in Hnd. apply NoDup_cons in Hnd as [Hk0 Hnd].
    cbn [foldl]. rewrite keep_tracking_item. cbn [fst snd].
    split.
    + intros v rest Hin Hm. apply elem_of_cons in Hin as [Heq | Hin].
      * injection Heq as <- <- <-. rewrite Hm.
        destruct (IH (<[k := v]> acc) Hnd) as [_ Ho].
        rewrite Ho by (by left). apply lookup_insert_eq.
      * by apply (IH _ Hnd) with rest.
    + intros Hor. destruct (IH (if is_tracking_name k0
                                then <[k0 := v0]> acc else acc) Hnd)
        as [_ Ho].
      rewrite Ho.
      * destruct (decide (k0 = k)) as [-> | Hne].
        -- destruct Hor as [Hnot | ->]; [|done].
           exfalso. apply Hnot. rewrite fmap_cons. by left.
        -- destruct (is_tracking_name k0); [|done].
           by rewrite lookup_insert_ne.
      * destruct Hor as [Hnot | Hm]; [|by right]. left.
        intros Hin. apply Hnot. rewrite fmap_cons. by right.
Qed.

Lemma extract_tracking_params_lookup url k v :
  extract_tracking_params parse_qs url !! k = Some v
  <-> (exists rest,
         parse_qs (UrlParse.query (UrlParse.urlparse url)) !! k
         = Some (v, rest))
      /\ is_tracking_name k = true.
Proof.
  unfold extract_tracking_params.
  set (qp := parse_qs (UrlParse.query (UrlParse.urlparse url))).
  destruct (keep_tracking_list (map_to_list qp) ∅ k) as [Hin Hout];
    [apply NoDup_fst_map_to_list|].
  destruct (is_tracking_name k) eqn:Hm.
  - destruct (qp !! k) as [[v' rest]|] eqn:E.
    + rewrite (Hin v' rest) by (by apply elem_of_map_to_list || done).
      split.
      * intros [= ->]. split; [by exists rest | done].
      * intros [[rest' [= -> _]] _]. done.
    + rewrite Hout, lookup_empty.
      * split; [done | by intros [[? ?] _]].
      * left. intros Hk. apply list_elem_of_fmap in Hk as ([k' x] & -> & Hk).
        apply elem_of_map_to_list in Hk. simpl in E. congruence.
  - rewrite Hout, lookup_empty by (by right).
    split; [done | by intros [_ ?]].
Qed.

(** X2: [extract_tracking_params] keeps a query parameter exactly when its
    lowercased name contains one of the tracking patterns, with the first
    of its values and under its name as written; every other parameter is
    left out. *)
Theorem tracking_params_are_the_matching_query_params (url k v : string) :
  extract_tracking_params parse_qs url !! k = Some v
  <-> (exists rest,
         parse_qs (UrlParse.query (UrlParse.urlparse url)) !! k
         = Some (v, rest))
      /\ exists pattern, pattern ∈ tracking_patterns
           /\ Py.contains pattern (Py.lower k) = true.
Proof.
  rewrite extract_tracking_params_lookup. unfold is_tracking_name.
  rewrite existsb_exists. split; intros [H1 (p & Hp & Hc)]; (split; [done|]);
    exists p; (split; [|done]); by apply list_elem_of_In.
Qed.

Lemma lower_never_C c : Ascii.eqb "C" (Py.ascii_lower c) = false.
Proof.
  destruct c as [[] [] [] [] [] [] [] []]; reflexivity.
Qed.

Lemma startswith_lower_hsCtaTracking s :
  Py.startswith (Py.lower s) "hsCtaTracking" = false.
Proof.
  destruct s as [|a [|b [|c s]]]; cbn [Py.lower Py.startswith];
    rewrite ?andb_false_r; try done.
  by rewrite lower_never_C, andb_false_l, !andb_false_r.
Qed.

Lemma contains_lower_hsCtaTracking s :
  Py.contains "hsCtaTracking" (Py.lower s) = false.
Proof.
  induction s as [|c s IH]; [done|].
  change (Py.lower (String c s)) with (String (Py.ascii_lower c) (Py.lower s)).
  cbn [Py.contains]. rewrite IH, orb_false_r.
  apply (startswith_lower_hsCtaTracking (String c s)).
Qed.

(** X3: the pattern [hsCtaTracking] of line 70 is written with capitals and
    tested against the lowercased parameter name, so it matches no name at
    all; and as no other pattern occurs in [hsctatracking], a parameter
    named [hsCtaTracking] is never extracted. *)
Theorem hsCtaTracking_is_never_extracted :
  (forall param, Py.contains "hsCtaTracking" (Py.lower param) = false)
  /\ forall url,
       extract_tracking_params parse_qs url !! "hsCtaTracking" = None.
Proof.
  split; [apply contains_lower_hsCtaTracking|]. intros url.
  destruct (extract_tracking_params parse_qs url !! "hsCtaTracking")
    as [v|] eqn:E; [|done].
  apply extract_tracking_params_lookup in E as [_ Hm].
  vm_compute in Hm. discriminate.
Qed.

End ExtractFacts.

Section ScanInvariants.

Variable local_tz : Z.
Variable parse_qs : string -> gmap string (string * list string).
Variable re_findall : string -> string -> list string.

Abbreviation update := (update_domain_tracking local_tz).
Abbreviation norm := (normalize local_tz).
Abbreviation replaced := (Scanner.replaced local_tz).
Abbreviation merged := (Scanner.merged local_tz).
Abbreviation settled := (Scanner.settled local_tz).
Abbreviation scan_url := (Scanner.scan_url local_tz parse_qs re_findall).
Abbreviation scan_part := (Scanner.scan_part local_tz parse_qs re_findall).
Abbreviation extract := (extract_tracking_params parse_qs).
Abbreviation scan_parts := (Scanner.scan_parts local_tz parse_qs re_findall).

Lemma update_cases st domain url tp ts sender cl :
  (exists camp h',
      update st domain url tp ts sender cl
      = {| domain_tracking :=
             <[domain := replaced camp url tp ts sender cl]>
               (domain_tracking st);
           heap := h' |}
      /\ (forall x, x ∈ dom (heap st) -> h' !! x = heap st !! x)
      /\ dom (heap st) ⊆ dom h'
      /\ (camp = ∅
          \/ exists d, domain_tracking st !! domain = Some d
                       /\ camp = latest_campaign_ids d))
  \/ (exists d,
        domain_tracking st !! domain = Some d
        /\ update st domain url tp ts sender cl
           = {| domain_tracking :=
                  <[domain := merged d url tp]> (domain_tracking st);
                heap :=
                  <[latest_click_ids d :=
                      deref (heap st) (latest_click_ids d)
                      ∪ deref (heap st) cl]> (heap st) |})
  \/ (exists d,
        domain_tracking st !! domain = Some d
        /\ update st domain url tp ts sender cl
           = {| domain_tracking :=
                  <[domain := settled d]> (domain_tracking st);
                heap := heap st |}).
Proof.
  destruct (domain_tracking st !! domain) as [d|] eqn:E.
  - destruct (latest_timestamp d) as [t|] eqn:Ht.
    + destruct (Z.lt_trichotomy (utc (norm ts)) (utc (norm t)))
        as [H | [H | H]].
      * right. right. exists d. split; [done|].
        by apply (update_stale local_tz _ _ _ _ _ _ _ d t).
      * right. left. exists d. split; [done|].
        by apply (update_tie local_tz _ _ _ _ _ _ _ d t).
      * left. exists (latest_campaign_ids d), (heap st).
        split; [by apply (update_newer local_tz _ _ _ _ _ _ _ d t)|].
        split; [done|]. split; [done|]. right. by exists d.
    + left. exists (latest_campaign_ids d), (heap st).
      split; [by apply (update_unset local_tz)|].
      split; [done|]. split; [done|]. right. by exists d.
  - left. exists ∅, (<[fresh (dom (heap st)) := ∅]> (heap st)).
    split; [by apply (update_fresh local_tz)|]. split; [|split; [|by left]].
    + intros x Hx. apply lookup_insert_ne. intros <-.
      by apply (is_fresh (dom (heap st))).
    + rewrite dom_insert. apply union_subseteq_r.
Qed.

(** What one promotional URL does to the state. *)
Lemma scan_url_cases content ts sender st url :
  is_promotional_link url content = true ->
  let D := UrlParse.netloc (UrlParse.urlparse url) in
  let l := fresh (dom (heap st)) in
  let st' := scan_url content ts sender st url in
  (forall x, x ∈ dom (heap st) ->
     (forall d, domain_tracking st !! D = Some d -> latest_click_ids d <> x) ->
     heap st' !! x = heap st !! x)
  /\ dom (heap st) ⊆ dom (heap st')
  /\ (forall D', D' <> D -> domain_tracking st' !! D' = domain_tracking st !! D')
  /\ exists d',
       domain_tracking st' !! D = Some d'
       /\ ((exists camp,
              d' = replaced camp url (extract url) ts sender l
              /\ l ∈ dom (heap st')
              /\ (camp = ∅
                  \/ exists d, domain_tracking st !! D = Some d
                               /\ camp = latest_campaign_ids d))
           \/ (exists d, domain_tracking st !! D = Some d
                         /\ d' = merged d url (extract url))
           \/ (exists d, domain_tracking st !! D = Some d
                         /\ d' = settled d)).
Proof.
  intros Hp D l st'. subst st'. unfold Scanner.scan_url, alloc. rewrite Hp.
  fold D. fold l.
  assert (l ∉ dom (heap st)) as Hl by apply is_fresh.
  match goal with
  | |- context [update_domain_tracking _ ?s _ _ _ _ _ _] => set (st1 := s)
  end.
  assert (forall x, x ∈ dom (heap st) -> heap st1 !! x = heap st !! x) as Hh1.
  { intros x Hx. simpl. apply lookup_insert_ne. by intros <-. }
  assert (dom (heap st) ⊆ dom (heap st1)) as Hd1.
  { simpl. rewrite dom_insert. apply union_subseteq_r. }
  assert (l ∈ dom (heap st1)) as Hl1.
  { simpl. rewrite dom_insert. apply elem_of_union_l. by apply elem_of_singleton. }
  destruct (update_cases st1 D url (extract url) ts sender l)
    as [(camp & h' & -> & Hh' & Hd' & Hc) | [(d & E & ->) | (d & E & ->)]];
    simpl in *.
  - split; [|split; [|split]].
    + intros x Hx _. rewrite Hh' by (by apply Hd1). by apply Hh1.
    + by etrans.
    + intros D' HD'. by apply lookup_insert_ne.
    + eexists. split; [apply lookup_insert_eq|]. left. exists camp.
      split; [done|]. split; [by apply Hd'|]. done.
  - split; [|split; [|split]].
    + intros x Hx Hne. rewrite lookup_insert_ne by (by apply Hne).
      by apply lookup_insert_ne; intros <-.
    + rewrite !dom_insert. etrans; [|apply union_subseteq_r].
      apply union_subseteq_r.
    + intros D' HD'. by apply lookup_insert_ne.
    + eexists. split; [apply lookup_insert_eq|]. right. left. by exists d.
  - split; [|split; [|split]].
    + intros x Hx _. by apply lookup_insert_ne; intros <-.
    + rewrite dom_insert. apply union_subseteq_r.
    + intros D' HD'. by apply lookup_insert_ne.
    + eexists. split; [apply lookup_insert_eq|]. right. right. by exists d.
Qed.

Lemma init_separated : separated init.
Proof.
  split; [intros D d E | intros D1 D2 d1 d2 E]; simpl in E;
    by rewrite lookup_empty in E.
Qed.

Lemma scan_url_separated content ts sender st url :
  separated st -> separated (scan_url content ts sender st url).
Proof.
  intros [Hdom Hinj].
  destruct (is_promotional_link url content) eqn:Hp;
    [|unfold Scanner.scan_url; by rewrite Hp].
  destruct (scan_url_cases content ts sender st url Hp)
    as (_ & Hsub & Hother & d' & E' & Hd').
  set (D := UrlParse.netloc (UrlParse.urlparse url)) in *.
  set (st' := scan_url content ts sender st url) in *.
  assert (forall D1 d1, D1 <> D -> domain_tracking st' !! D1 = Some d1 ->
            latest_click_ids d1 ∈ dom (heap st)) as Hold.
  { intros D1 d1 Hne E1. rewrite Hother in E1 by done. by eapply Hdom. }
  assert (((latest_click_ids d' ∉ dom (heap st))
           /\ latest_click_ids d' ∈ dom (heap st'))
          \/ exists d, domain_tracking st !! D = Some d
                       /\ latest_click_ids d' = latest_click_ids d) as Hloc.
  { destruct Hd' as [(camp & -> & Hin & _) | [(d & E & ->) | (d & E & ->)]].
    - left. split; [apply is_fresh | done].
    - right. by exists d.
    - right. by exists d. }
  split.
  - intros D1 d1 E1. destruct (decide (D1 = D)) as [-> | Hne].
    + rewrite E' in E1. injection E1 as <-.
      destruct Hloc as [[_ Hin] | (d & E & ->)]; [done|].
      apply Hsub. by eapply Hdom.
    + apply Hsub. by eapply Hold.
  - intros D1 D2 d1 d2 E1 E2 Heq.
    destruct (decide (D1 = D)) as [-> | Hne1];
      destruct (decide (D2 = D)) as [-> | Hne2]; [done | | |].
    + rewrite E' in E1. injection E1 as <-.
      pose proof (Hold _ _ Hne2 E2) as Hin2. rewrite Hother in E2 by done.
      destruct Hloc as [[Hout _] | (d & E & Hd)].
      * rewrite Heq in Hout. done.
      * symmetry. apply (Hinj D2 D d2 d E2 E). congruence.
    + rewrite E' in E2. injection E2 as <-.
      pose proof (Hold _ _ Hne1 E1) as Hin1. rewrite Hother in E1 by done.
      destruct Hloc as [[Hout _] | (d & E & Hd)].
      * rewrite <- Heq in Hout. done.
      * apply (Hinj D1 D d1 d E1 E). congruence.
    + rewrite Hother in E1, E2 by done. by eapply Hinj.
Qed.

Lemma scan_url_frame content ts sender st url D' :
  separated st ->
  D' <> UrlParse.netloc (UrlParse.urlparse url) ->
  view (scan_url content ts sender st url) D' = view st D'.
Proof.
  intros [Hdom Hinj] Hne.
  destruct (is_promotional_link url content) eqn:Hp;
    [|unfold Scanner.scan_url; by rewrite Hp].
  destruct (scan_url_cases content ts sender st url Hp)
    as (Hheap & _ & Hother & _).
  unfold view. rewrite Hother by done.
  destruct (domain_tracking st !! D') as [d|] eqn:E; [|done]. simpl.
  do 2 f_equal. unfold deref. rewrite Hheap; [done | by eapply Hdom |].
  intros d0 E0 Heq. apply Hne. by apply (Hinj D' _ d d0).
Qed.

Lemma scan_url_well_formed content ts sender st url :
  map_Forall well_formed (domain_tracking st) ->
  map_Forall well_formed (domain_tracking (scan_url content ts sender st url)).
Proof.
  intros Hwf.
  destruct (is_promotional_link url content) eqn:Hp;
    [|unfold Scanner.scan_url; by rewrite Hp].
  destruct (scan_url_cases content ts sender st url Hp)
    as (_ & _ & Hother & d' & E' & Hd').
  set (D := UrlParse.netloc (UrlParse.urlparse url)) in *.
  intros D1 d1 E1. destruct (decide (D1 = D)) as [-> | Hne];
    [|rewrite Hother in E1 by done; by apply Hwf].
  rewrite E' in E1. injection E1 as <-.
  assert (forall m k S,
            (forall k S, m !! k = Some S -> is_tracking_name k = true /\ S <> ∅) ->
            add_params (extract url) m !! k = Some S ->
            is_tracking_name k = true /\ S <> ∅) as Hparams.
  { intros m k S Hm Hk.
    destruct (extract url !! k) as [v|] eqn:Ev.
    - rewrite (add_params_lookup_Some _ _ _ v) in Hk by done.
      injection Hk as <-. split.
      + by apply (extract_tracking_params_lookup parse_qs url k v).
      + apply (non_empty_inhabited_L v). apply elem_of_union_r.
        by apply elem_of_singleton.
    - rewrite add_params_lookup_None in Hk by done. by apply Hm. }
  destruct Hd' as [(camp & -> & _ & Hc) | [(d & E & ->) | (d & E & ->)]].
  - split; [|split; [|split; [|split]]]; simpl.
    + eexists. split; [done|]. apply normalize_aware.
    + apply (non_empty_inhabited_L url). by apply elem_of_singleton.
    + intros u Hu. by apply elem_of_singleton in Hu as ->.
    + destruct Hc as [-> | (d & E & ->)]; [done|]. apply (Hwf _ _ E).
    + intros k S. apply Hparams. intros k' S' Hk'. by rewrite lookup_empty in Hk'.
  - destruct (Hwf _ _ E) as ((t & Ht & Ha) & Hne & Hurls & Hcamp & Hps).
    split; [|split; [|split; [|split]]]; simpl.
    + rewrite Ht. simpl. eexists. split; [done|]. apply normalize_aware.
    + apply (non_empty_inhabited_L url). apply elem_of_union_r.
      by apply elem_of_singleton.
    + intros u Hu. apply elem_of_union in Hu as [Hu | Hu]; [by apply Hurls|].
      by apply elem_of_singleton in Hu as ->.
    + done.
    + intros k S. by apply Hparams.
  - destruct (Hwf _ _ E) as ((t & Ht & Ha) & Hne & Hurls & Hcamp & Hps).
    split; [|split; [|split; [|split]]]; simpl; [|done..].
    rewrite Ht. simpl. eexists. split; [done|]. apply normalize_aware.
Qed.

Lemma scan_parts_invariant (P : state -> Prop) :
  (forall content ts sender st url,
     P st -> P (scan_url content ts sender st url)) ->
  forall parts st, P st -> P (scan_parts st parts).
Proof.
  intros Hstep parts. induction parts as [|[[[content ts] sender] urls] parts IH];
    intros st Hst; [done|].
  unfold scan_parts. cbn [foldl fst snd]. apply IH.
  unfold Scanner.scan_part. revert st Hst.
  induction urls as [|url urls IHu]; intros st Hst; [done|].
  cbn [foldl]. by apply IHu, Hstep.
Qed.

(** X5: in every state the scanner reaches, each entry has a click-id set of
    its own: the sets are allocated and no two domains hold the same set
    object. *)
Theorem scanner_shares_no_click_id_set
  (parts : list (string * datetime * string * list string)) :
  separated (scan_parts init parts).
Proof.
  apply (scan_parts_invariant separated).
  - intros content ts sender st url. apply scan_url_separated.
  - apply init_separated.
Qed.

(** X6: scanning a URL changes nothing of what the ledger holds for any other
    domain than the URL's own, click ids included, whatever was scanned
    before. *)
Theorem scanning_a_url_leaves_other_domains
  (parts : list (string * datetime * string * list string))
  (content : string) (ts : datetime) (sender url D : string) :
  D <> UrlParse.netloc (UrlParse.urlparse url) ->
  view (scan_url content ts sender (scan_parts init parts) url) D
  = view (scan_parts init parts) D.
Proof.
  intros Hne. apply scan_url_frame; [|done].
  apply (scan_parts_invariant separated).
  - intros content' ts' sender' st url'. apply scan_url_separated.
  - apply init_separated.
Qed.

(** X4: every entry the scanner has written has an aware timestamp and at
    least one URL; all its URLs have the entry's key as their network
    location; its tracking parameters have names that match a tracking
    pattern and non-empty value sets; and its campaign ids are empty, as
    nothing ever writes them. *)
Theorem scanned_entries_are_well_formed
  (parts : list (string * datetime * string * list string)) :
  map_Forall well_formed (domain_tracking (scan_parts init parts)).
Proof.
  apply (scan_parts_invariant
           (fun st => map_Forall well_formed (domain_tracking st))).
  - intros content ts sender st url. apply scan_url_well_formed.
  - apply map_Forall_empty.
Qed.

End ScanInvariants.

Section Monotone.
Variable local_tz : Z.

Abbreviation update := (update_domain_tracking local_tz).
Abbreviation norm := (normalize local_tz).

Lemma entry_le_refl d t : latest_timestamp d = Some t -> entry_le d d.
Proof. intros Ht. exists t, t. split; [done|]. split; [done|]. by split; [lia|]. Qed.

Lemma entry_le_trans d1 d2 d3 : entry_le d1 d2 -> entry_le d2 d3 -> entry_le d1 d3.
Proof.
  intros (t1 & t2 & H1 & H2 & Hle & Hsame) (t2' & t3 & H2' & H3 & Hle' & Hsame').
  rewrite H2 in H2'. injection H2' as <-.
  exists t1, t3. split; [done|]. split; [done|]. split; [lia|].
  intros Heq. destruct Hsame as [Hs Hu]; [lia|].
  destruct Hsame' as [Hs' Hu']; [lia|]. split; [congruence | by etrans].
Qed.

Lemma update_entry_le st domain url tp ts sender cl D d :
  ledger_ok st ->
  domain_tracking st !! D = Some d ->
  exists d', domain_tracking (update st domain url tp ts sender cl) !! D = Some d'
             /\ entry_le d d'.
Proof.
  intros Hok E. destruct (Hok _ _ E) as (t & Ht & Ha).
  destruct (decide (domain = D)) as [-> | Hne].
  - destruct (Z.lt_trichotomy (utc (norm ts)) (utc (norm t)))
      as [H | [H | H]].
    + rewrite (normalize_id local_tz t Ha) in H.
      rewrite (update_older local_tz _ _ _ _ _ _ _ _ _ E Ht Ha H).
      exists d. split; [done | by eapply entry_le_refl].
    + rewrite (update_tie local_tz _ _ _ _ _ _ _ _ _ E Ht H). simpl.
      rewrite lookup_insert_eq. eexists. split; [done|].
      exists t, t. split; [done|]. simpl. rewrite Ht. simpl.
      rewrite (normalize_id local_tz t Ha). split; [done|]. split; [lia|].
      intros _. split; [done | apply union_subseteq_l].
    + rewrite (update_newer local_tz _ _ _ _ _ _ _ _ _ E Ht H). simpl.
      rewrite lookup_insert_eq. eexists. split; [done|].
      rewrite (normalize_id local_tz t Ha) in H.
      exists t, (norm ts). split; [done|]. split; [done|]. split; [lia|].
      intros Heq. lia.
  - rewrite update_other by done. exists d. split; [done|].
    by eapply entry_le_refl.
Qed.

(** X7: on a ledger whose timestamps are aware, further observations never
    remove an entry and never move its timestamp back; and as long as the
    timestamp denotes the same instant, the sender stays and no URL is
    dropped. *)
Theorem entries_only_move_forward (st : state) (os : list observation)
  (D : string) (d : domain_data) :
  ledger_ok st ->
  domain_tracking st !! D = Some d ->
  exists d', domain_tracking (reconcile_all local_tz st os) !! D = Some d'
             /\ entry_le d d'.
Proof.
  intros Hok E. induction os as [|o os IH] using rev_ind.
  - exists d. split; [done|]. destruct (Hok _ _ E) as (t & Ht & _).
    by eapply entry_le_refl.
  - destruct IH as (d1 & E1 & Hle). rewrite reconcile_all_snoc.
    destruct (update_entry_le (reconcile_all local_tz st os) (obs_domain o)
                (obs_url o) (obs_tracking_params o) (obs_timestamp o)
                (obs_sender o) (obs_click_ids o) D d1)
      as (d2 & E2 & Hle2); [by apply reconcile_all_ok | done |].
    exists d2. split; [done|]. by eapply entry_le_trans.
Qed.

End Monotone.

Lemma ascii_lower_idem c : Py.ascii_lower (Py.ascii_lower c) = Py.ascii_lower c.
Proof. destruct c as [[] [] [] [] [] [] [] []]; reflexivity. Qed.

Lemma lower_idem s : Py.lower (Py.lower s) = Py.lower s.
Proof.
  induction s as [|c s IH]; [done|]. cbn [Py.lower].
  by rewrite ascii_lower_idem, IH.
Qed.

(** X17: [is_promotional_link] does not see letter case: it gives the same
    answer on the URL and the content as on their lowercased forms. *)
Theorem is_promotional_link_ignores_case (url content : string) :
  is_promotional_link (Py.lower url) (Py.lower content)
  = is_promotional_link url content.
Proof. unfold is_promotional_link. by rewrite !lower_idem. Qed.

(** *** The rows of the interchange file *)

Lemma insert_desc_perm x l : insert_desc x l ≡ₚ x :: l.
Proof.
  induction l as [|y l IH]; [done|]. simpl.
  destruct (sort_key x <? sort_key y); [|done].
  rewrite IH. apply Permutation_swap.
Qed.

Lemma sorted_desc_perm l : sorted_desc l ≡ₚ l.
Proof.
  induction l as [|x l IH]; [done|]. unfold sorted_desc in *. simpl.
  by rewrite insert_desc_perm, IH.
Qed.

Lemma insert_desc_sorted x l :
  StronglySorted not_before l -> StronglySorted not_before (insert_desc x l).
Proof.
  induction 1 as [|y l Hs IH Hall]; simpl.
  - constructor; [constructor | constructor].
  - destruct (Z.ltb_spec (sort_key x) (sort_key y)) as [Hlt | Hge].
    + constructor; [done|]. rewrite List.Forall_forall. intros z Hz.
      apply list_elem_of_In in Hz. rewrite insert_desc_perm in Hz.
      apply elem_of_cons in Hz as [-> | Hz]; [unfold not_before; lia|].
      rewrite List.Forall_forall in Hall. by apply Hall, list_elem_of_In.
    + constructor; [by constructor|]. rewrite List.Forall_forall. intros z Hz.
      apply list_elem_of_In, elem_of_cons in Hz as [-> | Hz]; [done|].
      rewrite List.Forall_forall in Hall. apply list_elem_of_In, Hall in Hz.
      unfold not_before in *. lia.
Qed.

Lemma sorted_desc_sorted l : StronglySorted not_before (sorted_desc l).
Proof.
  induction l as [|x l IH]; [constructor|]. by apply insert_desc_sorted.
Qed.

Lemma filter_all {A} (P : A -> Prop) `{!forall x, Decision (P x)}
  (l : list A) :
  Forall P l -> filter P l = l.
Proof.
  induction 1 as [|x l Hx _ IH]; [done|].
  by rewrite filter_cons_True, IH.
Qed.

Section ExporterFacts.
Variable isoformat : datetime -> string.
Variable iter_set : gset string -> list string.
Variable ledger_items : gmap string domain_data -> list (string * domain_data).
Variable params_items
  : gmap string (gset string) -> list (string * gset string).

Abbreviation export_row :=
  (Scanner.export_row isoformat iter_set params_items).
Abbreviation save_to_csv :=
  (Scanner.save_to_csv isoformat iter_set ledger_items params_items).

Lemma export_rows h (l : list (string * domain_data)) :
  Forall2 (fun item row => export_row h item = Some row)
    (filter (fun item => is_Some (latest_timestamp item.2)) l)
    (omap (export_row h) l).
Proof.
  induction l as [|item l IH]; [constructor|].
  rewrite filter_cons. cbn [omap list_omap].
  unfold Scanner.export_row at 2.
  destruct (latest_timestamp item.2) as [t|] eqn:Ht.
  - rewrite decide_True by eauto. constructor; [|done].
    unfold Scanner.export_row. by rewrite Ht.
  - rewrite decide_False by (by intros [? ?]). done.
Qed.

Lemma export_row_domain h item row :
  export_row h item = Some row -> Domain row = item.1.
Proof.
  unfold Scanner.export_row. destruct (latest_timestamp item.2); [|done].
  by intros [= <-].
Qed.

(** X8: on a ledger whose entries have aware timestamps, as the scanner
    leaves it, and in whatever order the dict hands out its items,
    [save_to_csv] writes exactly one row for every entry, so no domain
    twice, and the rows stand in the order of the entries' timestamps, the
    latest first. *)
Theorem rows_are_the_entries_latest_first (st : state) :
  (forall m, ledger_items m ≡ₚ map_to_list m) ->
  ledger_ok st ->
  exists items,
    items ≡ₚ map_to_list (domain_tracking st)
    /\ StronglySorted not_before items
    /\ Forall2 (fun item row => export_row (heap st) item = Some row)
         items (save_to_csv st)
    /\ NoDup (Domain <$> save_to_csv st).
Proof.
  intros Hitems Hok. set (l := ledger_items (domain_tracking st)).
  assert (l ≡ₚ map_to_list (domain_tracking st)) as Hl by apply Hitems.
  assert (filter (fun item : string * domain_data =>
                    is_Some (latest_timestamp item.2)) (sorted_desc l)
          = sorted_desc l) as Hall.
  { apply filter_all, Forall_forall. intros [D d] Hin.
    rewrite sorted_desc_perm, Hl in Hin. apply elem_of_map_to_list in Hin.
    destruct (Hok _ _ Hin) as (t & Ht & _). simpl. by rewrite Ht. }
  pose proof (export_rows (heap st) (sorted_desc l)) as Hrows.
  rewrite Hall in Hrows.
  change (omap (export_row (heap st)) (sorted_desc l))
    with (save_to_csv st) in Hrows.
  exists (sorted_desc l).
  split; [by rewrite sorted_desc_perm|].
  split; [apply sorted_desc_sorted|]. split; [done|].
  assert (Domain <$> save_to_csv st = (sorted_desc l).*1) as ->.
  { revert Hrows. generalize (save_to_csv st). generalize (sorted_desc l).
    induction 1 as [|item row items rows Hrow _ IH]; [done|].
    rewrite !fmap_cons, IH. f_equal. by eapply export_row_domain. }
  rewrite sorted_desc_perm, Hl. apply NoDup_fst_map_to_list.
Qed.

End ExporterFacts.

(** *** Instances for the scanner *)

Lemma scanning_a_url_leaves_other_domains_witness :
  view
    (Scanner.scan_url 0 (fun _ => ∅) (fun _ _ => []) "" sample_time
       "deals@b.com"
       (scan_parts 0 (fun _ => ∅) (fun _ _ => []) init
          [("", sample_time, "news@a.com", ["http://shop.a.com/x"])])
       "http://shop.b.com/y")
    "shop.a.com"
  = view
      (scan_parts 0 (fun _ => ∅) (fun _ _ => []) init
         [("", sample_time, "news@a.com", ["http://shop.a.com/x"])])
      "shop.a.com".
Proof.
  apply (scanning_a_url_leaves_other_domains 0 (fun _ => ∅) (fun _ _ => [])
           [("", sample_time, "news@a.com", ["http://shop.a.com/x"])]
           "" sample_time "deals@b.com" "http://shop.b.com/y" "shop.a.com").
  intros H. vm_compute in H. discriminate H.
Defined.

Lemma entries_only_move_forward_witness :
  exists d',
    domain_tracking (reconcile_all sample_zone sample_ledger [sample_older])
      !! "a.com" = Some d'
    /\ entry_le
         (replaced sample_zone ∅ (obs_url sample_first)
            (obs_tracking_params sample_first) (obs_timestamp sample_first)
            (obs_sender sample_first) (obs_click_ids sample_first))
         d'.
Proof.
  apply (entries_only_move_forward sample_zone sample_ledger [sample_older]
           "a.com").
  - apply update_ok, init_ok.
  - unfold sample_ledger, reconcile.
    rewrite update_fresh by apply lookup_empty. apply lookup_insert_eq.
Defined.

Lemma rows_are_the_entries_latest_first_witness :
  exists items,
    items ≡ₚ map_to_list (domain_tracking sample_ledger)
    /\ StronglySorted not_before items
    /\ Forall2
         (fun item row =>
            export_row (fun _ => "2023-11-14T22:13:20+00:00") elements
              map_to_list (heap sample_ledger) item = Some row)
         items
         (save_to_csv (fun _ => "2023-11-14T22:13:20+00:00") elements
            map_to_list map_to_list sample_ledger)
    /\ NoDup
         (Domain <$> save_to_csv (fun _ => "2023-11-14T22:13:20+00:00")
                       elements map_to_list map_to_list sample_ledger).
Proof.
  apply (rows_are_the_entries_latest_first
           (fun _ => "2023-11-14T22:13:20+00:00") elements map_to_list
           map_to_list sample_ledger).
  - intros m. reflexivity.
  - apply update_ok, init_ok.
Defined.

End ScannerFacts.

(** ** The visitor *)

Module VisitorFacts.

Import Visitor.

Local Open Scope nat_scope.

(** *** The store only grows *)

Lemma domain_visited_app visited rows d :
  domain_visited (visited ++ rows) d
  = domain_visited visited d || domain_visited rows d.
Proof. unfold domain_visited. apply existsb_app. Qed.

Lemma domain_visited_mono visited rows d :
  domain_visited visited d = true -> domain_visited (visited ++ rows) d = true.
Proof. intros H. by rewrite domain_visited_app, H. Qed.

Lemma domain_visited_row visited d ts s at_ :
  domain_visited (visited ++ [row_of d ts s at_]) d = true.
Proof.
  rewrite domain_visited_app. unfold domain_visited at 2. simpl.
  rewrite String.eqb_refl. apply orb_true_r.
Qed.

Lemma appended_app tr1 tr2 : appended (tr1 ++ tr2) = appended tr1 ++ appended tr2.
Proof. unfold appended. apply flat_map_app. Qed.

Lemma dispatched_app tr1 tr2 :
  dispatched (tr1 ++ tr2) = dispatched tr1 ++ dispatched tr2.
Proof. unfold dispatched. apply flat_map_app. Qed.

Lemma dispatched_no_gather tr :
  Forall (fun e => is_gather e = false) tr -> dispatched tr = [].
Proof.
  induction 1 as [|e tr He _ IH]; [done|].
  unfold dispatched in *. simpl. rewrite IH. by destruct e.
Qed.

(** *** One step of a coroutine *)

Lemma start_step_trace visited url ts page evs visited' t' :
  start_step visited url ts page evs visited' t' ->
  Forall (fun e => is_gather e = false) evs
  /\ visited' = visited ++ appended evs.
Proof.
  destruct 1; simpl; rewrite ?app_nil_r; split; try done;
    repeat constructor.
Qed.

Lemma resume_step_trace visited t evs visited' t' :
  resume_step visited t evs visited' t' ->
  Forall (fun e => is_gather e = false) evs
  /\ visited' = visited ++ appended evs.
Proof.
  destruct 1; simpl; rewrite ?app_nil_r; split; try done;
    repeat constructor.
Qed.

Lemma pool_step_trace visited pool evs visited' pool' :
  pool_step visited pool evs visited' pool' ->
  Forall (fun e => is_gather e = false) evs
  /\ visited' = visited ++ appended evs.
Proof.
  destruct 1; [by eapply start_step_trace | by eapply resume_step_trace].
Qed.

Lemma gather_trace visited pool tr visited' :
  gather visited pool tr visited' ->
  Forall (fun e => is_gather e = false) tr
  /\ visited' = visited ++ appended tr.
Proof.
  induction 1 as [visited pool _ | visited pool evs visited1 pool1 tr visited2
                   Hstep _ [IH1 IH2]].
  - by rewrite app_nil_r.
  - destruct (pool_step_trace _ _ _ _ _ Hstep) as [H1 H2].
    split; [by apply Forall_app|].
    by rewrite IH2, H2, appended_app, (assoc_L (++)).
Qed.

Lemma start_step_progress visited url ts page evs visited' t' :
  start_step visited url ts page evs visited' t' ->
  progress url ts page evs visited' t' /\ own_appends url ts evs.
Proof.
  destruct 1; unfold progress, own_appends; (split; [|intros r Hr]).
  - left. split; [done|].
    split; [apply list_elem_of_In; simpl; tauto | apply domain_visited_row].
  - apply list_elem_of_In in Hr. simpl in Hr.
    destruct Hr as [Hr | [Hr | []]]; [|discriminate]. injection Hr as <-. eauto.
  - left. split; [done|]. split; [by left | done].
  - apply list_elem_of_In in Hr. simpl in Hr.
    destruct Hr as [Hr | []]. discriminate.
  - right. by split.
  - apply list_elem_of_In in Hr. simpl in Hr.
    destruct Hr as [Hr | []]. discriminate.
Qed.

Lemma resume_step_progress visited t evs visited' t' :
  resume_step visited t evs visited' t' ->
  progress (task_url t) (task_ts t) (task_page t) evs visited' t'
  /\ own_appends (task_url t) (task_ts t) evs.
Proof.
  destruct 1; unfold progress, own_appends; simpl; (split; [|intros r Hr]);
    try (right; by split);
    try (left; split; [done|];
         split; [apply list_elem_of_In; simpl; tauto
                | apply domain_visited_row]);
    apply list_elem_of_In in Hr; simpl in Hr; try done;
    destruct Hr as [Hr | [Hr | []]]; try discriminate;
    injection Hr as <-; eauto.
Qed.

Lemma pool_step_inv visited pool evs visited' pool' :
  pool_step visited pool evs visited' pool' ->
  exists pre t post t',
    pool = pre ++ t :: post /\ pool' = pre ++ t' :: post
    /\ t <> Returned
    /\ progress (task_url t) (task_ts t) (task_page t) evs visited' t'
    /\ own_appends (task_url t) (task_ts t) evs.
Proof.
  destruct 1 as [pre post url ts page evs visited' t' _ Hs
                | pre post t evs visited' t' _ Hr].
  - exists pre, (Created url ts page), post, t'.
    split; [done|]. split; [done|]. split; [done|].
    exact (start_step_progress _ _ _ _ _ _ _ Hs).
  - exists pre, t, post, t'. split; [done|]. split; [done|].
    split; [by destruct Hr | exact (resume_step_progress _ _ _ _ _ Hr)].
Qed.

(** Every coroutine handed to [gather] returns before [gather] does, and
    the store then has a row for its domain. *)
Lemma gather_returns visited pool tr visited' :
  gather visited pool tr visited' ->
  forall t, t ∈ pool -> t <> Returned ->
    EvReturn (task_url t) (task_page t) ∈ tr
    /\ domain_visited visited' (get_domain (task_url t)) = true.
Proof.
  induction 1 as [visited pool Hall | visited pool evs visited1 pool1 tr
                   visited2 Hstep Hrest IH]; intros t Ht Hnr.
  - rewrite Forall_forall in Hall. by destruct (Hnr (Hall t Ht)).
  - destruct (pool_step_inv _ _ _ _ _ Hstep)
      as (pre & t0 & post & t0' & -> & -> & Hnr0 & Hprog & _).
    destruct (gather_trace _ _ _ _ Hrest) as [_ Hgrow].
    assert (t ∈ pre ++ t0' :: post \/ t = t0) as [Hin | ->].
    { rewrite !elem_of_app, !elem_of_cons in *. tauto. }
    + destruct (IH t Hin Hnr) as [H1 H2].
      split; [apply elem_of_app; by right | done].
    + destruct Hprog as [(-> & Hev & Hdom) | (Hnr' & Hu & _ & Hp)].
      * split; [apply elem_of_app; by left|].
        rewrite Hgrow. by apply domain_visited_mono.
      * destruct (IH t0') as [H1 H2];
          [apply elem_of_app; right; by left | done |].
        rewrite Hu, Hp in H1. rewrite Hu in H2.
        split; [apply elem_of_app; by right | done].
Qed.

(** *** [gather] returns *)

Lemma fresh_started_started t : fresh_started t -> started t.
Proof. intros [-> | (? & ? & ? & ? & ->)]; exact I. Qed.

Lemma finish_all post : forall pre visited,
  Forall (fun t => t = Returned) pre ->
  Forall fresh_started post ->
  exists tr visited', gather visited (pre ++ post) tr visited'.
Proof.
  induction post as [|t post IH]; intros pre visited Hpre Hpost.
  - exists [], visited. apply gather_done. by rewrite app_nil_r.
  - apply Forall_cons in Hpost as [Ht Hpost].
    destruct Ht as [-> | (url & ts & at_ & page & ->)].
    + destruct (IH (pre ++ [Returned]) visited) as (tr & visited' & Hg);
        [apply Forall_app; split; [done | by constructor] | done |].
      exists tr, visited'. by rewrite <- (assoc_L (++)) in Hg.
    + destruct (IH (pre ++ [Returned])
                  (visited ++ [row_of (get_domain url) ts failed at_]))
        as (tr & visited' & Hg);
        [apply Forall_app; split; [done | by constructor] | done |].
      rewrite <- (assoc_L (++)) in Hg. simpl in Hg.
      eexists _, visited'. eapply gather_step; [|exact Hg].
      apply pool_resume; [|apply goto_failed].
      apply Forall_app. split.
      * eapply Forall_impl; [exact Hpre|]. by intros ? ->.
      * constructor; [exact I|].
        eapply Forall_impl; [exact Hpost | apply fresh_started_started].
Qed.

Lemma start_all (b : list (string * string * nat)) : forall pre visited,
  Forall fresh_started pre ->
  exists tr visited', gather visited (pre ++ (new_task <$> b)) tr visited'.
Proof.
  induction b as [|[[url ts] page] b IH]; intros pre visited Hpre.
  - simpl. rewrite app_nil_r.
    by apply (finish_all pre [] visited).
  - assert (Forall started pre) as Hst.
    { eapply Forall_impl; [exact Hpre | apply fresh_started_started]. }
    simpl. unfold new_task at 1. simpl.
    destruct (should_skip_url url) eqn:Hskip;
      [|destruct (domain_visited visited (get_domain url)) eqn:Hseen].
    + destruct (IH (pre ++ [Returned])
                  (visited ++ [row_of (get_domain url) ts skipped EmptyString]))
        as (tr & visited' & Hg);
        [apply Forall_app; split; [done | constructor; [by left | done]]|].
      rewrite <- (assoc_L (++)) in Hg. simpl in Hg.
      eexists _, visited'. eapply gather_step; [|exact Hg].
      apply pool_start; [done | by apply start_skip].
    + destruct (IH (pre ++ [Returned]) visited) as (tr & visited' & Hg);
        [apply Forall_app; split; [done | constructor; [by left | done]]|].
      rewrite <- (assoc_L (++)) in Hg. simpl in Hg.
      eexists _, visited'. eapply gather_step; [|exact Hg].
      apply pool_start; [done | by apply start_seen].
    + destruct (IH (pre ++ [AwaitGoto url ts EmptyString page]) visited)
        as (tr & visited' & Hg);
        [apply Forall_app; split; [done | constructor; [right; eauto | done]]|].
      rewrite <- (assoc_L (++)) in Hg. simpl in Hg.
      eexists _, visited'. eapply gather_step; [|exact Hg].
      apply pool_start; [done | by apply start_goto].
Qed.

Lemma gather_exists visited (b : list (string * string * nat)) :
  exists tr visited', gather visited (new_task <$> b) tr visited'.
Proof. by apply (start_all b [] visited). Qed.

(** *** The batches of a run *)

Lemma batch_at_items W urls_data i :
  (fun a : string * string * nat => (a.1.1, a.1.2)) <$> batch_at W urls_data i
  = take W (drop i urls_data).
Proof.
  unfold batch_at. apply list_eq. intros j.
  rewrite list_lookup_fmap, list_lookup_imap.
  destruct (take W (drop i urls_data) !! j) as [[u t]|]; done.
Qed.

Lemma batch_complete_gather visited b tr visited' :
  gather visited (new_task <$> b) tr visited' ->
  batch_complete visited b tr visited'.
Proof.
  intros Hg. destruct (gather_trace _ _ _ _ Hg) as [H1 H2].
  split; [done|]. split; [done|]. intros u t p Hin.
  apply (gather_returns _ _ _ _ Hg (Created u t p)); [|done].
  apply list_elem_of_fmap. by exists (u, t, p).
Qed.

Lemma run_from_exists W urls_data :
  0 < W ->
  forall n i visited, length urls_data - i <= n ->
    exists tr visited', run_from W urls_data i visited tr visited'.
Proof.
  intros HW. induction n as [|n IH]; intros i visited Hn.
  - exists [], visited. apply run_end. lia.
  - destruct (decide (length urls_data <= i)) as [Hle | Hlt].
    + exists [], visited. by apply run_end.
    + destruct (gather_exists visited (batch_at W urls_data i))
        as (tr1 & visited1 & Hg).
      destruct (IH (i + W) visited1) as (tr2 & visited2 & Hr); [lia|].
      eexists _, visited2. eapply run_batch; [lia | exact Hg | exact Hr].
Qed.

Lemma run_from_trace W urls_data i visited tr visited' :
  run_from W urls_data i visited tr visited' ->
  visited' = visited ++ appended tr
  /\ (fun a : string * string * nat => (a.1.1, a.1.2)) <$> dispatched tr
     = drop i urls_data.
Proof.
  induction 1 as [i visited Hle | i visited tr1 visited1 tr2 visited2 Hlt Hg
                   _ [IH1 IH2]].
  - split; [by rewrite app_nil_r | by rewrite drop_ge].
  - destruct (gather_trace _ _ _ _ Hg) as [Hng Hgrow].
    assert (appended (if i + W <? length urls_data then [EvDelay] else []) = []
            /\ dispatched (if i + W <? length urls_data then [EvDelay] else [])
               = []) as [Ha Hd].
    { by destruct (i + W <? length urls_data). }
    split.
    + change (EvGather i (batch_at W urls_data i) :: ?l)
        with ([EvGather i (batch_at W urls_data i)] ++ l).
      rewrite !appended_app, Ha. simpl.
      by rewrite IH1, Hgrow, (assoc_L (++)).
    + change (EvGather i (batch_at W urls_data i) :: ?l)
        with ([EvGather i (batch_at W urls_data i)] ++ l).
      rewrite !dispatched_app, Hd, (dispatched_no_gather tr1 Hng). simpl.
      rewrite app_nil_r, fmap_app, batch_at_items, IH2.
      by rewrite <- drop_drop, take_drop.
Qed.

(** *** The loader *)

Lemma select_url_ok visited ts acc piece :
  selection_ok visited acc -> selection_ok visited (select_url visited ts acc piece).
Proof.
  intros (Hnd & Hseen & Hnew). unfold select_url.
  destruct (Py.startswith (Py.strip piece) "http"); [|done].
  destruct (bool_decide (get_domain (Py.strip piece) ∈ acc.1)) eqn:Hd;
    [done|]. simpl.
  destruct (domain_visited visited (get_domain (Py.strip piece))) eqn:Hv;
    [done|]. simpl.
  apply bool_decide_eq_false in Hd.
  unfold selection_ok. simpl. rewrite fmap_app. simpl. split; [|split].
  - apply NoDup_app. split; [done|]. split; [|apply NoDup_singleton].
    intros d Hin Hd'. apply list_elem_of_singleton in Hd' as ->.
    by apply Hd, Hseen.
  - intros d. rewrite elem_of_union, elem_of_singleton, elem_of_app,
      list_elem_of_singleton, Hseen. tauto.
  - apply Forall_app. split; [done | by constructor].
Qed.

Lemma load_row_ok visited acc row :
  selection_ok visited acc -> selection_ok visited (load_row visited acc row).
Proof.
  unfold load_row. destruct (Latest_URLs row) as [cell|]; [|done].
  generalize (Py.split cell ";"). intros pieces. revert acc.
  induction pieces as [|piece pieces IH]; intros acc Hok; [done|].
  simpl. by apply IH, select_url_ok.
Qed.

Lemma load_ok visited df :
  NoDup ((fun p : string * string => get_domain p.1) <$> load visited df)
  /\ Forall (fun p : string * string =>
               domain_visited visited (get_domain p.1) = false)
       (load visited df).
Proof.
  assert (forall acc, selection_ok visited acc ->
            selection_ok visited (foldl (load_row visited) acc df)) as H.
  { induction df as [|row df IH]; intros acc Hok; [done|].
    simpl. by apply IH, load_row_ok. }
  destruct (H (∅, [])) as (H1 & _ & H3).
  - split; [constructor|]. split; [|constructor].
    intros d. simpl. split; intros Hd; [set_solver | by inversion Hd].
  - done.
Qed.

(** Whatever the interchange file and the frame hold, the pairs handed to
    [visit_url] in a run are those the loader selected, each once; no two
    of them have the same domain, and none has a domain that the frame had
    as a [str] when the run began.  With at least one page a run exists. *)
Lemma run_dispatches_the_selection (W : nat) (visited : store)
  (df : list input_row) :
  (0 < W -> exists tr visited', run W visited df tr visited')
  /\ forall tr visited', run W visited df tr visited' ->
       (fun a : string * string * nat => (a.1.1, a.1.2)) <$> dispatched tr
       = load visited df
       /\ NoDup ((fun a : string * string * nat => get_domain a.1.1)
                   <$> dispatched tr)
       /\ Forall (fun a : string * string * nat =>
                    domain_visited visited (get_domain a.1.1) = false)
            (dispatched tr).
Proof.
  split.
  - intros HW. unfold run.
    apply (run_from_exists W _ HW (length (load visited df))). lia.
  - intros tr visited' Hrun.
    destruct (run_from_trace _ _ _ _ _ _ Hrun) as [_ Hd].
    rewrite drop_0 in Hd. destruct (load_ok visited df) as [Hnd Hnew].
    rewrite <- Hd in Hnd, Hnew. rewrite <- list_fmap_compose in Hnd.
    split; [done|]. split; [done|].
    by rewrite Forall_fmap in Hnew.
Qed.

(** *** Five URLs on two pages *)

Lemma run_from_inv W urls_data i visited tr visited' :
  run_from W urls_data i visited tr visited' ->
  (length urls_data <= i /\ tr = [] /\ visited' = visited)
  \/ (i < length urls_data
      /\ exists tr1 visited1 tr2,
           gather visited (new_task <$> batch_at W urls_data i) tr1 visited1
           /\ run_from W urls_data (i + W) visited1 tr2 visited'
           /\ tr = EvGather i (batch_at W urls_data i) :: tr1
                   ++ (if i + W <? length urls_data then [EvDelay] else [])
                   ++ tr2).
Proof.
  destruct 1 as [i visited Hle | i visited tr1 visited1 tr2 visited2 Hlt Hg Hr].
  - by left.
  - right. split; [done|]. by exists tr1, visited1, tr2.
Qed.

(** *** Rejected URLs *)

Lemma gather_skips visited pool tr visited' :
  gather visited pool tr visited' ->
  forall u t p, Created u t p ∈ pool -> should_skip_url u = true ->
    exists at_, EvAppend (row_of (get_domain u) t skipped at_) ∈ tr.
Proof.
  induction 1 as [visited pool Hall | visited pool evs visited1 pool1 tr
                   visited2 Hstep Hrest IH]; intros u t p Hin Hskip.
  - rewrite Forall_forall in Hall. by specialize (Hall _ Hin).
  - destruct Hstep as [pre post url ts page evs visited1 t' Hst Hs
                      | pre post t0 evs visited1 t' Hst Hr].
    + apply elem_of_app in Hin as [Hin | Hin];
        [|apply elem_of_cons in Hin as [Heq | Hin]].
      * destruct (IH u t p) as [at_ Hat]; [set_solver | done |].
        exists at_. apply elem_of_app. by right.
      * injection Heq as -> -> ->.
        destruct Hs as [at_ _ | Hns _ | at_ Hns _]; [|congruence..].
        exists at_. apply elem_of_app. left. by left.
      * destruct (IH u t p) as [at_ Hat]; [set_solver | done |].
        exists at_. apply elem_of_app. by right.
    + rewrite Forall_forall in Hst. by destruct (Hst _ Hin).
Qed.

Lemma gather_gotos visited pool tr visited' :
  gather visited pool tr visited' ->
  forall u p, EvGoto u p ∈ tr -> should_skip_url u = false.
Proof.
  induction 1 as [visited pool Hall | visited pool evs visited1 pool1 tr
                   visited2 Hstep Hrest IH]; intros u p Hin.
  - by inversion Hin.
  - apply elem_of_app in Hin as [Hin | Hin]; [|by eapply IH].
    destruct Hstep as [pre post url ts page evs visited1 t' _ Hs
                      | pre post t0 evs visited1 t' _ Hr].
    + destruct Hs; apply list_elem_of_In in Hin; simpl in Hin;
        intuition congruence.
    + destruct Hr; apply list_elem_of_In in Hin; simpl in Hin;
        intuition congruence.
Qed.

Lemma run_from_gotos W urls_data i visited tr visited' :
  run_from W urls_data i visited tr visited' ->
  forall u p, EvGoto u p ∈ tr -> should_skip_url u = false.
Proof.
  induction 1 as [i visited Hle | i visited tr1 visited1 tr2 visited2 Hlt Hg
                   _ IH]; intros u p Hin.
  - by inversion Hin.
  - apply elem_of_cons in Hin as [Heq | Hin]; [done|].
    apply elem_of_app in Hin as [Hin | Hin]; [by eapply gather_gotos|].
    apply elem_of_app in Hin as [Hin | Hin]; [|by eapply IH].
    destruct (i + W <? length urls_data); [|by inversion Hin].
    apply list_elem_of_singleton in Hin. done.
Qed.

(** Every batch of a run has a segment of its own in the trace, between
    its [gather] and the pacing delay before the next one. *)
Lemma run_from_batches W urls_data i visited tr visited' :
  run_from W urls_data i visited tr visited' ->
  forall k b, EvGather k b ∈ tr ->
    exists pre seg post visited_a visited_b,
      tr = pre ++ EvGather k b :: seg ++ post
      /\ gather visited_a (new_task <$> b) seg visited_b
      /\ visited_a = visited ++ appended pre
      /\ (post = []
          \/ exists b' post', post = EvDelay :: EvGather (k + W) b' :: post').
Proof.
  induction 1 as [i visited Hle | i visited tr1 visited1 tr2 visited2 Hlt Hg
                   Hrest IH]; intros k b Hin.
  - by inversion Hin.
  - destruct (gather_trace _ _ _ _ Hg) as [Hng Hgrow].
    apply elem_of_cons in Hin as [Heq | Hin].
    + injection Heq as -> ->.
      exists [], tr1, ((if i + W <? length urls_data then [EvDelay] else [])
                       ++ tr2), visited, visited1.
      split; [done|]. split; [done|]. split; [by rewrite app_nil_r|].
      apply run_from_inv in Hrest
        as [(Hle & -> & _) | (Hlt' & ? & ? & ? & _ & _ & ->)].
      * left. destruct (Nat.ltb_spec (i + W) (length urls_data)); [lia|done].
      * right. destruct (Nat.ltb_spec (i + W) (length urls_data)); [|lia].
        eauto.
    + apply elem_of_app in Hin as [Hin | Hin].
      { rewrite Forall_forall in Hng. by specialize (Hng _ Hin). }
      apply elem_of_app in Hin as [Hin | Hin].
      { destruct (i + W <? length urls_data); [|by inversion Hin].
        by apply list_elem_of_singleton in Hin. }
      destruct (IH k b Hin)
        as (pre & seg & post & va & vb & -> & Hseg & -> & Hpost).
      exists (EvGather i (batch_at W urls_data i) :: tr1
              ++ (if i + W <? length urls_data then [EvDelay] else [])
              ++ pre), seg, post, (visited1 ++ appended pre), vb.
      split; [simpl; by rewrite <- !app_assoc|]. split; [done|].
      split; [|done].
      change (EvGather i (batch_at W urls_data i) :: ?l)
        with ([EvGather i (batch_at W urls_data i)] ++ l).
      rewrite !appended_app, Hgrow. simpl.
      destruct (i + W <? length urls_data); simpl;
        by rewrite <- !(assoc_L (++)).
Qed.

(** The sample run is a run. *)
Lemma sample_run : run 1 [] sample_file sample_trace sample_store.
Proof.
  unfold run.
  change (load [] sample_file)
    with [("http://a.com/", "2023-11-14T22:13:20+00:00");
          ("http://b.com/x.png", "2023-11-14T22:13:20+00:00")].
  set (urls_data := [("http://a.com/", "2023-11-14T22:13:20+00:00");
                     ("http://b.com/x.png", "2023-11-14T22:13:20+00:00")]).
  set (row_a := row_of "a.com" "2023-11-14T22:13:20+00:00" failed sample_clock).
  set (row_b := row_of "b.com" "2023-11-14T22:13:20+00:00" skipped sample_clock).
  change sample_trace
    with (EvGather 0 (batch_at 1 urls_data 0)
          :: [EvGoto "http://a.com/" 0; EvAppend row_a;
              EvReturn "http://a.com/" 0]
          ++ (if 0 + 1 <? length urls_data then [EvDelay] else [])
          ++ (EvGather 1 (batch_at 1 urls_data 1)
              :: [EvAppend row_b; EvReturn "http://b.com/x.png" 0]
              ++ (if 1 + 1 <? length urls_data then [EvDelay] else [])
              ++ [])).
  apply (run_batch 1 urls_data 0 [] _ [row_a]).
  - simpl. lia.
  - change [EvGoto "http://a.com/" 0; EvAppend row_a;
            EvReturn "http://a.com/" 0]
      with ([EvGoto "http://a.com/" 0]
            ++ [EvAppend row_a; EvReturn "http://a.com/" 0] ++ []).
    apply (gather_step [] _ _ []
             ([] ++ [AwaitGoto "http://a.com/" "2023-11-14T22:13:20+00:00"
                       sample_clock 0])).
    + apply (pool_start [] [] []); [constructor|].
      apply start_goto; vm_compute; reflexivity.
    + apply (gather_step [] _ _ ([] ++ [row_a]) ([] ++ [Returned])).
      * apply (pool_resume [] [] []); [repeat constructor|].
        apply (goto_failed [] "http://a.com/").
      * apply gather_done. by repeat constructor.
  - apply (run_batch 1 urls_data 1 _ _ sample_store).
    + simpl. lia.
    + change [EvAppend row_b; EvReturn "http://b.com/x.png" 0]
        with ([EvAppend row_b; EvReturn "http://b.com/x.png" 0] ++ []).
      apply (gather_step _ _ _ ([row_a] ++ [row_b]) ([] ++ [Returned])).
      * apply (pool_start _ [] []); [constructor|].
        apply (start_skip _ "http://b.com/x.png"). vm_compute. reflexivity.
      * apply gather_done. by repeat constructor.
    + apply run_end. simpl. lia.
Qed.

(** A URL that is handed to [visit_url] and that the filter rejects is
    never navigated; its [skipped] row is appended in the trace of its own
    batch, after that batch is dispatched and before the next one is.  The
    frame ends with a row for its domain, so that the loader, given this
    frame, selects no URL of that domain. *)
Lemma rejected_url_in_its_batch (W : nat) (visited : store)
  (df : list input_row) (tr : list event) (visited' : store)
  (k : nat) (b : list (string * string * nat)) (u t : string) (p : nat) :
  run W visited df tr visited' ->
  EvGather k b ∈ tr ->
  (u, t, p) ∈ b ->
  should_skip_url u = true ->
  (exists pre seg post at_,
     tr = pre ++ EvGather k b :: seg ++ post
     /\ Forall (fun e => is_gather e = false) seg
     /\ (post = []
         \/ exists b' post', post = EvDelay :: EvGather (k + W) b' :: post')
     /\ EvAppend (row_of (get_domain u) t skipped at_) ∈ seg)
  /\ (forall p', EvGoto u p' ∉ tr)
  /\ domain_visited visited' (get_domain u) = true
  /\ (forall df' item, item ∈ load visited' df' ->
        get_domain item.1 <> get_domain u).
Proof.
  intros Hrun Hk Hin Hskip. unfold run in Hrun.
  destruct (run_from_batches _ _ _ _ _ _ Hrun k b Hk)
    as (pre & seg & post & va & vb & Htr & Hseg & Hva & Hpost).
  destruct (gather_trace _ _ _ _ Hseg) as [Hng Hvb].
  assert (Created u t p ∈ new_task <$> b) as Hc.
  { apply list_elem_of_fmap. by exists (u, t, p). }
  destruct (gather_skips _ _ _ _ Hseg u t p Hc Hskip) as [at_ Hat].
  assert (domain_visited visited' (get_domain u) = true) as Hdom.
  { destruct (run_from_trace _ _ _ _ _ _ Hrun) as [-> _].
    rewrite Htr. change (EvGather k b :: ?l) with ([EvGather k b] ++ l).
    rewrite !appended_app, !domain_visited_app.
    assert (domain_visited (appended seg) (get_domain u) = true) as ->.
    { clear -Hat. induction seg as [|e seg IH]; [by inversion Hat|].
      apply elem_of_cons in Hat as [<- | Hat].
      - simpl. unfold domain_visited. simpl. by rewrite String.eqb_refl.
      - change (e :: seg) with ([e] ++ seg).
        rewrite appended_app, domain_visited_app, (IH Hat).
        apply orb_true_r. }
    by rewrite !orb_true_r. }
  split; [by exists pre, seg, post, at_|]. split; [|split; [done|]].
  - intros p' Hg. pose proof (run_from_gotos _ _ _ _ _ _ Hrun u p' Hg).
    congruence.
  - intros df' item Hitem Heq.
    destruct (load_ok visited' df') as [_ Hnew].
    rewrite Forall_forall in Hnew. specialize (Hnew _ Hitem). simpl in Hnew.
    congruence.
Qed.

(** C6 as stated does not hold.  In the sample run the rejected URL of the
    second batch gets its [skipped] row after the navigation of the first
    batch was issued, and the rejected URL that shares its domain with an
    earlier URL of the file is never handed to [visit_url], so no [skipped]
    row is written for it. *)
Lemma skipped_row_after_a_navigation :
  run 1 [] sample_file sample_trace sample_store
  /\ should_skip_url "http://b.com/x.png" = true
  /\ skips_precede_visits sample_trace = false
  /\ should_skip_url "http://a.com/y.png" = true
  /\ skipped_recorded sample_store (get_domain "http://a.com/y.png") = false.
Proof.
  split; [exact sample_run|]. repeat split; vm_compute; reflexivity.
Qed.

(** *** Static assets *)

Lemma endswith_extension_is_skipped url ext :
  In ext skip_extensions -> Py.endswith url ext = true ->
  should_skip_url url = true.
Proof.
  intros Hext Hend. unfold should_skip_url.
  assert (Py.endswith_any url skip_extensions = true) as ->; [|done].
  unfold Py.endswith_any. apply existsb_exists. eauto.
Qed.

(** C3 fails on the code: the extension is looked for at the end of the
    whole URL as written, not at the end of its path.  The URL of the
    specification is rejected; the same path followed by a query string, or
    written with a capital extension, is admitted. *)
Theorem png_before_a_query_is_admitted :
  should_skip_url "http://cdn.example.com/a.png" = true
  /\ UrlParse.path (UrlParse.urlparse "http://cdn.example.com/a.png?x=1")
     = "/a.png"
  /\ should_skip_url "http://cdn.example.com/a.png?x=1" = false
  /\ UrlParse.path (UrlParse.urlparse "http://cdn.example.com/a.PNG")
     = "/a.PNG"
  /\ should_skip_url "http://cdn.example.com/a.PNG" = false.
Proof. repeat split; vm_compute; reflexivity. Qed.

(** *** The rows of a batch *)

(** Every row appended under a [gather] is the row of one of its tasks. *)
Lemma gather_rows visited pool tr visited' :
  gather visited pool tr visited' ->
  forall r, EvAppend r ∈ tr ->
    exists t s at_, t ∈ pool /\ t <> Returned
      /\ r = row_of (get_domain (task_url t)) (task_ts t) s at_.
Proof.
  induction 1 as [visited pool Hall | visited pool evs visited1 pool1 tr
                   visited2 Hstep Hrest IH]; intros r Hin.
  - by inversion Hin.
  - destruct (pool_step_inv _ _ _ _ _ Hstep)
      as (pre & t0 & post & t0' & -> & -> & Hnr0 & Hprog & Hown).
    apply elem_of_app in Hin as [Hin | Hin].
    + destruct (Hown r Hin) as (s & at_ & ->).
      exists t0, s, at_. split; [apply elem_of_app; right; by left | by split].
    + destruct (IH r Hin) as (t1 & s & at_ & Ht1 & Hnr & ->).
      apply elem_of_app in Ht1 as [Ht1 | Ht1];
        [|apply elem_of_cons in Ht1 as [-> | Ht1]].
      * exists t1, s, at_. split; [apply elem_of_app; by left | by split].
      * destruct Hprog as [(-> & _) | (_ & Hu & Hts & _)]; [done|].
        exists t0, s, at_. split; [apply elem_of_app; right; by left|].
        split; [done|]. by rewrite Hu, Hts.
      * exists t1, s, at_.
        split; [apply elem_of_app; right; by right | by split].
Qed.

Lemma domain_visited_elem rows d :
  domain_visited rows d = true <-> exists r, r ∈ rows /\ domain r = d.
Proof.
  unfold domain_visited. rewrite existsb_exists. split.
  - intros (r & Hin & Heq). apply String.eqb_eq in Heq.
    exists r. split; [by apply list_elem_of_In | done].
  - intros (r & Hin & <-). exists r.
    split; [by apply list_elem_of_In | apply String.eqb_refl].
Qed.

Lemma appended_elem tr r : r ∈ appended tr <-> EvAppend r ∈ tr.
Proof.
  unfold appended. rewrite list_elem_of_In, in_flat_map. split.
  - intros (e & He & Hr). destruct e; simpl in Hr; try done.
    destruct Hr as [<- | []]. by apply list_elem_of_In.
  - intros Hin. exists (EvAppend r).
    split; [by apply list_elem_of_In | by left].
Qed.

(** The rows of a batch are rows of its items. *)
Lemma batch_rows visited b seg visited' r :
  gather visited (new_task <$> b) seg visited' ->
  EvAppend r ∈ seg ->
  exists u t p s at_, (u, t, p) ∈ b /\ r = row_of (get_domain u) t s at_.
Proof.
  intros Hg Hr.
  destruct (gather_rows _ _ _ _ Hg r Hr) as (t1 & s & at_ & Hin & _ & ->).
  apply list_elem_of_fmap in Hin as ([[u t] p] & -> & Hin).
  exists u, t, p, s, at_. by split.
Qed.

Lemma same_domain_same_item (b : list (string * string * nat)) a1 a2 :
  NoDup ((fun a : string * string * nat => get_domain a.1.1) <$> b) ->
  a1 ∈ b -> a2 ∈ b -> get_domain a1.1.1 = get_domain a2.1.1 -> a1 = a2.
Proof.
  intros Hnd H1 H2 Heq.
  apply list_elem_of_lookup in H1 as [i Hi], H2 as [j Hj].
  assert (i = j) as ->; [|congruence].
  apply (NoDup_lookup _ i j (get_domain a1.1.1) Hnd).
  - by rewrite list_lookup_fmap, Hi.
  - by rewrite list_lookup_fmap, Hj, Heq.
Qed.

(** An item whose domain is neither in the store nor shared with another
    item of its batch gets a row of its own. *)
Lemma batch_own_rows visited b seg visited' :
  gather visited (new_task <$> b) seg visited' ->
  NoDup ((fun a : string * string * nat => get_domain a.1.1) <$> b) ->
  Forall (fun a : string * string * nat =>
            domain_visited visited (get_domain a.1.1) = false) b ->
  own_rows b seg.
Proof.
  intros Hg Hnd Hnew u t p Hin.
  destruct (batch_complete_gather _ _ _ _ Hg) as (_ & Hgrow & Hall).
  destruct (Hall u t p Hin) as [_ Hdom].
  rewrite Forall_forall in Hnew. specialize (Hnew _ Hin). simpl in Hnew.
  rewrite Hgrow, domain_visited_app, Hnew in Hdom. simpl in Hdom.
  apply domain_visited_elem in Hdom as (r & Hr & Hd).
  apply appended_elem in Hr.
  destruct (batch_rows _ _ _ _ _ Hg Hr) as (u' & t' & p' & s & at_ & Hin' & ->).
  simpl in Hd.
  assert ((u', t', p') = (u, t, p)) as [= -> -> ->]
    by (by apply (same_domain_same_item b)).
  by exists s, at_.
Qed.

(** A batch leaves the domains of other items out of the store. *)
Lemma unvisited_after_batch visited b seg visited' d :
  gather visited (new_task <$> b) seg visited' ->
  domain_visited visited d = false ->
  (forall a : string * string * nat, a ∈ b -> get_domain a.1.1 <> d) ->
  domain_visited visited' d = false.
Proof.
  intros Hg Hnew Hother.
  destruct (gather_trace _ _ _ _ Hg) as [_ ->].
  rewrite domain_visited_app, Hnew. simpl.
  destruct (domain_visited (appended seg) d) eqn:Hd; [|done].
  apply domain_visited_elem in Hd as (r & Hr & Hd).
  apply appended_elem in Hr.
  destruct (batch_rows _ _ _ _ _ Hg Hr) as (u & t & p & s & at_ & Hin & ->).
  by destruct (Hother _ Hin).
Qed.

(** C4: with two pages and five pairs every run consists of three batches
    of two, two and one items, the j-th item of a batch on page j mod 2,
    with a pacing delay between them.  A batch is dispatched only after the
    whole trace of the batch before it: there every coroutine has returned
    and the store has a row for the domain of every item, which for
    admitted pairs is a row the item appended itself.  Such a run
    exists. *)
Theorem five_urls_on_two_pages (visited : store)
  (p0 p1 p2 p3 p4 : string * string) :
  let urls_data := [p0; p1; p2; p3; p4] in
  let b0 := [(p0.1, p0.2, 0); (p1.1, p1.2, 1)] in
  let b1 := [(p2.1, p2.2, 0); (p3.1, p3.2, 1)] in
  let b2 := [(p4.1, p4.2, 0)] in
  (exists tr visited', run_from 2 urls_data 0 visited tr visited')
  /\ forall tr visited', run_from 2 urls_data 0 visited tr visited' ->
       exists seg0 seg1 seg2 visited1 visited2,
         tr = EvGather 0 b0 :: seg0
              ++ EvDelay :: EvGather 2 b1 :: seg1
              ++ EvDelay :: EvGather 4 b2 :: seg2
         /\ batch_complete visited b0 seg0 visited1
         /\ batch_complete visited1 b1 seg1 visited2
         /\ batch_complete visited2 b2 seg2 visited'
         /\ (admitted visited urls_data ->
             own_rows b0 seg0 /\ own_rows b1 seg1 /\ own_rows b2 seg2).
Proof.
  intros urls_data b0 b1 b2. split.
  - apply (run_from_exists 2 urls_data (Nat.lt_0_succ 1) 5). simpl. lia.
  - intros tr visited' Hrun.
    apply run_from_inv in Hrun
      as [[Hle _] | (_ & seg0 & visited1 & tr1 & Hg0 & Hrun & ->)];
      [simpl in Hle; lia|].
    apply run_from_inv in Hrun
      as [[Hle _] | (_ & seg1 & visited2 & tr2 & Hg1 & Hrun & ->)];
      [simpl in Hle; lia|].
    apply run_from_inv in Hrun
      as [[Hle _] | (_ & seg2 & visited3 & tr3 & Hg2 & Hrun & ->)];
      [simpl in Hle; lia|].
    apply run_from_inv in Hrun
      as [(_ & -> & ->) | (Hlt & _)]; [|simpl in Hlt; lia].
    change (batch_at 2 urls_data 0) with b0 in *.
    change (batch_at 2 urls_data (0 + 2)) with b1 in *.
    change (batch_at 2 urls_data (0 + 2 + 2)) with b2 in *.
    exists seg0, seg1, seg2, visited1, visited2.
    split; [by rewrite app_nil_r|].
    split; [by apply batch_complete_gather|].
    split; [by apply batch_complete_gather|].
    split; [by apply batch_complete_gather|].
    intros [Hnd Hnew]. subst urls_data. simpl in Hnd.
    rewrite !Forall_cons in Hnew.
    destruct Hnew as (Hn0 & Hn1 & Hn2 & Hn3 & Hn4 & _).
    rewrite !NoDup_cons, !not_elem_of_cons in Hnd.
    destruct Hnd as ((H01 & H02 & H03 & H04 & _) & (H12 & H13 & H14 & _)
                     & (H23 & H24 & _) & (H34 & _) & _).
    assert (forall d, (forall a : string * string * nat, a ∈ b0 ->
                         get_domain a.1.1 <> d)
                      <-> get_domain p0.1 <> d /\ get_domain p1.1 <> d) as Hb0.
    { intros d. subst b0. split.
      - intros H. split; [apply (H (p0.1, p0.2, 0)); by left|].
        apply (H (p1.1, p1.2, 1)). right. by left.
      - intros [H0 H1] a Ha. apply elem_of_cons in Ha as [-> | Ha]; [done|].
        apply elem_of_cons in Ha as [-> | Ha]; [done | by inversion Ha]. }
    assert (forall d, (forall a : string * string * nat, a ∈ b1 ->
                         get_domain a.1.1 <> d)
                      <-> get_domain p2.1 <> d /\ get_domain p3.1 <> d) as Hb1.
    { intros d. subst b1. split.
      - intros H. split; [apply (H (p2.1, p2.2, 0)); by left|].
        apply (H (p3.1, p3.2, 1)). right. by left.
      - intros [H0 H1] a Ha. apply elem_of_cons in Ha as [-> | Ha]; [done|].
        apply elem_of_cons in Ha as [-> | Ha]; [done | by inversion Ha]. }
    assert (forall d, get_domain p0.1 <> d -> get_domain p1.1 <> d ->
                      domain_visited visited d = false ->
                      domain_visited visited1 d = false) as Hv1.
    { intros d H0 H1 Hd.
      apply (unvisited_after_batch _ _ _ _ d Hg0 Hd). by apply Hb0. }
    assert (forall d, get_domain p2.1 <> d -> get_domain p3.1 <> d ->
                      domain_visited visited1 d = false ->
                      domain_visited visited2 d = false) as Hv2.
    { intros d H2 H3 Hd.
      apply (unvisited_after_batch _ _ _ _ d Hg1 Hd). by apply Hb1. }
    split; [|split].
    + apply (batch_own_rows _ _ _ _ Hg0).
      * subst b0. simpl. rewrite !NoDup_cons, !not_elem_of_cons.
        split; [split; [done | by inversion 1]|].
        split; [by inversion 1 | constructor].
      * subst b0. by repeat constructor.
    + apply (batch_own_rows _ _ _ _ Hg1).
      * subst b1. simpl. rewrite !NoDup_cons, !not_elem_of_cons.
        split; [split; [done | by inversion 1]|].
        split; [by inversion 1 | constructor].
      * subst b1. repeat constructor; simpl; by apply Hv1.
    + apply (batch_own_rows _ _ _ _ Hg2).
      * subst b2. simpl. rewrite !NoDup_cons.
        split; [by inversion 1 | constructor].
      * subst b2. repeat constructor; simpl.
        apply Hv2; [done | done |]. by apply Hv1.
Qed.
(** *** Pages, batches and rows of a run *)

Lemma batch_at_pages W urls_data i :
  (fun a : string * string * nat => a.2) <$> batch_at W urls_data i
  = seq 0 (length (batch_at W urls_data i))
  /\ length (batch_at W urls_data i) = Nat.min W (length urls_data - i).
Proof.
  unfold batch_at. rewrite length_imap, length_take, length_drop. split; [|done].
  apply list_eq. intros j. rewrite list_lookup_fmap, list_lookup_imap.
  destruct (take W (drop i urls_data) !! j) as [p|] eqn:E; simpl.
  - pose proof (lookup_lt_Some _ _ _ E) as Hj. rewrite length_take in Hj.
    rewrite lookup_seq_lt by (rewrite length_drop in Hj; lia).
    simpl. f_equal. apply Nat.mod_small. lia.
  - apply lookup_ge_None in E. rewrite length_take, length_drop in E.
    symmetry. apply lookup_seq_ge. lia.
Qed.

Lemma run_from_gathers W urls_data i visited tr visited' :
  run_from W urls_data i visited tr visited' ->
  forall k b, EvGather k b ∈ tr ->
    b = batch_at W urls_data k /\ i <= k < length urls_data.
Proof.
  induction 1 as [i visited Hle | i visited tr1 visited1 tr2 visited2 Hlt Hg
                   Hrest IH]; intros k b Hin.
  - by inversion Hin.
  - destruct (gather_trace _ _ _ _ Hg) as [Hng _].
    apply elem_of_cons in Hin as [Heq | Hin].
    + injection Heq as -> ->. split; [done | lia].
    + apply elem_of_app in Hin as [Hin | Hin].
      { rewrite Forall_forall in Hng. by specialize (Hng _ Hin). }
      apply elem_of_app in Hin as [Hin | Hin].
      { destruct (i + W <? length urls_data); [|by inversion Hin].
        by apply list_elem_of_singleton in Hin. }
      destruct (IH k b Hin) as [-> Hk]. split; [done | lia].
Qed.

(** X11: every batch a run dispatches is the slice of the selected pairs at its
    index, it is not empty and has at most [W] items, and its items get
    the pages 0, 1, 2, ... in order: no two coroutines of one
    [asyncio.gather] are given the same page. *)
Theorem batch_pages_are_distinct W visited df tr visited' k b :
  run W visited df tr visited' ->
  EvGather k b ∈ tr ->
  b = batch_at W (load visited df) k
  /\ (fun a : string * string * nat => a.2) <$> b = seq 0 (length b)
  /\ 0 < length b <= W.
Proof.
  intros Hrun Hin.
  destruct (run_from_gathers _ _ _ _ _ _ Hrun k b Hin) as [-> Hk].
  destruct (batch_at_pages W (load visited df) k) as [Hp Hl].
  split; [done|]. split; [done|]. rewrite Hl.
  assert (0 < W); [|lia].
  destruct W; [|lia]. exfalso.
  (* W = 0: no run passes a batch *)
  clear -Hrun Hk. unfold run in Hrun.
  assert (forall i v t v', run_from 0 (load visited df) i v t v' ->
            length (load visited df) <= i) as H.
  { induction 1; [done|]. by rewrite Nat.add_0_r in *. }
  apply H in Hrun. lia.
Qed.

Lemma count_batches_app tr1 tr2 :
  count_batches (tr1 ++ tr2) = count_batches tr1 + count_batches tr2.
Proof. unfold count_batches. by rewrite filter_app, length_app. Qed.

Lemma count_delays_app tr1 tr2 :
  count_delays (tr1 ++ tr2) = count_delays tr1 + count_delays tr2.
Proof. unfold count_delays. by rewrite filter_app, length_app. Qed.

Lemma gather_no_batches visited pool tr visited' :
  gather visited pool tr visited' -> count_batches tr = 0 /\ count_delays tr = 0.
Proof.
  induction 1 as [| visited pool evs visited1 pool1 tr visited2 Hstep _ [IH1 IH2]];
    [done|].
  rewrite count_batches_app, count_delays_app, IH1, IH2.
  destruct Hstep as [? ? ? ? ? ? ? ? _ Hs | ? ? ? ? ? ? _ Hr];
    [destruct Hs | destruct Hr]; done.
Qed.

Lemma ceil_step n W : 0 < W -> 0 < n -> (n + W - 1) / W = S ((n - W + W - 1) / W).
Proof.
  intros HW Hn. destruct (decide (W <= n)) as [Hle | Hgt].
  - replace (n + W - 1) with ((n - W + W - 1) + 1 * W) by lia.
    rewrite Nat.div_add by lia. lia.
  - replace (n - W + W - 1) with (W - 1) by lia.
    rewrite (Nat.div_small (W - 1)) by lia.
    symmetry. apply (Nat.div_unique _ _ _ (n - 1)); lia.
Qed.

Lemma run_from_counts W urls_data i visited tr visited' :
  0 < W ->
  run_from W urls_data i visited tr visited' ->
  count_batches tr = (length urls_data - i + W - 1) / W
  /\ count_delays tr = count_batches tr - 1.
Proof.
  intros HW. induction 1 as [i visited Hle | i visited tr1 visited1 tr2 visited2
                              Hlt Hg Hrest [IH1 IH2]].
  - split; [|done]. replace (length urls_data - i) with 0 by lia.
    simpl. symmetry. apply Nat.div_small. lia.
  - destruct (gather_no_batches _ _ _ _ Hg) as [Hb Hd].
    change (EvGather i (batch_at W urls_data i) :: ?l)
      with ([EvGather i (batch_at W urls_data i)] ++ l).
    rewrite !count_batches_app, !count_delays_app, Hb, Hd, IH2, IH1.
    rewrite (ceil_step (length urls_data - i) W) by lia.
    replace (length urls_data - (i + W)) with (length urls_data - i - W) by lia.
    destruct (Nat.ltb_spec (i + W) (length urls_data)) as [Hmore | Hlast].
    + split; [done|]. 
      assert (0 < (length urls_data - i - W + W - 1) / W).
      { apply Nat.div_str_pos. lia. }
      change (count_batches [EvDelay]) with 0.
      change (count_delays [EvDelay]) with 1.
      change (count_batches [EvGather i (batch_at W urls_data i)]) with 1.
      change (count_delays [EvGather i (batch_at W urls_data i)]) with 0.
      lia.
    + replace (length urls_data - i - W + W - 1) with (W - 1) by lia.
      rewrite (Nat.div_small (W - 1)) by lia. done.
Qed.

Lemma start_step_rows visited url ts page evs visited' t' :
  start_step visited url ts page evs visited' t' ->
  step_rows (get_domain url, ts) evs t'.
Proof.
  destruct 1; unfold step_rows.
  - right. eexists. by split.
  - left. split; [done | by left].
  - left. split; [done | right; by split].
Qed.

Lemma resume_step_rows visited t evs visited' t' :
  resume_step visited t evs visited' t' ->
  step_rows (task_key t) evs t'.
Proof.
  destruct 1; unfold step_rows, task_key; simpl.
  - right. eexists. by split.
  - left. split; [done | right; by split].
  - right. eexists. by split.
  - left. split; [done | right; by split].
  - right. eexists. by split.
Qed.

Lemma pool_step_rows visited pool evs visited' pool' :
  pool_step visited pool evs visited' pool' ->
  exists pre t post t',
    pool = pre ++ t :: post /\ pool' = pre ++ t' :: post
    /\ is_returned t = false /\ step_rows (task_key t) evs t'.
Proof.
  destruct 1 as [pre post url ts page evs visited' t' _ Hs
                | pre post t evs visited' t' _ Hr].
  - exists pre, (Created url ts page), post, t'.
    split; [done|]. split; [done|]. split; [done|].
    exact (start_step_rows _ _ _ _ _ _ _ Hs).
  - exists pre, t, post, t'. split; [done|]. split; [done|].
    split; [by destruct Hr | exact (resume_step_rows _ _ _ _ _ Hr)].
Qed.

Lemma pending_app l1 l2 : pending (l1 ++ l2) = pending l1 ++ pending l2.
Proof. unfold pending. apply filter_app. Qed.

Lemma pending_cons t l :
  pending (t :: l) = if is_returned t then pending l else t :: pending l.
Proof.
  unfold pending. rewrite filter_cons. destruct (is_returned t) eqn:E.
  - by rewrite decide_False by done.
  - by rewrite decide_True by done.
Qed.

(** Every coroutine appends at most one row. *)
Lemma gather_rows_bounded visited pool tr visited' :
  gather visited pool tr visited' ->
  row_key <$> appended tr ⊆+ task_key <$> pending pool.
Proof.
  induction 1 as [visited pool Hall | visited pool evs visited1 pool1 tr
                   visited2 Hstep Hrest IH].
  - apply submseteq_nil_l.
  - destruct (pool_step_rows _ _ _ _ _ Hstep)
      as (pre & t & post & t' & -> & -> & Hnr & Hrows).
    rewrite appended_app, fmap_app.
    rewrite pending_app, pending_cons, Hnr, fmap_app, fmap_cons.
    rewrite pending_app, pending_cons, fmap_app in IH.
    destruct Hrows as [[-> [-> | [Hnr' Hkey]]] | (r & -> & Hkey & ->)]; simpl in *.
    + etrans; [exact IH|]. apply submseteq_app; [done|]. by apply submseteq_cons.
    + rewrite Hnr' in IH. rewrite fmap_cons, Hkey in IH. done.
    + rewrite Hkey. etrans; [apply submseteq_skip, IH|].
      by rewrite <- Permutation_middle.
Qed.

Lemma pending_new_tasks (b : list (string * string * nat)) :
  task_key <$> pending (new_task <$> b)
  = (fun a : string * string * nat => (get_domain a.1.1, a.1.2)) <$> b.
Proof.
  induction b as [|[[u t] p] b IH]; [done|].
  change (new_task <$> (u, t, p) :: b) with (Created u t p :: (new_task <$> b)).
  rewrite pending_cons. cbn [is_returned]. by rewrite !fmap_cons, IH.
Qed.

Lemma run_from_rows_bounded W urls_data i visited tr visited' :
  run_from W urls_data i visited tr visited' ->
  row_key <$> appended tr ⊆+ pair_key <$> drop i urls_data.
Proof.
  induction 1 as [i visited Hle | i visited tr1 visited1 tr2 visited2 Hlt Hg
                   Hrest IH].
  - apply submseteq_nil_l.
  - change (EvGather i (batch_at W urls_data i) :: ?l)
      with ([EvGather i (batch_at W urls_data i)] ++ l).
    rewrite !appended_app, !fmap_app.
    assert (appended (if i + W <? length urls_data then [EvDelay] else []) = [])
      as -> by (by destruct (i + W <? length urls_data)).
    simpl.
    assert (drop i urls_data
            = take W (drop i urls_data) ++ drop (i + W) urls_data) as ->.
    { by rewrite <- drop_drop, take_drop. }
    rewrite fmap_app. apply submseteq_app; [|done].
    etrans; [exact (gather_rows_bounded _ _ _ _ Hg)|].
    rewrite pending_new_tasks, <- batch_at_items, <- list_fmap_compose. done.
Qed.

Lemma batch_at_elem W urls_data i (p : string * string) :
  p ∈ take W (drop i urls_data) <->
  exists page, (p.1, p.2, page) ∈ batch_at W urls_data i.
Proof.
  rewrite <- batch_at_items, list_elem_of_fmap. split.
  - intros ([[u t] page] & -> & Hin). by exists page.
  - intros [page Hin]. exists (p.1, p.2, page). split; [by destruct p | done].
Qed.

Lemma batch_at_domains W urls_data i :
  (fun a : string * string * nat => get_domain a.1.1) <$> batch_at W urls_data i
  = (fun p : string * string => get_domain p.1) <$> take W (drop i urls_data).
Proof. rewrite <- batch_at_items, <- list_fmap_compose. done. Qed.

(** In a run over admitted pairs every pair gets a row of its own. *)
Lemma run_from_own_rows W urls_data i visited tr visited' :
  run_from W urls_data i visited tr visited' ->
  admitted visited (drop i urls_data) ->
  forall p, p ∈ drop i urls_data ->
    exists s at_, EvAppend (row_of (get_domain p.1) p.2 s at_) ∈ tr.
Proof.
  induction 1 as [i visited Hle | i visited tr1 visited1 tr2 visited2 Hlt Hg
                   Hrest IH]; intros [Hnd Hnew] p Hp.
  - rewrite drop_ge in Hp by done. by inversion Hp.
  - assert (drop i urls_data
            = take W (drop i urls_data) ++ drop (i + W) urls_data) as Hsplit.
    { by rewrite <- drop_drop, take_drop. }
    rewrite Hsplit in Hnd, Hnew, Hp.
    rewrite fmap_app in Hnd. apply NoDup_app in Hnd as (Hnd1 & Hdisj & Hnd2).
    apply Forall_app in Hnew as [Hnew1 Hnew2].
    apply elem_of_app in Hp as [Hp | Hp].
    + apply batch_at_elem in Hp as [page Hin].
      assert (own_rows (batch_at W urls_data i) tr1) as Hown.
      { apply (batch_own_rows _ _ _ _ Hg); [by rewrite batch_at_domains|].
        apply Forall_forall. intros [[u t] pg] Ha. simpl.
        rewrite Forall_forall in Hnew1.
        apply (Hnew1 (u, t)). apply batch_at_elem. by exists pg. }
      destruct (Hown _ _ _ Hin) as (s & at_ & Hrow).
      exists s, at_. right. apply elem_of_app. by left.
    + destruct (IH) with (p := p) as (s & at_ & Hrow); [|done|].
      { split; [done|]. apply Forall_forall. intros q Hq.
        rewrite Forall_forall in Hnew2.
        apply (unvisited_after_batch _ _ _ _ _ Hg (Hnew2 _ Hq)).
        intros a Ha Heq. apply (Hdisj (get_domain a.1.1)).
        - rewrite <- batch_at_domains.
          by apply (list_elem_of_fmap_2
                      (fun a : string * string * nat => get_domain a.1.1)).
        - rewrite Heq.
          by apply (list_elem_of_fmap_2
                      (fun p : string * string => get_domain p.1)). }
      exists s, at_. right. apply elem_of_app. right. apply elem_of_app. by right.
Qed.

(** X13: a run only appends to the store, and what it appends is one row for
    each selected pair and nothing else: the (domain, timestamp) pairs of
    the new rows are those of the selected pairs, up to the order in which
    the coroutines finish.  So a store in which no domain stands twice
    is left with no domain standing twice. *)
Theorem one_row_per_selected_url W visited df tr visited' :
  run W visited df tr visited' ->
  visited' = visited ++ appended tr
  /\ row_key <$> appended tr ≡ₚ pair_key <$> load visited df
  /\ (NoDup (domain <$> visited) -> NoDup (domain <$> visited')).
Proof.
  intros Hrun. unfold run in Hrun.
  destruct (run_from_trace _ _ _ _ _ _ Hrun) as [Hgrow _].
  destruct (load_ok visited df) as [Hnd Hnew].
  pose proof (run_from_rows_bounded _ _ _ _ _ _ Hrun) as Hle. rewrite drop_0 in Hle.
  assert (row_key <$> appended tr ≡ₚ pair_key <$> load visited df) as Hperm.
  { apply (anti_symm submseteq); [done|]. apply NoDup_submseteq.
    - apply (NoDup_fmap_1 fst). by rewrite <- list_fmap_compose.
    - intros k Hk. apply list_elem_of_fmap in Hk as (p & -> & Hp).
      destruct (run_from_own_rows _ _ _ _ _ _ Hrun) with (p := p)
        as (s & at_ & Hrow); [by rewrite drop_0 | by rewrite drop_0 |].
      apply appended_elem in Hrow.
      apply (list_elem_of_fmap_2 row_key) in Hrow. done. }
  split; [done|]. split; [done|]. intros Hst.
  rewrite Hgrow, fmap_app. apply NoDup_app. split; [done|].
  assert (domain <$> appended tr
          ≡ₚ (fun p : string * string => get_domain p.1) <$> load visited df)
    as Hdoms.
  { change (domain <$> appended tr) with ((fst ∘ row_key) <$> appended tr).
    rewrite (list_fmap_compose row_key fst), Hperm, <- list_fmap_compose. done. }
  split; [|by rewrite Hdoms].
  intros d Hd Hd'. rewrite Hdoms in Hd'.
  apply list_elem_of_fmap in Hd' as (p & -> & Hp).
  rewrite Forall_forall in Hnew. specialize (Hnew _ Hp). simpl in Hnew.
  apply list_elem_of_fmap in Hd as (r & Hr & Hin).
  assert (domain_visited visited (get_domain p.1) = true); [|congruence].
  apply domain_visited_elem. by exists r.
Qed.

Lemma outcome_sound_later r t evs tr :
  outcome_sound r t tr -> outcome_sound r t (evs ++ tr).
Proof.
  unfold outcome_sound. destruct (outcome r); [..|done];
    intros [H1 H2]; (split; [done|]); intros Hc; apply elem_of_app; right; auto.
Qed.

Lemma gather_outcomes visited pool tr visited' :
  gather visited pool tr visited' ->
  Forall passed pool ->
  forall r, EvAppend r ∈ tr ->
    exists t, t ∈ pool /\ is_returned t = false
      /\ row_key r = task_key t /\ outcome_sound r t tr.
Proof.
  induction 1 as [visited pool Hall | visited pool evs visited1 pool1 tr
                   visited2 Hstep Hrest IH]; intros Hpass r Hin.
  - by inversion Hin.
  - destruct Hstep as [pre post url ts page evs visited1 t' Hst Hs
                      | pre post t0 evs visited1 t' Hst Hr].
    + apply Forall_app in Hpass as [Hp1 Hp2].
      apply Forall_cons in Hp2 as [_ Hp2].
      assert (Created url ts page ∈ pre ++ Created url ts page :: post) as Hme.
      { apply elem_of_app. right. by left. }
      assert (forall t1, t1 ∈ pre ++ post ->
                t1 ∈ pre ++ Created url ts page :: post) as Hother.
      { intros t1. rewrite !elem_of_app, elem_of_cons. tauto. }
      destruct Hs as [at_ Hskip | Hns Hseen | at_ Hns Hnew].
      * apply elem_of_app in Hin as [Hin | Hin].
        -- apply list_elem_of_In in Hin. simpl in Hin.
           destruct Hin as [Hin | [Hin | []]]; [|discriminate].
           injection Hin as <-. exists (Created url ts page).
           split; [done|]. split; [done|]. split; [done|]. by split.
        -- destruct IH with (r := r) as (t1 & Ht1 & Hnr & Hk & Hs);
             [apply Forall_app; split; [done | by constructor] | done |].
           exists t1. split; [|split; [done|split; [done|]]].
           ++ rewrite !elem_of_app, elem_of_cons in Ht1.
              destruct Ht1 as [?|[->|?]]; [|done|];
                apply Hother, elem_of_app; [by left | by right].
           ++ by apply outcome_sound_later.
      * apply elem_of_app in Hin as [Hin | Hin].
        { apply list_elem_of_In in Hin. simpl in Hin.
          destruct Hin as [Hin | []]. discriminate. }
        destruct IH with (r := r) as (t1 & Ht1 & Hnr & Hk & Hs);
          [apply Forall_app; split; [done | by constructor] | done |].
        exists t1. split; [|split; [done|split; [done|]]].
        -- rewrite !elem_of_app, elem_of_cons in Ht1.
           destruct Ht1 as [?|[->|?]]; [|done|];
             apply Hother, elem_of_app; [by left | by right].
        -- by apply outcome_sound_later.
      * apply elem_of_app in Hin as [Hin | Hin].
        { apply list_elem_of_In in Hin. simpl in Hin.
          destruct Hin as [Hin | []]. discriminate. }
        destruct IH with (r := r) as (t1 & Ht1 & Hnr & Hk & Hs);
          [apply Forall_app; split; [done | by constructor] | done |].
        apply elem_of_app in Ht1 as [Ht1 | Ht1];
          [|apply elem_of_cons in Ht1 as [-> | Ht1]].
        -- exists t1. split; [apply Hother, elem_of_app; by left|].
           split; [done|]. split; [done|]. by apply outcome_sound_later.
        -- exists (Created url ts page). split; [done|]. split; [done|].
           split; [done|]. unfold outcome_sound in *. simpl in *.
           destruct (outcome r); [| |by destruct Hs];
             (split; [done|]); intros _; by left.
        -- exists t1. split; [apply Hother, elem_of_app; by right|].
           split; [done|]. split; [done|]. by apply outcome_sound_later.
    + apply Forall_app in Hpass as [Hp1 Hp2].
      apply Forall_cons in Hp2 as [Hp0 Hp2].
      assert (exists s at_,
                 (evs = [] \/ evs = [EvAppend (row_of (get_domain (task_url t0))
                                                 (task_ts t0) s at_);
                                     EvReturn (task_url t0) (task_page t0)])
                 /\ s <> skipped /\ is_returned t0 = false
                 /\ is_created t0 = false
                 /\ passed t' /\ (is_returned t' = false ->
                                  task_key t' = task_key t0
                                  /\ task_url t' = task_url t0
                                  /\ is_created t' = false))
        as (s & at_ & Hevs & Hs & Hnr0 & Hnc0 & Hp' & Hsame).
      { destruct Hr as [url ts at_ page | url ts at_ page | url ts at_ page
                       | url ts at_ page | url ts at_ page]; simpl in *.
        - exists failed, at_. split; [by right|]. by repeat split.
        - exists failed, at_. split; [by left|]. by repeat split.
        - exists failed, at_. split; [by right|]. by repeat split.
        - exists failed, at_. split; [by left|]. by repeat split.
        - exists successful, at_. split; [by right|]. by repeat split. }
      assert (should_skip_url (task_url t0) = false) as Hns.
      { destruct t0; simpl in *; done. }
      assert (t0 ∈ pre ++ t0 :: post) as Hme.
      { apply elem_of_app. right. by left. }
      apply elem_of_app in Hin as [Hin | Hin].
      * destruct Hevs as [-> | ->]; [by inversion Hin|].
        apply list_elem_of_In in Hin. simpl in Hin.
        destruct Hin as [Hin | [Hin | []]]; [|discriminate].
        injection Hin as <-. exists t0. split; [done|]. split; [done|].
        split; [done|]. unfold outcome_sound. simpl.
        destruct s; [| |done]; (split; [done|]); rewrite Hnc0; done.
      * destruct IH with (r := r) as (t1 & Ht1 & Hnr & Hk & Hso);
          [apply Forall_app; split; [done | by constructor] | done |].
        apply elem_of_app in Ht1 as [Ht1 | Ht1];
          [|apply elem_of_cons in Ht1 as [-> | Ht1]].
        -- exists t1. split; [apply elem_of_app; by left|].
           split; [done|]. split; [done|]. by apply outcome_sound_later.
        -- destruct (Hsame Hnr) as (Hkey & Hurl & Hnc').
           exists t0. split; [done|]. split; [done|].
           split; [by rewrite Hk|]. unfold outcome_sound in *.
           rewrite Hnc' in Hso. rewrite Hurl in Hso. rewrite Hnc0.
           destruct (outcome r); [| |by destruct Hso]; by split.
        -- exists t1. split; [apply elem_of_app; right; by right|].
           split; [done|]. split; [done|]. by apply outcome_sound_later.
Qed.

Lemma new_tasks_passed b : Forall passed (new_task <$> b).
Proof. apply Forall_fmap, Forall_forall. by intros [[u t] p] _. Qed.

Lemma run_from_outcomes W urls_data i visited tr visited' :
  run_from W urls_data i visited tr visited' ->
  forall r, EvAppend r ∈ tr ->
    exists u t p, (u, t, p) ∈ dispatched tr
      /\ domain r = get_domain u /\ timestamp r = t
      /\ match outcome r with
         | skipped => should_skip_url u = true
         | _ => should_skip_url u = false /\ EvGoto u p ∈ tr
         end.
Proof.
  induction 1 as [i visited Hle | i visited tr1 visited1 tr2 visited2 Hlt Hg
                   _ IH]; intros r Hin.
  - by inversion Hin.
  - apply elem_of_cons in Hin as [Heq | Hin]; [done|].
    change (EvGather i (batch_at W urls_data i) :: tr1
            ++ (if i + W <? length urls_data then [EvDelay] else []) ++ tr2)
      with ([EvGather i (batch_at W urls_data i)] ++ tr1
            ++ (if i + W <? length urls_data then [EvDelay] else []) ++ tr2).
    rewrite !dispatched_app.
    apply elem_of_app in Hin as [Hin | Hin];
      [|apply elem_of_app in Hin as [Hin | Hin]].
    + destruct (gather_outcomes _ _ _ _ Hg (new_tasks_passed _) r Hin)
        as (t0 & Ht0 & _ & Hk & Hso).
      apply list_elem_of_fmap in Ht0 as ([[u t] p] & -> & Hb).
      injection Hk as Hd Hts. exists u, t, p.
      split; [apply elem_of_app; left; simpl; by rewrite app_nil_r|].
      split; [done|]. split; [done|].
      unfold outcome_sound in Hso. simpl in Hso.
      destruct (outcome r); [| |by destruct Hso];
        destruct Hso as [Hns Hgo]; (split; [done|]);
        apply elem_of_app; right; apply elem_of_app; left; by apply Hgo.
    + destruct (i + W <? length urls_data); [|by inversion Hin].
      apply list_elem_of_singleton in Hin. done.
    + destruct (IH r Hin) as (u & t & p & Hd & Hdom & Hts & Hso).
      exists u, t, p. split; [rewrite !elem_of_app; auto|].
      split; [done|]. split; [done|].
      destruct (outcome r); [| |done]; destruct Hso as [Hns Hgo];
        (split; [done|]); rewrite !elem_of_app; auto.
Qed.

Lemma pick_app visited l1 l2 seen :
  pick visited seen (l1 ++ l2)
  = pick visited seen l1
    ++ pick visited (seen ∪ list_to_set (url_domain <$> pick visited seen l1)) l2.
Proof.
  revert seen. induction l1 as [|p l1 IH]; intros seen; simpl.
  - by rewrite union_empty_r_L.
  - destruct (negb (bool_decide (url_domain p ∈ seen))
              && negb (domain_visited visited (url_domain p))); [|apply IH].
    simpl. rewrite IH. do 2 f_equal.
    rewrite (comm_L (∪) {[url_domain p]} seen). by rewrite (assoc_L (∪)).
Qed.

Lemma foldl_select_url visited ts pieces acc :
  let sel := pick visited acc.1
               ((fun piece => (Py.strip piece, ts))
                  <$> filter (fun piece =>
                                Py.startswith (Py.strip piece) "http" = true)
                        pieces) in
  foldl (select_url visited ts) acc pieces
  = (acc.1 ∪ list_to_set (url_domain <$> sel), acc.2 ++ sel).
Proof.
  revert acc. induction pieces as [|piece pieces IH]; intros [seen urls].
  - simpl. by rewrite union_empty_r_L, app_nil_r.
  - cbn [foldl]. rewrite IH. cbv zeta. unfold select_url. rewrite filter_cons.
    destruct (decide (Py.startswith (Py.strip piece) "http" = true)) as [Hh|Hh].
    + rewrite Hh, fmap_cons. cbn [pick fst snd].
      change (get_domain (Py.strip piece))
        with (url_domain (Py.strip piece, ts)).
      destruct (negb (bool_decide (url_domain (Py.strip piece, ts) ∈ seen))
                && negb (domain_visited visited
                           (url_domain (Py.strip piece, ts))));
        cbn [fst snd]; [|done].
      rewrite <- app_assoc, fmap_cons, list_to_set_cons. cbn [app]. f_equal.
      rewrite (comm_L (∪) {[url_domain (Py.strip piece, ts)]} seen).
      by rewrite <- (assoc_L (∪)).
    + apply not_true_is_false in Hh. rewrite Hh. done.
Qed.

Lemma load_row_pick visited acc row :
  let sel := pick visited acc.1 (row_candidates row) in
  load_row visited acc row
  = (acc.1 ∪ list_to_set (url_domain <$> sel), acc.2 ++ sel).
Proof.
  unfold load_row, row_candidates. destruct (Latest_URLs row) as [cell|].
  - apply foldl_select_url.
  - destruct acc. simpl. by rewrite union_empty_r_L, app_nil_r.
Qed.

Lemma foldl_load_row visited df acc :
  let sel := pick visited acc.1 (candidates df) in
  foldl (load_row visited) acc df
  = (acc.1 ∪ list_to_set (url_domain <$> sel), acc.2 ++ sel).
Proof.
  revert acc. induction df as [|row df IH]; intros acc; simpl.
  - destruct acc. simpl. by rewrite union_empty_r_L, app_nil_r.
  - rewrite IH, load_row_pick. simpl. rewrite pick_app.
    rewrite fmap_app, list_to_set_app_L, <- app_assoc.
    by rewrite (assoc_L (∪)).
Qed.

Lemma load_pick visited df : load visited df = pick visited ∅ (candidates df).
Proof. unfold load. by rewrite foldl_load_row. Qed.

Lemma pick_elem visited l p seen :
  p ∈ pick visited seen l
  <-> exists l1 l2, l = l1 ++ p :: l2
        /\ domain_visited visited (url_domain p) = false
        /\ (url_domain p ∉ seen)
        /\ Forall (fun q => url_domain q <> url_domain p) l1.
Proof.
  revert seen. induction l as [|a l IH]; intros seen; simpl.
  - split; [by inversion 1|]. intros ([|??] & ? & ? & _); done.
  - destruct (bool_decide (url_domain a ∈ seen)) eqn:Hs; simpl;
      [apply bool_decide_eq_true in Hs | apply bool_decide_eq_false in Hs];
      [|destruct (domain_visited visited (url_domain a)) eqn:Hv; simpl].
    + rewrite IH. split.
      * intros (l1 & l2 & -> & Hnv & Hns & Hall). exists (a :: l1), l2.
        split; [done|]. split; [done|]. split; [done|].
        constructor; [|done]. intros Heq. by rewrite Heq in Hs.
      * intros ([|a' l1] & l2 & Heq & Hnv & Hns & Hall);
          injection Heq as <- ->; [done|].
        apply Forall_cons in Hall as [_ Hall]. by exists l1, l2.
    + rewrite IH. split.
      * intros (l1 & l2 & -> & Hnv & Hns & Hall). exists (a :: l1), l2.
        split; [done|]. split; [done|]. split; [done|].
        constructor; [|done]. intros Heq. rewrite Heq in Hv. congruence.
      * intros ([|a' l1] & l2 & Heq & Hnv & Hns & Hall);
          injection Heq as <- ->; [congruence|].
        apply Forall_cons in Hall as [_ Hall]. by exists l1, l2.
    + rewrite elem_of_cons, IH. split.
      * intros [-> | (l1 & l2 & -> & Hnv & Hns & Hall)].
        -- exists [], l. by repeat split.
        -- apply not_elem_of_union in Hns as [Hne Hns].
           apply not_elem_of_singleton in Hne.
           exists (a :: l1), l2. split; [done|]. split; [done|].
           split; [done|]. constructor; [congruence | done].
      * intros ([|a' l1] & l2 & Heq & Hnv & Hns & Hall);
          injection Heq as <- ->; [by left|]. right.
        apply Forall_cons in Hall as [Hne Hall]. exists l1, l2.
        split; [done|]. split; [done|]. split; [|done].
        apply not_elem_of_union. split; [|done].
        apply not_elem_of_singleton. congruence.
Qed.

Lemma pick_sublist visited l seen : sublist (pick visited seen l) l.
Proof.
  revert seen. induction l as [|a l IH]; intros seen; simpl; [constructor|].
  destruct (negb (bool_decide (url_domain a ∈ seen))
            && negb (domain_visited visited (url_domain a)));
    [apply sublist_skip | apply sublist_cons]; apply IH.
Qed.

Lemma pick_covers visited l seen p :
  p ∈ l -> domain_visited visited (url_domain p) = false ->
  url_domain p ∉ seen ->
  url_domain p ∈ url_domain <$> pick visited seen l.
Proof.
  revert seen. induction l as [|a l IH]; intros seen Hin Hnv Hns;
    [by inversion Hin|]. simpl.
  destruct (decide (url_domain a = url_domain p)) as [Heq | Hne].
  - rewrite Heq, Hnv, bool_decide_eq_false_2 by done. simpl.
    rewrite Heq. by left.
  - apply elem_of_cons in Hin as [-> | Hin]; [done|].
    destruct (negb (bool_decide (url_domain a ∈ seen))
              && negb (domain_visited visited (url_domain a))).
    + simpl. right. apply IH; [done | done |].
      apply not_elem_of_union. split; [|done].
      apply not_elem_of_singleton. congruence.
    + by apply IH.
Qed.

(** X10: the loader of [run] keeps, in file order, exactly the first candidate
    of every domain that has no row in the store: a pair is selected if and
    only if it stands in the file as a stripped [http] piece of a
    [Latest URLs] cell, its domain is not in the store, and no candidate
    before it has the same domain. *)
Theorem loader_keeps_first_url_of_each_new_domain visited df :
  sublist (load visited df) (candidates df)
  /\ forall p,
       p ∈ load visited df
       <-> exists l1 l2, candidates df = l1 ++ p :: l2
             /\ domain_visited visited (url_domain p) = false
             /\ Forall (fun q => url_domain q <> url_domain p) l1.
Proof.
  rewrite load_pick. split; [apply pick_sublist|]. intros p.
  rewrite pick_elem. split.
  - intros (l1 & l2 & H1 & H2 & _ & H3). by exists l1, l2.
  - intros (l1 & l2 & H1 & H2 & H3). exists l1, l2.
    split; [done|]. split; [done|]. split; [|done].
    apply not_elem_of_empty.
Qed.

Lemma run_records_selected W visited df tr visited' p :
  run W visited df tr visited' -> p ∈ load visited df ->
  domain_visited visited' (url_domain p) = true.
Proof.
  intros Hrun Hp. unfold run in Hrun.
  destruct (run_from_trace _ _ _ _ _ _ Hrun) as [-> _].
  destruct (run_from_own_rows _ _ _ _ _ _ Hrun) with (p := p)
    as (s & at_ & Hrow); [rewrite drop_0; apply load_ok | by rewrite drop_0 |].
  rewrite domain_visited_app. apply orb_true_iff. right.
  apply domain_visited_elem. exists (row_of (get_domain p.1) p.2 s at_).
  split; [by apply appended_elem | done].
Qed.

(** After a run the frame has a row for the domain of every [http] URL of
    the interchange file, whatever happened to the URL that stood for the
    domain (visited, failed or skipped), so that the loader, given this
    frame and the same file, selects nothing. *)
Lemma run_leaves_nothing_to_select W visited df tr visited' :
  run W visited df tr visited' ->
  (forall p, p ∈ candidates df ->
     domain_visited visited' (url_domain p) = true)
  /\ load visited' df = []
  /\ forall W2 tr2 visited2,
       run W2 visited' df tr2 visited2 -> tr2 = [] /\ visited2 = visited'.
Proof.
  intros Hrun.
  cut ((forall p, p ∈ candidates df ->
          domain_visited visited' (url_domain p) = true)
       /\ load visited' df = []).
  { intros [H1 H2]. split; [done|]. split; [done|].
    intros W2 tr2 visited2 Hrun2. unfold run in Hrun2. rewrite H2 in Hrun2.
    destruct (run_from_inv _ _ _ _ _ _ Hrun2) as [(_ & -> & ->) | [Hlt _]];
      [done | simpl in Hlt; lia]. }
  assert (forall p, p ∈ candidates df ->
            domain_visited visited' (url_domain p) = true) as Hall.
  { intros p Hp.
    destruct (domain_visited visited (url_domain p)) eqn:Hv.
    - destruct (run_from_trace _ _ _ _ _ _ Hrun) as [-> _].
      by apply domain_visited_mono.
    - pose proof (pick_covers visited _ ∅ p Hp Hv (not_elem_of_empty _)) as Hd.
      rewrite <- load_pick in Hd.
      apply list_elem_of_fmap in Hd as (q & Hq & Hin). rewrite Hq.
      by eapply run_records_selected. }
  split; [done|].
  destruct (load visited' df) as [|p l] eqn:Hl; [done|].
  assert (p ∈ load visited' df) as Hp by (rewrite Hl; by left).
  rewrite load_pick in Hp. apply pick_elem in Hp as (l1 & l2 & Hc & Hnv & _).
  rewrite Hall in Hnv; [done|]. rewrite Hc. apply elem_of_app. right. by left.
Qed.

Lemma gotos_app tr1 tr2 : gotos (tr1 ++ tr2) = gotos tr1 ++ gotos tr2.
Proof. unfold gotos. apply flat_map_app. Qed.

Lemma to_visit_app l1 l2 : to_visit (l1 ++ l2) = to_visit l1 ++ to_visit l2.
Proof. unfold to_visit. apply flat_map_app. Qed.

Lemma to_visit_cons t l : to_visit (t :: l) = to_visit [t] ++ to_visit l.
Proof. apply (to_visit_app [t] l). Qed.

Lemma gotos_elem tr u p : (u, p) ∈ gotos tr <-> EvGoto u p ∈ tr.
Proof.
  unfold gotos. rewrite list_elem_of_In, in_flat_map. split.
  - intros (e & He & Hr). destruct e; simpl in Hr; try done.
    destruct Hr as [[= <- <-] | []]. by apply list_elem_of_In.
  - intros Hin. exists (EvGoto u p).
    split; [by apply list_elem_of_In | by left].
Qed.

(** Every coroutine calls [page.goto] at most once, and only if its URL
    passes the filter. *)
Lemma gather_gotos_bounded visited pool tr visited' :
  gather visited pool tr visited' -> gotos tr ⊆+ to_visit pool.
Proof.
  induction 1 as [visited pool Hall | visited pool evs visited1 pool1 tr
                   visited2 Hstep Hrest IH].
  - apply submseteq_nil_l.
  - rewrite gotos_app.
    destruct Hstep as [pre post url ts page evs visited1 t' Hst Hs
                      | pre post t0 evs visited1 t' Hst Hr].
    + rewrite to_visit_app in IH |- *.
      rewrite (to_visit_cons _ post) in IH. rewrite (to_visit_cons _ post).
      destruct Hs as [at_ Hskip | Hns Hseen | at_ Hns Hnew]; simpl in *.
      * by rewrite Hskip.
      * rewrite Hns. simpl. etrans; [exact IH|].
        apply submseteq_app; [done|]. by apply submseteq_cons.
      * rewrite Hns. simpl.
        rewrite <- Permutation_middle. by apply submseteq_skip.
    + assert (gotos evs = [] /\ to_visit [t0] = [] /\ to_visit [t'] = [])
        as (-> & H0 & H').
      { by destruct Hr. }
      rewrite to_visit_app in IH |- *.
      rewrite (to_visit_cons _ post) in IH. rewrite (to_visit_cons _ post).
      by rewrite H0, H' in *.
Qed.

Lemma to_visit_new_tasks b : to_visit (new_task <$> b) = passing b.
Proof.
  unfold passing. induction b as [|[[u t] p] b IH]; [done|].
  rewrite fmap_cons, filter_cons.
  change (to_visit (new_task (u, t, p) :: (new_task <$> b)))
    with ((if should_skip_url u then [] else [(u, p)])
          ++ to_visit (new_task <$> b)).
  rewrite IH. cbn [fst snd].
  destruct (should_skip_url u) eqn:E.
  - by rewrite decide_False by done.
  - by rewrite decide_True by done.
Qed.

Lemma passing_app b1 b2 : passing (b1 ++ b2) = passing b1 ++ passing b2.
Proof. unfold passing. by rewrite filter_app, fmap_app. Qed.

Lemma run_from_gotos_bounded W urls_data i visited tr visited' :
  run_from W urls_data i visited tr visited' ->
  gotos tr ⊆+ passing (dispatched tr).
Proof.
  induction 1 as [i visited Hle | i visited tr1 visited1 tr2 visited2 Hlt Hg
                   _ IH]; [done|].
  destruct (gather_trace _ _ _ _ Hg) as [Hng _].
  change (EvGather i (batch_at W urls_data i) :: ?l)
    with ([EvGather i (batch_at W urls_data i)] ++ l).
  rewrite !gotos_app, !dispatched_app, !passing_app.
  rewrite (dispatched_no_gather _ Hng).
  assert (gotos (if i + W <? length urls_data then [EvDelay] else []) = []
          /\ dispatched (if i + W <? length urls_data then [EvDelay] else [])
             = []) as [-> ->].
  { by destruct (i + W <? length urls_data). }
  simpl. rewrite app_nil_r.
  apply submseteq_app; [|done].
  rewrite <- to_visit_new_tasks. exact (gather_gotos_bounded _ _ _ _ Hg).
Qed.

(** X16: in a run [page.goto] is called once for each dispatched URL that passes
    the filter, on the page the URL was assigned to, and for nothing else:
    the test of line 76 never ends a coroutine of a run, whatever the
    interleaving. *)
Theorem passing_urls_are_navigated_once W visited df tr visited' :
  run W visited df tr visited' ->
  gotos tr ≡ₚ passing (dispatched tr).
Proof.
  intros Hrun. unfold run in Hrun.
  destruct (run_from_trace _ _ _ _ _ _ Hrun) as [_ Hd]. rewrite drop_0 in Hd.
  destruct (load_ok visited df) as [Hnd Hnew].
  assert (NoDup ((fun a : string * string * nat => get_domain a.1.1)
                   <$> dispatched tr)) as Hnd'.
  { rewrite <- Hd, <- list_fmap_compose in Hnd. exact Hnd. }
  apply (anti_symm submseteq); [by eapply run_from_gotos_bounded|].
  apply NoDup_submseteq.
  - unfold passing.
    apply (NoDup_fmap_1 (fun x : string * nat => get_domain x.1)).
    rewrite <- list_fmap_compose.
    apply (sublist_NoDup _ _ Hnd'). apply fmap_sublist, sublist_filter.
  - intros [u p] Hin. unfold passing in Hin.
    apply list_elem_of_fmap in Hin as ([[u0 t] p0] & [= -> ->] & Hin).
    apply list_elem_of_filter in Hin as [Hns Hin]. simpl in Hns.
    apply gotos_elem.
    destruct (run_from_own_rows _ _ _ _ _ _ Hrun) with (p := (u0, t))
      as (s & at_ & Hrow); [rewrite drop_0; by split | |].
    { rewrite drop_0, <- Hd.
      by apply (list_elem_of_fmap_2
                  (fun a : string * string * nat => (a.1.1, a.1.2))
                  _ (u0, t, p0)). }
    destruct (run_from_outcomes _ _ _ _ _ _ Hrun _ Hrow)
      as (u' & t' & p' & Hd' & Hdom & Hts & Hso).
    simpl in Hdom, Hts, Hso.
    assert ((u0, t, p0) = (u', t', p')) as [= <- <- <-].
    { by apply (same_domain_same_item (dispatched tr)). }
    destruct s; [by destruct Hso | by destruct Hso | congruence].
Qed.

(** *** From the exporter to the loader *)

Lemma split_aux_semicolon fuel cur s :
  String.length s < fuel ->
  Py.split_aux fuel ";" cur (String ";" s)
  = cur :: Py.split_aux (fuel - 1) ";" EmptyString s.
Proof.
  intros Hf. destruct fuel as [|fuel]; [lia|]. simpl.
  by rewrite PyFacts.startswith_nil, Nat.sub_0_r.
Qed.

Lemma split_aux_other fuel cur c s :
  String.length s < fuel -> c <> ";"%char ->
  Py.split_aux fuel ";" cur (String c s)
  = Py.split_aux (fuel - 1) ";" (cur +:+ String c EmptyString) s.
Proof.
  intros Hf Hc. destruct fuel as [|fuel]; [lia|]. cbn [Py.split_aux].
  cbn [Py.startswith]. apply Ascii.eqb_neq in Hc. rewrite Ascii.eqb_sym, Hc.
  cbn [andb]. by rewrite Nat.sub_succ, Nat.sub_0_r.
Qed.

Lemma split_aux_empty fuel cur : Py.split_aux fuel ";" cur EmptyString = [cur].
Proof. by destruct fuel. Qed.

Lemma app_string_cons x (a b : string) :
  String x a +:+ b = String x (a +:+ b).
Proof. done. Qed.

Lemma app_string_assoc (a b c : string) : (a +:+ b) +:+ c = a +:+ (b +:+ c).
Proof.
  induction a as [|x a IH]; [done|]. by rewrite !app_string_cons, IH.
Qed.

Lemma app_string_nil_r (a : string) : a +:+ EmptyString = a.
Proof. induction a as [|x a IH]; [done|]. by rewrite app_string_cons, IH. Qed.

Lemma length_app_string (a b : string) :
  String.length (a +:+ b) = String.length a + String.length b.
Proof.
  induction a as [|x a IH]; [done|]. rewrite app_string_cons. simpl.
  by rewrite IH.
Qed.

(** A piece without a semicolon is read through. *)
Lemma split_aux_piece u fuel cur s :
  Py.all_of (fun c => negb (Ascii.eqb c ";")) u = true ->
  String.length (u +:+ s) < fuel ->
  Py.split_aux fuel ";" cur (u +:+ s)
  = Py.split_aux (fuel - String.length u) ";" (cur +:+ u) s.
Proof.
  revert fuel cur. induction u as [|c u IH]; intros fuel cur Hu Hf.
  - simpl. by rewrite Nat.sub_0_r, app_string_nil_r.
  - cbn [Py.all_of] in Hu. apply andb_true_iff in Hu as [Hc Hu].
    apply negb_true_iff, Ascii.eqb_neq in Hc.
    change (String c u +:+ s) with (String c (u +:+ s)) in *.
    cbn [String.length] in Hf.
    rewrite split_aux_other by (done || lia). rewrite IH by (done || lia).
    rewrite app_string_assoc. cbn [String.length]. f_equal. lia.
Qed.

Lemma split_join_aux (l : list string) (u : string) fuel cur :
  Forall (fun u => Py.all_of (fun c => negb (Ascii.eqb c ";")) u = true) (u :: l) ->
  String.length (Py.join "; " (u :: l)) < fuel ->
  Py.split_aux fuel ";" cur (Py.join "; " (u :: l))
  = (cur +:+ u) :: ((fun v => " " +:+ v) <$> l).
Proof.
  revert u fuel cur. induction l as [|v l IH]; intros u fuel cur Hall Hf.
  - apply Forall_cons in Hall as [Hu _]. cbn [Py.join] in *.
    rewrite <- (app_string_nil_r u) at 1.
    rewrite split_aux_piece by (done || by rewrite app_string_nil_r).
    by rewrite split_aux_empty.
  - apply Forall_cons in Hall as [Hu Hall].
    change (Py.join "; " (u :: v :: l))
      with (u +:+ String ";" (String " " (Py.join "; " (v :: l)))) in *.
    rewrite length_app_string in Hf. cbn [String.length] in Hf.
    rewrite split_aux_piece
      by (done || rewrite length_app_string; cbn [String.length]; lia).
    rewrite split_aux_semicolon by (cbn [String.length]; lia).
    rewrite split_aux_other by (done || lia).
    rewrite IH by (done || lia). done.
Qed.

Lemma lstrip_plain u :
  Py.all_of (fun c => negb (Py.isspace c)) u = true -> Py.lstrip u = u.
Proof.
  destruct u as [|c u]; [done|]. cbn [Py.all_of Py.lstrip].
  intros [Hc _]%andb_true_iff. apply negb_true_iff in Hc. by rewrite Hc.
Qed.

Lemma rstrip_plain u :
  Py.all_of (fun c => negb (Py.isspace c)) u = true -> Py.rstrip u = u.
Proof.
  induction u as [|c u IH]; [done|]. cbn [Py.all_of Py.rstrip].
  intros [Hc Hu]%andb_true_iff. apply negb_true_iff in Hc.
  rewrite (IH Hu), Hc. by destruct u.
Qed.

Lemma strip_plain u :
  Py.all_of (fun c => negb (Py.isspace c)) u = true ->
  Py.strip u = u /\ Py.strip (" " +:+ u) = u.
Proof.
  intros Hu. unfold Py.strip.
  change (Py.lstrip (" " +:+ u)) with (Py.lstrip u).
  by rewrite lstrip_plain, rstrip_plain.
Qed.

Lemma all_of_and p q s :
  Py.all_of (fun c => p c && q c) s = Py.all_of p s && Py.all_of q s.
Proof.
  induction s as [|c s IH]; [done|]. cbn [Py.all_of]. rewrite IH.
  destruct (p c), (q c), (Py.all_of p s), (Py.all_of q s); done.
Qed.

Lemma plain_url_spec u :
  plain_url u = true ->
  Py.startswith u "http" = true
  /\ Py.all_of (fun c => negb (Py.isspace c)) u = true
  /\ Py.all_of (fun c => negb (Ascii.eqb c ";")) u = true.
Proof.
  unfold plain_url. rewrite all_of_and.
  intros [H1 [H2 H3]%andb_true_iff]%andb_true_iff. done.
Qed.

Lemma split_joined (l : list string) :
  Forall (fun u => plain_url u = true) l ->
  Py.split (Py.join "; " l) ";"
  = match l with
    | [] => [EmptyString]
    | u :: l' => u :: ((fun v => " " +:+ v) <$> l')
    end.
Proof.
  intros Hall. destruct l as [|u l]; [done|]. unfold Py.split.
  rewrite split_join_aux; [done | | lia].
  eapply Forall_impl; [exact Hall|]. intros v Hv.
  by apply plain_url_spec in Hv as (_ & _ & ?).
Qed.

Lemma candidates_of_pieces (ts : string) (l : list string) :
  Forall (fun u => plain_url u = true) l ->
  (fun piece => (Py.strip piece, ts))
    <$> filter (fun piece => Py.startswith (Py.strip piece) "http" = true)
          ((fun v => " " +:+ v) <$> l)
  = (fun u => (u, ts)) <$> l.
Proof.
  induction 1 as [|u l Hu _ IH]; [done|].
  apply plain_url_spec in Hu as (Hh & Hs & _).
  destruct (strip_plain u Hs) as [_ Hst].
  rewrite fmap_cons, filter_cons, Hst, decide_True by done.
  by rewrite !fmap_cons, Hst, IH.
Qed.

Lemma candidates_of_joined (ts : string) (l : list string) :
  Forall (fun u => plain_url u = true) l ->
  row_candidates
    {| Visitor.Latest_URLs := Some (Py.join "; " l);
       Visitor.Latest_Timestamp := ts |}
  = (fun u => (u, ts)) <$> l.
Proof.
  intros Hall. unfold row_candidates. cbn [Visitor.Latest_URLs Visitor.Latest_Timestamp].
  rewrite split_joined by done. destruct l as [|u l]; [done|].
  apply Forall_cons in Hall as [Hu Hall].
  apply plain_url_spec in Hu as (Hh & Hs & _).
  destruct (strip_plain u Hs) as [Hst _].
  rewrite filter_cons, Hst, decide_True by done.
  by rewrite !fmap_cons, Hst, candidates_of_pieces.
Qed.

(** X9: what the scanner exports, the visitor loads: from the [Latest URLs]
    field of an exported row the loader of [run] takes the URLs of the
    entry one by one, in the order they were written, each with the row's
    timestamp, provided every URL starts with [http] and has no whitespace
    and no semicolon. *)
Theorem exported_urls_are_loaded_back
  (isoformat : Scanner.datetime -> string)
  (iter_set : gset string -> list string)
  (params_items : gmap string (gset string) -> list (string * gset string))
  (h : Scanner.heap_t)
  (item : string * Scanner.domain_data) (row : Scanner.csv_row) :
  Scanner.export_row isoformat iter_set params_items h item = Some row ->
  Forall (fun u => plain_url u = true)
    (iter_set (Scanner.latest_urls item.2)) ->
  row_candidates
    {| Visitor.Latest_URLs := Some (Scanner.Latest_URLs row);
       Visitor.Latest_Timestamp := Scanner.Latest_Timestamp row |}
  = (fun u => (u, Scanner.Latest_Timestamp row))
      <$> iter_set (Scanner.latest_urls item.2).
Proof.
  intros Hrow Hall. unfold Scanner.export_row in Hrow.
  destruct (Scanner.latest_timestamp item.2) as [t|]; [|done].
  injection Hrow as <-. cbn [Scanner.Latest_URLs Scanner.Latest_Timestamp].
  by apply candidates_of_joined.
Qed.

Lemma exported_urls_are_loaded_back_witness :
  row_candidates
    {| Visitor.Latest_URLs := Some "http://a.com/x; http://a.com/y";
       Visitor.Latest_Timestamp := "2023-11-14T22:13:20+00:00" |}
  = [("http://a.com/x", "2023-11-14T22:13:20+00:00");
     ("http://a.com/y", "2023-11-14T22:13:20+00:00")].
Proof.
  pose proof (exported_urls_are_loaded_back
           (fun _ => "2023-11-14T22:13:20+00:00")
           (fun S => if decide (S = ∅) then []
                     else ["http://a.com/x"; "http://a.com/y"])
           map_to_list ∅
           ("a.com",
            {| Scanner.latest_urls := {["http://a.com/x"; "http://a.com/y"]};
               Scanner.latest_tracking_params := ∅;
               Scanner.latest_click_ids := 0;
               Scanner.latest_source_email := "news@a.com";
               Scanner.latest_timestamp := Some Scanner.sample_time;
               Scanner.latest_campaign_ids := ∅ |})
           {| Scanner.Domain := "a.com";
              Scanner.Latest_Timestamp := "2023-11-14T22:13:20+00:00";
              Scanner.Latest_Sender := "news@a.com";
              Scanner.Latest_URLs := "http://a.com/x; http://a.com/y";
              Scanner.Latest_Tracking_Parameters := "";
              Scanner.Latest_Click_IDs := "" |}) as H.
  vm_compute in H. vm_compute. apply H.
  - reflexivity.
  - repeat constructor.
Defined.

(** *** The order of a row and its navigation *)

Lemma app_eq_cons_split {A} (l1 l2 pre post : list A) (x : A) :
  l1 ++ l2 = pre ++ x :: post ->
  (exists post1, l1 = pre ++ x :: post1 /\ post = post1 ++ l2)
  \/ (exists pre2, pre = l1 ++ pre2 /\ l2 = pre2 ++ x :: post).
Proof.
  revert pre. induction l1 as [|a l1 IH]; intros pre Heq.
  - right. by exists pre.
  - destruct pre as [|b pre]; simpl in Heq.
    + injection Heq as -> <-. left. by exists l1.
    + injection Heq as -> Heq.
      destruct (IH pre Heq) as [(post1 & -> & ->) | (pre2 & -> & ->)].
      * left. by exists post1.
      * right. by exists pre2.
Qed.

(** The rows of a pool are appended after the navigation of their
    coroutine: [pre] is the trace up to the row. *)
Lemma gather_outcomes_before visited pool tr visited' :
  gather visited pool tr visited' ->
  Forall passed pool ->
  forall pre r post, tr = pre ++ EvAppend r :: post ->
    exists t, t ∈ pool /\ is_returned t = false
      /\ row_key r = task_key t /\ outcome_sound r t pre.
Proof.
  induction 1 as [visited pool Hall | visited pool evs visited1 pool1 tr
                   visited2 Hstep Hrest IH]; intros Hpass pre r post Heq.
  - by destruct pre.
  - apply app_eq_cons_split in Heq
      as [(post1 & Hevs & ->) | (pre2 & -> & Htr)].
    + destruct Hstep as [pre0 post0 url ts page evs visited1 t' Hst Hs
                        | pre0 post0 t0 evs visited1 t' Hst Hr].
      * exists (Created url ts page).
        split; [apply elem_of_app; right; by left|]. split; [done|].
        destruct Hs as [at_ Hskip | Hns Hseen | at_ Hns Hnew];
          destruct pre as [|e1 [|e2 pre]]; try discriminate;
          try (by destruct pre).
        injection Hevs as <- _. split; [done|]. by split.
      * exists t0. split; [apply elem_of_app; right; by left|].
        apply Forall_app in Hpass as [_ Hp0].
        apply Forall_cons in Hp0 as [Hp0 _].
        destruct Hr; destruct pre as [|e1 [|e2 pre]]; try discriminate;
          try (by destruct pre);
          injection Hevs as <- _; (split; [done|]); (split; [done|]);
          by split.
    + assert (Forall passed pool1) as Hpass1.
      { destruct Hstep as [pre0 post0 url ts page evs visited1 t' Hst Hs
                          | pre0 post0 t0 evs visited1 t' Hst Hr];
          apply Forall_app in Hpass as [Hp1 Hp2];
          apply Forall_cons in Hp2 as [Hp0 Hp2];
          apply Forall_app; (split; [done|]); (constructor; [|done]);
          [destruct Hs | destruct Hr]; done. }
      specialize (IH Hpass1 pre2 r post Htr).
      destruct IH as (t1 & Ht1 & Hnr & Hk & Hso).
      destruct Hstep as [pre0 post0 url ts page evs visited1 t' Hst Hs
                        | pre0 post0 t0 evs visited1 t' Hst Hr].
      * apply elem_of_app in Ht1 as [Ht1 | Ht1];
          [|apply elem_of_cons in Ht1 as [-> | Ht1]].
        -- exists t1. split; [apply elem_of_app; by left|].
           split; [done|]. split; [done|]. by apply outcome_sound_later.
        -- exists (Created url ts page).
           split; [apply elem_of_app; right; by left|]. split; [done|].
           destruct Hs as [at_ Hskip | Hns Hseen | at_ Hns Hnew];
             [done | done |].
           split; [done|]. unfold outcome_sound in *. simpl in *.
           destruct (outcome r); [| |by destruct Hso];
             (split; [done|]); intros _; by left.
        -- exists t1. split; [apply elem_of_app; right; by right|].
           split; [done|]. split; [done|]. by apply outcome_sound_later.
      * apply elem_of_app in Ht1 as [Ht1 | Ht1];
          [|apply elem_of_cons in Ht1 as [-> | Ht1]].
        -- exists t1. split; [apply elem_of_app; by left|].
           split; [done|]. split; [done|]. by apply outcome_sound_later.
        -- exists t0. split; [apply elem_of_app; right; by left|].
           apply Forall_app in Hpass as [_ Hp0].
           apply Forall_cons in Hp0 as [Hp0 _].
           destruct Hr; try done; simpl in *;
             (split; [done|]); (split; [done|]);
             unfold outcome_sound in *; simpl in *;
             (destruct (outcome r); [| |by destruct Hso]);
             by split.
        -- exists t1. split; [apply elem_of_app; right; by right|].
           split; [done|]. split; [done|]. by apply outcome_sound_later.
Qed.

Lemma run_from_outcomes_before W urls_data i visited tr visited' :
  run_from W urls_data i visited tr visited' ->
  forall pre r post, tr = pre ++ EvAppend r :: post ->
    exists u t p, (u, t, p) ∈ dispatched pre
      /\ domain r = get_domain u /\ timestamp r = t
      /\ match outcome r with
         | skipped => should_skip_url u = true
         | _ => should_skip_url u = false /\ EvGoto u p ∈ pre
         end.
Proof.
  induction 1 as [i visited Hle | i visited tr1 visited1 tr2 visited2 Hlt Hg
                   _ IH]; intros pre r post Heq.
  - by destruct pre.
  - destruct pre as [|e pre]; [discriminate|].
    simpl in Heq. injection Heq as <- Heq.
    apply app_eq_cons_split in Heq
      as [(post1 & Htr1 & ->) | (pre2 & -> & Heq)].
    + destruct (gather_outcomes_before _ _ _ _ Hg (new_tasks_passed _)
                  pre r post1 Htr1) as (t0 & Ht0 & _ & Hk & Hso).
      apply list_elem_of_fmap in Ht0 as ([[u t] p] & -> & Hb).
      injection Hk as Hd Hts. exists u, t, p.
      split; [apply elem_of_app; by left|].
      split; [done|]. split; [done|].
      unfold outcome_sound in Hso. simpl in Hso.
      destruct (outcome r); [| |by destruct Hso];
        destruct Hso as [Hns Hgo]; (split; [done|]); right; by apply Hgo.
    + apply app_eq_cons_split in Heq
        as [(post1 & Hd & _) | (pre3 & -> & Heq)].
      { destruct (i + W <? length urls_data);
          destruct pre2 as [|? [|? ?]]; discriminate. }
      destruct (IH pre3 r post Heq) as (u & t & p & Hd & Hdom & Hts & Hso).
      exists u, t, p.
      split.
      { change (EvGather i (batch_at W urls_data i) :: ?l)
          with ([EvGather i (batch_at W urls_data i)] ++ l).
        rewrite !dispatched_app, !elem_of_app. auto. }
      split; [done|]. split; [done|].
      destruct (outcome r); [| |done]; destruct Hso as [Hns Hgo];
        (split; [done|]); right; rewrite !elem_of_app; auto.
Qed.

(** X14: every row written during a run belongs to a URL that was handed
    to [visit_url] before, and its status tells what was done with that URL
    up to then: a [skipped] row is written only for a URL that
    [should_skip_url] rejects, and that URL is never navigated on any page;
    a [failed] or a [successful] row is written only for a URL that passed
    the filter and only after [page.goto] was called with it on the page
    the URL was assigned to.  [pre] is the trace up to the row. *)
Theorem status_tells_what_was_done W visited df tr visited' pre r post :
  run W visited df tr visited' ->
  tr = pre ++ EvAppend r :: post ->
  exists u t p, (u, t, p) ∈ dispatched pre
    /\ domain r = get_domain u /\ timestamp r = t
    /\ match outcome r with
       | skipped => should_skip_url u = true /\ forall p', EvGoto u p' ∉ tr
       | _ => should_skip_url u = false /\ EvGoto u p ∈ pre
       end.
Proof.
  intros Hrun Heq.
  destruct (run_from_outcomes_before _ _ _ _ _ _ Hrun pre r post Heq)
    as (u & t & p & Hd & Hdom & Hts & Hso).
  exists u, t, p. split; [done|]. split; [done|]. split; [done|].
  destruct (outcome r); [done|done|]. split; [done|].
  intros p' Hgo. pose proof (run_from_gotos _ _ _ _ _ _ Hrun u p' Hgo).
  congruence.
Qed.

(** *** Splitting on the delimiter of the exporter *)

Lemma startswith_space_app u s :
  Py.no_space u = true -> Py.startswith s " " = false ->
  Py.startswith (u +:+ s) " " = false.
Proof.
  intros Hu Hs. destruct u as [|c u]; [done|].
  rewrite app_string_cons. cbn [Py.startswith].
  unfold Py.no_space in Hu. cbn [Py.all_of] in Hu.
  apply andb_true_iff in Hu as [Hc _]. apply negb_true_iff in Hc.
  destruct (Ascii.eqb_spec " " c) as [<- | Hne]; [|done].
  vm_compute in Hc. discriminate.
Qed.

Lemma split_aux_delimiter fuel cur s :
  String.length s < fuel ->
  Py.split_aux fuel "; " cur (String ";" (String " " s))
  = cur :: Py.split_aux (fuel - 1) "; " EmptyString s.
Proof.
  intros Hf. destruct fuel as [|fuel]; [lia|]. simpl.
  by rewrite PyFacts.startswith_nil, Nat.sub_0_r.
Qed.

Lemma split_aux_no_delimiter fuel cur c s :
  String.length s < fuel ->
  Py.startswith s " " = false ->
  Py.split_aux fuel "; " cur (String c s)
  = Py.split_aux (fuel - 1) "; " (cur +:+ String c EmptyString) s.
Proof.
  intros Hf Hs. destruct fuel as [|fuel]; [lia|]. cbn [Py.split_aux].
  cbn [Py.startswith]. rewrite Hs, andb_false_r.
  by rewrite Nat.sub_succ, Nat.sub_0_r.
Qed.

(** A piece without whitespace is read through, if what follows it does
    not begin with a space. *)
Lemma split_aux_url u fuel cur s :
  Py.no_space u = true ->
  Py.startswith s " " = false ->
  String.length (u +:+ s) < fuel ->
  Py.split_aux fuel "; " cur (u +:+ s)
  = Py.split_aux (fuel - String.length u) "; " (cur +:+ u) s.
Proof.
  revert fuel cur. induction u as [|c u IH]; intros fuel cur Hu Hs Hf.
  - simpl. by rewrite Nat.sub_0_r, app_string_nil_r.
  - assert (Py.no_space u = true) as Hu'.
    { unfold Py.no_space in *. cbn [Py.all_of] in Hu.
      by apply andb_true_iff in Hu as [_ Hu]. }
    change (String c u +:+ s) with (String c (u +:+ s)) in *.
    cbn [String.length] in Hf.
    rewrite split_aux_no_delimiter
      by (lia || by apply startswith_space_app).
    rewrite IH by (done || lia).
    rewrite app_string_assoc. cbn [String.length]. f_equal. lia.
Qed.

Lemma split_aux_delimiter_empty fuel cur :
  Py.split_aux fuel "; " cur EmptyString = [cur].
Proof. by destruct fuel. Qed.

Lemma split_join_delimiter (l : list string) (u : string) fuel cur :
  Forall (fun u => Py.no_space u = true) (u :: l) ->
  String.length (Py.join "; " (u :: l)) < fuel ->
  Py.split_aux fuel "; " cur (Py.join "; " (u :: l)) = (cur +:+ u) :: l.
Proof.
  revert u fuel cur. induction l as [|v l IH]; intros u fuel cur Hall Hf.
  - apply Forall_cons in Hall as [Hu _]. cbn [Py.join] in *.
    rewrite <- (app_string_nil_r u) at 1.
    rewrite split_aux_url by (done || by rewrite app_string_nil_r).
    by rewrite split_aux_delimiter_empty.
  - apply Forall_cons in Hall as [Hu Hall].
    change (Py.join "; " (u :: v :: l))
      with (u +:+ String ";" (String " " (Py.join "; " (v :: l)))) in *.
    rewrite length_app_string in Hf. cbn [String.length] in Hf.
    rewrite split_aux_url
      by (done || rewrite length_app_string; cbn [String.length]; lia).
    rewrite split_aux_delimiter by lia.
    rewrite IH by (done || lia). done.
Qed.

(** [s.split("; ")] undoes ["; ".join] on URLs without whitespace. *)
Lemma split_join_urls (l : list string) :
  l <> [] -> Forall (fun u => Py.no_space u = true) l ->
  Py.split (Py.join "; " l) "; " = l.
Proof.
  intros Hne Hall. destruct l as [|u l]; [done|]. unfold Py.split.
  rewrite split_join_delimiter; [done | done | lia].
Qed.

(** The loader's [split(';')] and [strip()] undo it only if, besides, no
    URL has a semicolon. *)
Lemma strip_split_join_urls (l : list string) :
  l <> [] ->
  Forall (fun u => Py.no_space u = true) l ->
  Forall (fun u => Py.no_semicolon u = true) l ->
  Py.strip <$> Py.split (Py.join "; " l) ";" = l.
Proof.
  intros Hne Hsp Hsc. destruct l as [|u l]; [done|]. unfold Py.split.
  rewrite split_join_aux; [|done|lia].
  change (EmptyString +:+ u) with u.
  apply Forall_cons in Hsp as [Hu Hsp]. rewrite fmap_cons.
  destruct (strip_plain u Hu) as [-> _]. f_equal.
  clear -Hsp. induction Hsp as [|v l Hv _ IH]; [done|].
  rewrite !fmap_cons, IH. f_equal. by destruct (strip_plain v Hv) as [_ ->].
Qed.


(** *** The store on disk *)

Section PersistenceFacts.

Variable is_numeric : string -> bool.
Variable is_boolean : string -> bool.
Variable written : list string -> string -> string.

Abbreviation column_of_str := (Visitor.column_of_str is_numeric is_boolean).
Abbreviation read_cell := (Visitor.read_cell is_numeric is_boolean written).
Abbreviation read_csv := (Visitor.read_csv is_numeric is_boolean written).
Abbreviation load_visited_domains :=
  (Visitor.load_visited_domains is_numeric is_boolean written).
Abbreviation session := (Visitor.session is_numeric is_boolean written).
Abbreviation reads_back := (Visitor.reads_back is_numeric is_boolean).

Lemma str_rows_app f1 f2 : str_rows (f1 ++ f2) = str_rows f1 ++ str_rows f2.
Proof. unfold str_rows. by rewrite filter_app, fmap_app. Qed.

Lemma str_rows_cons (x : bool * visit_row) f :
  str_rows (x :: f) = if x.1 then x.2 :: str_rows f else str_rows f.
Proof.
  unfold str_rows. rewrite filter_cons. destruct x as [[] r]; simpl.
  - by destruct (decide (true = true)).
  - by destruct (decide (false = true)).
Qed.

(** The rows of the file that are read back with a [str] domain are those
    whose domain is no missing-value text, if the column is read as
    strings, and none otherwise. *)
Lemma load_visited_domains_filter file :
  load_visited_domains file
  = if column_of_str (domain <$> file)
    then filter (fun r => is_na (domain r) = false) file
    else [].
Proof.
  unfold Visitor.load_visited_domains, Visitor.read_csv.
  generalize (domain <$> file). intros texts.
  induction file as [|r file IH]; [by destruct (column_of_str texts)|].
  rewrite fmap_cons, str_rows_cons, IH, filter_cons.
  unfold Visitor.read_cell.
  destruct (is_na (domain r)) eqn:Hna; simpl.
  - destruct (decide (true = false)); [done|]. done.
  - destruct (column_of_str texts); simpl; [|done].
    by destruct (decide (false = false)).
Qed.

Lemma load_visited_domains_elem file r :
  r ∈ load_visited_domains file
  <-> r ∈ file /\ column_of_str (domain <$> file) = true
      /\ is_na (domain r) = false.
Proof.
  rewrite load_visited_domains_filter.
  destruct (column_of_str (domain <$> file)).
  - rewrite list_elem_of_filter. split.
    + intros [H1 H2]. by repeat split.
    + intros (H1 & _ & H2). by split.
  - split; [by inversion 1 | by intros (_ & ? & _)].
Qed.

Lemma load_visited_domains_visited file d :
  domain_visited (load_visited_domains file) d = true
  <-> d ∈ domain <$> file /\ column_of_str (domain <$> file) = true
      /\ is_na d = false.
Proof.
  rewrite domain_visited_elem. split.
  - intros (r & Hr & <-). apply load_visited_domains_elem in Hr as (? & ? & ?).
    split; [by apply list_elem_of_fmap_2 | done].
  - intros (Hd & Hc & Hna). apply list_elem_of_fmap in Hd as (r & -> & Hr).
    exists r. split; [|done]. by apply load_visited_domains_elem.
Qed.

Lemma reads_back_spec file :
  reads_back file = true ->
  read_csv file = (fun r => (true, r)) <$> file.
Proof.
  unfold Visitor.reads_back, Visitor.read_csv.
  generalize (domain <$> file). intros texts Hall.
  induction file as [|r file IH]; [done|].
  cbn [forallb] in Hall. apply andb_true_iff in Hall as [Hr Hall].
  apply andb_true_iff in Hr as [Hc Hna]. apply negb_true_iff in Hna.
  rewrite !fmap_cons, (IH Hall). f_equal.
  unfold Visitor.read_cell. by rewrite Hna, Hc.
Qed.

Lemma str_rows_all (rows : store) :
  str_rows ((fun r => (true, r)) <$> rows) = rows.
Proof.
  unfold str_rows. induction rows as [|r rows IH]; [done|].
  rewrite fmap_cons, filter_cons_True by done. by rewrite fmap_cons, IH.
Qed.

Lemma to_csv_all (rows : store) : to_csv ((fun r => (true, r)) <$> rows) = rows.
Proof.
  unfold to_csv. rewrite <- list_fmap_compose. apply list_fmap_id.
Qed.

Lemma reads_back_load file :
  reads_back file = true ->
  load_visited_domains file = file /\ to_csv (read_csv file) = file.
Proof.
  intros H. unfold Visitor.load_visited_domains.
  rewrite (reads_back_spec _ H). split; [apply str_rows_all | apply to_csv_all].
Qed.

(** What a session leaves in the file: the rows it read, the [str] ones as
    they were and in their order, and then the rows it appended. *)
Lemma session_file W file df tr file' :
  session W file df tr file' ->
  file' = to_csv (read_csv file) ++ appended tr
  /\ forall r, r ∈ load_visited_domains file ++ appended tr -> r ∈ file'.
Proof.
  intros (visited' & _ & Hfile).
  assert (file' = to_csv (read_csv file) ++ appended tr) as ->.
  { rewrite Hfile. unfold to_csv. rewrite fmap_app, <- list_fmap_compose.
    f_equal. apply list_fmap_id. }
  split; [done|]. intros r Hr. apply elem_of_app in Hr as [Hr | Hr];
    apply elem_of_app; [left | by right].
  unfold Visitor.load_visited_domains, str_rows in Hr.
  apply list_elem_of_fmap in Hr as (x & -> & Hx).
  apply list_elem_of_filter in Hx as [_ Hx].
  by apply (list_elem_of_fmap_2 snd).
Qed.


Lemma na_domain_is_not_loaded file d :
  is_na d = true -> domain_visited (load_visited_domains file) d = false.
Proof.
  intros Hna. apply not_true_is_false. intros Hv.
  apply load_visited_domains_visited in Hv as (_ & _ & Hno). congruence.
Qed.


(** C6, as the code does it: a URL that is handed to [visit_url] and that
    the filter rejects is never navigated; its [skipped] row is appended in
    the trace of its own batch, after that batch is dispatched and before
    the next one is, and the store file is left with that row.  If a later
    run reads the domain of the row back as a [str], it selects no URL of
    that domain, whatever its interchange file. *)
Theorem rejected_url_is_skipped_in_its_batch (W : nat) (file : store)
  (df : list input_row) (tr : list event) (file' : store)
  (k : nat) (b : list (string * string * nat)) (u t : string) (p : nat) :
  session W file df tr file' ->
  EvGather k b ∈ tr ->
  (u, t, p) ∈ b ->
  should_skip_url u = true ->
  (exists pre seg post at_,
     tr = pre ++ EvGather k b :: seg ++ post
     /\ Forall (fun e => is_gather e = false) seg
     /\ (post = []
         \/ exists b' post', post = EvDelay :: EvGather (k + W) b' :: post')
     /\ EvAppend (row_of (get_domain u) t skipped at_) ∈ seg
     /\ row_of (get_domain u) t skipped at_ ∈ file')
  /\ (forall p', EvGoto u p' ∉ tr)
  /\ (column_of_str (domain <$> file') = true ->
      is_na (get_domain u) = false ->
      forall df' item, item ∈ load (load_visited_domains file') df' ->
        get_domain item.1 <> get_domain u).
Proof.
  intros Hs Hk Hin Hskip. destruct (session_file _ _ _ _ _ Hs) as [_ Hfile].
  destruct Hs as (visited' & Hrun & _).
  destruct (rejected_url_in_its_batch W _ df tr visited' k b u t p
              Hrun Hk Hin Hskip)
    as ((pre & seg & post & at_ & Htr & Hng & Hpost & Hat) & Hgo & _).
  assert (row_of (get_domain u) t skipped at_ ∈ file') as Hrow.
  { apply Hfile, elem_of_app. right. apply appended_elem. rewrite Htr.
    apply elem_of_app. right. right. apply elem_of_app. by left. }
  split; [by exists pre, seg, post, at_|]. split; [done|].
  intros Hc Hna df' item Hitem Heq.
  destruct (load_ok (load_visited_domains file') df') as [_ Hnew].
  rewrite Forall_forall in Hnew. specialize (Hnew _ Hitem). simpl in Hnew.
  assert (domain_visited (load_visited_domains file') (get_domain item.1)
          = true); [|congruence].
  apply load_visited_domains_visited. rewrite Heq.
  split; [|done].
  by apply (list_elem_of_fmap_2 domain _ (row_of (get_domain u) t skipped at_)).
Qed.


End PersistenceFacts.

(** X12: with [W] pages a run over [n] selected pairs dispatches
    [ceil(n / W)] batches, and it waits between two batches and at no other
    time: the delays are one fewer than the batches. *)
Theorem batches_and_delays_of_a_run W visited df tr visited' :
  0 < W ->
  run W visited df tr visited' ->
  count_batches tr = (length (load visited df) + W - 1) / W
  /\ count_delays tr = count_batches tr - 1.
Proof.
  intros HW Hrun. destruct (run_from_counts _ _ _ _ _ _ HW Hrun) as [Hb Hd].
  by rewrite Nat.sub_0_r in Hb.
Qed.

(** *** Instances for the visitor *)

Lemma batch_pages_are_distinct_witness :
  [("http://b.com/x.png", "2023-11-14T22:13:20+00:00", 0)]
  = batch_at 1 (load [] sample_file) 1
  /\ (fun a : string * string * nat => a.2)
       <$> [("http://b.com/x.png", "2023-11-14T22:13:20+00:00", 0)]
     = seq 0 (length [("http://b.com/x.png", "2023-11-14T22:13:20+00:00", 0)])
  /\ 0 < length [("http://b.com/x.png", "2023-11-14T22:13:20+00:00", 0)] <= 1.
Proof.
  apply (batch_pages_are_distinct 1 [] sample_file sample_trace sample_store 1
           [("http://b.com/x.png", "2023-11-14T22:13:20+00:00", 0)]).
  - exact sample_run.
  - apply list_elem_of_In. simpl. tauto.
Defined.

Lemma batches_and_delays_of_a_run_witness :
  count_batches sample_trace = (length (load [] sample_file) + 1 - 1) / 1
  /\ count_delays sample_trace = count_batches sample_trace - 1.
Proof.
  apply (batches_and_delays_of_a_run 1 [] sample_file sample_trace
           sample_store).
  - lia.
  - exact sample_run.
Defined.

Lemma one_row_per_selected_url_witness :
  sample_store = [] ++ appended sample_trace
  /\ row_key <$> appended sample_trace ≡ₚ pair_key <$> load [] sample_file
  /\ (NoDup (domain <$> []) -> NoDup (domain <$> sample_store)).
Proof.
  apply (one_row_per_selected_url 1 [] sample_file sample_trace sample_store).
  exact sample_run.
Defined.

Lemma status_tells_what_was_done_witness :
  exists u t p,
    (u, t, p)
    ∈ dispatched
        [EvGather 0 [("http://a.com/", "2023-11-14T22:13:20+00:00", 0)];
         EvGoto "http://a.com/" 0]
    /\ domain (row_of "a.com" "2023-11-14T22:13:20+00:00" failed sample_clock)
       = get_domain u
    /\ timestamp
         (row_of "a.com" "2023-11-14T22:13:20+00:00" failed sample_clock)
       = t
    /\ match
         outcome
           (row_of "a.com" "2023-11-14T22:13:20+00:00" failed sample_clock)
       with
       | skipped =>
           should_skip_url u = true
           /\ forall p', EvGoto u p' ∉ sample_trace
       | _ =>
           should_skip_url u = false
           /\ EvGoto u p
              ∈ [EvGather 0
                   [("http://a.com/", "2023-11-14T22:13:20+00:00", 0)];
                 EvGoto "http://a.com/" 0]
       end.
Proof.
  apply (status_tells_what_was_done 1 [] sample_file sample_trace sample_store
           [EvGather 0 [("http://a.com/", "2023-11-14T22:13:20+00:00", 0)];
            EvGoto "http://a.com/" 0]
           (row_of "a.com" "2023-11-14T22:13:20+00:00" failed sample_clock)
           [EvReturn "http://a.com/" 0; EvDelay;
            EvGather 1 [("http://b.com/x.png", "2023-11-14T22:13:20+00:00", 0)];
            EvAppend
              (row_of "b.com" "2023-11-14T22:13:20+00:00" skipped sample_clock);
            EvReturn "http://b.com/x.png" 0]).
  - exact sample_run.
  - reflexivity.
Defined.



Lemma sample_null_run :
  run 1 [] sample_null_file sample_null_trace
    [row_of "null" "2023-11-14T22:13:20+00:00" failed sample_clock].
Proof.
  unfold run.
  change (load [] sample_null_file)
    with [("http://null/x", "2023-11-14T22:13:20+00:00")].
  set (urls_data := [("http://null/x", "2023-11-14T22:13:20+00:00")]).
  set (row := row_of "null" "2023-11-14T22:13:20+00:00" failed sample_clock).
  change sample_null_trace
    with (EvGather 0 (batch_at 1 urls_data 0)
          :: [EvGoto "http://null/x" 0; EvAppend row;
              EvReturn "http://null/x" 0]
          ++ (if 0 + 1 <? length urls_data then [EvDelay] else [])
          ++ []).
  apply (run_batch 1 urls_data 0 [] _ [row]).
  - simpl. lia.
  - change [EvGoto "http://null/x" 0; EvAppend row;
            EvReturn "http://null/x" 0]
      with ([EvGoto "http://null/x" 0]
            ++ [EvAppend row; EvReturn "http://null/x" 0] ++ []).
    apply (gather_step [] _ _ []
             ([] ++ [AwaitGoto "http://null/x" "2023-11-14T22:13:20+00:00"
                       sample_clock 0])).
    + apply (pool_start [] [] []); [constructor|].
      apply start_goto; vm_compute; reflexivity.
    + apply (gather_step [] _ _ ([] ++ [row]) ([] ++ [Returned])).
      * apply (pool_resume [] [] []); [repeat constructor|].
        apply (goto_failed [] "http://null/x").
      * apply gather_done. by repeat constructor.
  - apply run_end. simpl. lia.
Qed.


Lemma sample_session :
  session sample_is_numeric sample_is_boolean sample_written 1 []
    sample_file sample_trace sample_store.
Proof.
  exists sample_store. split; [exact sample_run | vm_compute; reflexivity].
Qed.

Lemma rejected_url_is_skipped_witness :
  row_of "b.com" "2023-11-14T22:13:20+00:00" skipped sample_clock
  ∈ sample_store
  /\ forall df' item,
       item ∈ load (load_visited_domains sample_is_numeric sample_is_boolean
                      sample_written sample_store) df' ->
       get_domain item.1 <> get_domain "http://b.com/x.png".
Proof.
  destruct (rejected_url_is_skipped_in_its_batch sample_is_numeric
              sample_is_boolean sample_written 1 [] sample_file sample_trace
              sample_store 1
              [("http://b.com/x.png", "2023-11-14T22:13:20+00:00", 0)]
              "http://b.com/x.png" "2023-11-14T22:13:20+00:00" 0)
    as (_ & _ & Hlater).
  - exact sample_session.
  - apply list_elem_of_In. simpl. tauto.
  - apply list_elem_of_In. simpl. tauto.
  - vm_compute. reflexivity.
  - split; [apply list_elem_of_In; simpl; tauto|].
    apply Hlater; vm_compute; reflexivity.
Defined.


Lemma passing_urls_are_navigated_once_witness :
  gotos sample_trace ≡ₚ passing (dispatched sample_trace).
Proof.
  apply (passing_urls_are_navigated_once 1 [] sample_file sample_trace
           sample_store).
  exact sample_run.
Defined.

End VisitorFacts.
